(** * Aurora OS: the AI security kernel module

    A shallow embedding of [src/kernel/ai_extensions/ai_security.c] and
    [ai_security.h]: threat scoring, threat classification, action
    selection, the profile store, the event log, the LSM hooks and the
    periodic learning pass, with the properties the design document states
    about them.

    Conventions
    - [u32]/[u64] values are [Z] with the wrap-around written out;
    - [float] is IEEE-754 binary32, computed with the Standard Library's
      executable specification [SpecFloat] at precision 24 and [emax] 128
      (round to nearest, ties to even);
    - nullable [char *] pointers are [option string];
    - the global [ai_sec_mgr] and the module parameters are threaded
      explicitly; allocation outcomes and the clock are inputs. *)

From Stdlib Require Import ZArith List Bool String Ascii Lia.
From Stdlib Require Import DecimalString.
From Stdlib Require Import Floats.SpecFloat.
Import ListNotations.
Open Scope Z_scope.

(** ** Machine integers *)

Definition u32 (z : Z) : Z := z mod 2 ^ 32.
Definition u64 (z : Z) : Z := z mod 2 ^ 64.

(** The kernel's [min]/[max] macros on unsigned integers. *)
Definition min_u (x y : Z) : Z := if x <? y then x else y.
Definition max_u (x y : Z) : Z := if x >? y then x else y.

(** ** IEEE-754 binary32, the C type [float] *)

Module F32.

Definition prec : Z := 24.
Definition emax : Z := 128.

Definition float : Type := spec_float.

Definition add : float -> float -> float := SFadd prec emax.
Definition sub : float -> float -> float := SFsub prec emax.
Definition mul : float -> float -> float := SFmul prec emax.
Definition div : float -> float -> float := SFdiv prec emax.

(** [x < y] and [x > y]; both are false when an operand is a NaN. *)
Definition ltb (x y : float) : bool := SFltb x y.
Definition gtb (x y : float) : bool := SFltb y x.
Definition leb (x y : float) : bool := SFleb x y.

(** Conversion of an integer to [float] (exact below [2^24]). *)
Definition of_Z (n : Z) : float := binary_normalize prec emax n 0 false.

(** A decimal literal [n/d] written with the [f] suffix: the binary32
    number nearest to the quotient.  Numerator and denominator are exact,
    and the division is correctly rounded. *)
Definition lit (n d : Z) : float := div (of_Z n) (of_Z d).

(** Truncation toward zero of a finite value, as an integer. *)
Definition trunc (x : float) : Z :=
  match x with
  | S754_finite s m e =>
      let a := if 0 <=? e then Z.shiftl (Zpos m) e
               else Z.shiftr (Zpos m) (- e) in
      if s then - a else a
  | _ => 0
  end.

(** The cast [(u32)x] is defined by C when the truncated value fits. *)
Definition u32_convertible (x : float) : bool :=
  match x with
  | S754_zero _ => true
  | S754_finite _ _ _ => (0 <=? trunc x) && (trunc x <? 2 ^ 32)
  | _ => false
  end.

(** The cast [(u32)x].  Outside [u32_convertible] C leaves the result
    undefined; the model wraps there, and no theorem below relies on it. *)
Definition to_u32 (x : float) : Z := u32 (trunc x).

(** The kernel's [min]/[max] macros at type [float]:
    [min(x,y) = x < y ? x : y] and [max(x,y) = x > y ? x : y]. *)
Definition min (x y : float) : float := if ltb x y then x else y.
Definition max (x y : float) : float := if gtb x y then x else y.

Definition zero : float := S754_zero false.

(** The values of the type: NaN, zeros, infinities, and the finite numbers
    whose mantissa and exponent are in canonical binary32 form. *)
Definition valid (x : float) : bool := valid_binary prec emax x.

End F32.

(** The literals of the source. *)
Definition f_0_0 : F32.float := F32.zero.
Definition f_1_0 : F32.float := F32.of_Z 1.
Definition f_0_8 : F32.float := F32.lit 8 10.
Definition f_0_7 : F32.float := F32.lit 7 10.
Definition f_0_3 : F32.float := F32.lit 3 10.
Definition f_0_2 : F32.float := F32.lit 2 10.
Definition f_0_01 : F32.float := F32.lit 1 100.
Definition f_0_005 : F32.float := F32.lit 5 1000.
Definition f_1000 : F32.float := F32.of_Z 1000.
Definition f_500 : F32.float := F32.of_Z 500.
Definition f_200 : F32.float := F32.of_Z 200.
Definition f_100 : F32.float := F32.of_Z 100.

(** ** Configuration constants ([ai_security.h]) *)

Definition AI_SECURITY_MAX_PROFILES : Z := 256.
Definition AI_SECURITY_THREAT_SCORE_THRESHOLD : Z := 75.
Definition AI_SECURITY_MAX_EVENTS_PER_PROCESS : Z := 100.
Definition AI_SECURITY_HASH_SIZE : Z := 256.
Definition TASK_COMM_LEN : nat := 16.

Definition EINVAL : Z := 22.
Definition ENOMEM : Z := 12.
Definition EACCES : Z := 13.
Definition EPERM : Z := 1.

(** ** Enumerations *)

Inductive ai_security_event_type : Type :=
| AI_SECURITY_EVENT_FILE_ACCESS
| AI_SECURITY_EVENT_NETWORK_CONNECT
| AI_SECURITY_EVENT_PROCESS_EXEC
| AI_SECURITY_EVENT_PRIVILEGE_ESCALATION
| AI_SECURITY_EVENT_MEMORY_PROTECTION
| AI_SECURITY_EVENT_SYSTEM_CALL
| AI_SECURITY_EVENT_SUSPICIOUS_PATTERN.

Inductive ai_security_threat_level : Type :=
| AI_SECURITY_THREAT_NONE
| AI_SECURITY_THREAT_LOW
| AI_SECURITY_THREAT_MEDIUM
| AI_SECURITY_THREAT_HIGH
| AI_SECURITY_THREAT_CRITICAL.

Inductive ai_security_action : Type :=
| AI_SECURITY_ACTION_ALLOW
| AI_SECURITY_ACTION_WARN
| AI_SECURITY_ACTION_BLOCK
| AI_SECURITY_ACTION_QUARANTINE
| AI_SECURITY_ACTION_TERMINATE
| AI_SECURITY_ACTION_ALERT.

(** The integer value of a threat level, as the C enumeration numbers it. *)
Definition level_value (l : ai_security_threat_level) : Z :=
  match l with
  | AI_SECURITY_THREAT_NONE => 0
  | AI_SECURITY_THREAT_LOW => 1
  | AI_SECURITY_THREAT_MEDIUM => 2
  | AI_SECURITY_THREAT_HIGH => 3
  | AI_SECURITY_THREAT_CRITICAL => 4
  end.

(** [max] on threat levels compares the enumeration values. *)
Definition max_level (a b : ai_security_threat_level) : ai_security_threat_level :=
  if level_value a >? level_value b then a else b.

(** ** Strings *)

(** [strstr(hay, needle) != NULL]. *)
Fixpoint strstr (hay needle : string) : bool :=
  String.prefix needle hay
  || match hay with
     | EmptyString => false
     | String _ rest => strstr rest needle
     end.

(** The first [n] characters of a string: what [strncpy] and [snprintf]
    keep of an input that is too long. *)
Fixpoint take_chars (n : nat) (s : string) : string :=
  match n, s with
  | S k, String c rest => String c (take_chars k rest)
  | _, _ => EmptyString
  end.

(** What [printf]'s [%d] prints for a 32-bit argument. *)
Definition fmt_d (z : Z) : string :=
  let w := z mod 2 ^ 32 in
  NilZero.string_of_int (Z.to_int (if w <? 2 ^ 31 then w else w - 2 ^ 32)).

(** ** Threat classification *)

Definition ai_security_classify_threat (score : Z) : ai_security_threat_level :=
  if score >=? 90 then AI_SECURITY_THREAT_CRITICAL
  else if score >=? 70 then AI_SECURITY_THREAT_HIGH
  else if score >=? 50 then AI_SECURITY_THREAT_MEDIUM
  else if score >=? 25 then AI_SECURITY_THREAT_LOW
  else AI_SECURITY_THREAT_NONE.

(** ** Data model *)

(** [struct ai_security_event], with the fields the module reads or
    writes.  [event_data] is the type-specific payload; every hook that
    sets it stores a string. *)
Module Event.
Record ai_security_event : Type := mk {
  event_id : Z;
  type : ai_security_event_type;
  timestamp : Z;
  pid : Z;
  ppid : Z;
  uid : Z;
  gid : Z;
  comm : string;
  description : option string;
  event_data : option string;
  data_size : Z;
  threat_level : ai_security_threat_level;
  threat_score : Z;
  recommended_action : ai_security_action;
  confidence : Z;
  false_positive_flag : bool;
  escalated : bool
}.

(** The four assignments of the assessment fields. *)
Definition assess (e : ai_security_event) (lvl : ai_security_threat_level)
    (score : Z) (act : ai_security_action) (conf : Z) : ai_security_event :=
  mk (event_id e) (type e) (timestamp e) (pid e) (ppid e) (uid e) (gid e)
     (comm e) (description e) (event_data e) (data_size e)
     lvl score act conf (false_positive_flag e) (escalated e).

(** "Fill event details": the process fields and the payload. *)
Definition fill (e : ai_security_event) (pid' ppid' uid' gid' : Z)
    (comm' : string) (descr data : option string) (size : Z)
    : ai_security_event :=
  mk (event_id e) (type e) (timestamp e) pid' ppid' uid' gid' comm'
     descr data size (threat_level e) (threat_score e)
     (recommended_action e) (confidence e)
     (false_positive_flag e) (escalated e).
End Event.

(** [struct ai_security_profile], with the fields the module reads or
    writes; [kzalloc] leaves every other field zero. *)
Module Profile.
Record ai_security_profile : Type := mk {
  pid : Z;
  comm : string;
  executable_path : option string;
  executable_hash : Z;
  network_connection_count : Z;
  privilege_escalation_count : Z;
  last_activity : Z;
  creation_time : Z;
  anomaly_count : Z;
  threat_score : Z;
  current_threat : ai_security_threat_level;
  behavior_score : F32.float;
  risk_score : F32.float;
  trust_score : F32.float;
  event_count : Z
}.
End Profile.

Abbreviation ai_security_event := Event.ai_security_event.
Abbreviation ai_security_profile := Profile.ai_security_profile.

(** What the hooks read of [current]. [exe_path] is the path that
    [dentry_path_raw] yields for [mm->exe_file], absent when the task has
    no [mm], no executable file, or the path lookup fails. *)
Record task_struct : Type := {
  task_pid : Z;
  task_comm : string;
  real_parent_pid : Z;
  cred_uid : Z;
  cred_gid : Z;
  exe_path : option string
}.

(** What [ai_security_file_permission] reads of its [struct file]:
    [f_path.dentry->d_name.name], absent when either pointer is NULL. *)
Record file : Type := { d_name : option string }.

(** The outcome of each allocation a hook may perform, in source order. *)
Record alloc_outcomes : Type := {
  profile_ok : bool;      (* kzalloc of the profile *)
  exe_path_ok : bool;     (* kmalloc(PATH_MAX) in get_executable_path *)
  event_ok : bool;        (* kzalloc of the event *)
  description_ok : bool;  (* kmalloc of the description buffer *)
  data_ok : bool          (* kmalloc inside ai_security_strdup *)
}.

Definition all_ok : alloc_outcomes :=
  {| profile_ok := true; exe_path_ok := true; event_ok := true;
     description_ok := true; data_ok := true |}.

(** [struct ai_security_manager].  A profile object is identified by its
    position in [process_profiles] (insertion is at the tail and nothing is
    unlinked before module exit); the chains of [profile_hash] hold these
    positions, newest first.  The event hash table is written but never
    read by the code modelled here and is left out. *)
Record ai_security_manager : Type := {
  process_profiles : list ai_security_profile;
  profile_hash : Z -> list nat;
  recent_events : list ai_security_event;
  threat_intel_last_update : Z;
  total_events_processed : Z;
  threats_detected : Z;
  false_positives : Z;
  threats_blocked : Z;
  processes_monitored : Z;
  last_learning_update : Z
}.

(** The module's global variables. *)
Record globals : Type := {
  ai_sec_mgr : option ai_security_manager;
  ai_security_threat_threshold : Z;
  ai_security_auto_response : bool;
  ai_security_learning_enabled : bool;
  event_id_counter : Z
}.

Definition set_mgr (g : globals) (m : ai_security_manager) : globals :=
  {| ai_sec_mgr := Some m;
     ai_security_threat_threshold := ai_security_threat_threshold g;
     ai_security_auto_response := ai_security_auto_response g;
     ai_security_learning_enabled := ai_security_learning_enabled g;
     event_id_counter := event_id_counter g |}.

Definition set_profiles (m : ai_security_manager)
    (ps : list ai_security_profile) : ai_security_manager :=
  {| process_profiles := ps;
     profile_hash := profile_hash m;
     recent_events := recent_events m;
     threat_intel_last_update := threat_intel_last_update m;
     total_events_processed := total_events_processed m;
     threats_detected := threats_detected m;
     false_positives := false_positives m;
     threats_blocked := threats_blocked m;
     processes_monitored := processes_monitored m;
     last_learning_update := last_learning_update m |}.

Definition set_recent_events (m : ai_security_manager)
    (es : list ai_security_event) : ai_security_manager :=
  {| process_profiles := process_profiles m;
     profile_hash := profile_hash m;
     recent_events := es;
     threat_intel_last_update := threat_intel_last_update m;
     total_events_processed := total_events_processed m;
     threats_detected := threats_detected m;
     false_positives := false_positives m;
     threats_blocked := threats_blocked m;
     processes_monitored := processes_monitored m;
     last_learning_update := last_learning_update m |}.

(** The statistics block of the manager, in declaration order. *)
Definition statistics (m : ai_security_manager) : list Z :=
  [ total_events_processed m; threats_detected m; false_positives m;
    threats_blocked m; processes_monitored m ].

(** Overwriting the object at one position. *)
Fixpoint list_set {A : Type} (l : list A) (i : nat) (x : A) : list A :=
  match l, i with
  | [], _ => []
  | _ :: t, O => x :: t
  | h :: t, S j => h :: list_set t j x
  end.

(** ** The module's operations *)

Section AI_Security.

(** Kernel primitives the module calls and does not define:
    [hash_32(v, AI_SECURITY_HASH_SIZE)], the bucket index of a pid, and
    [full_name_hash(NULL, s, strlen(s))]. *)
Variable hash_32 : Z -> Z.
Variable full_name_hash : string -> Z.

Definition ai_security_hash_string (str : string) : Z := full_name_hash str.

Definition ai_security_is_system_process (pid : Z) : bool :=
  (pid <? 2) || (pid =? 1).

(** *** Hash table functions *)

(** Walks the chain of the pid's bucket and returns the first profile
    object whose pid matches. *)
Definition ai_security_profile_lookup (m : ai_security_manager) (pid : Z)
    : option nat :=
  find (fun a => match nth_error (process_profiles m) a with
                 | Some p => Profile.pid p =? pid
                 | None => false
                 end)
       (profile_hash m (hash_32 pid)).

(** [hlist_add_head_rcu] of the object at position [a] with pid [pid]. *)
Definition ai_security_profile_add_to_hash (tbl : Z -> list nat)
    (pid : Z) (a : nat) : Z -> list nat :=
  fun b => if b =? hash_32 pid then a :: tbl b else tbl b.

(** *** Profile management *)

Definition ai_security_get_profile (g : globals) (pid : Z) : option nat :=
  match ai_sec_mgr g with
  | None => None
  | Some m => ai_security_profile_lookup m pid
  end.

(** [ai_security_get_executable_path]: the buffer is allocated only when
    the task has an executable file. *)
Definition ai_security_get_executable_path (buffer_ok : bool)
    (task : task_struct) : option string :=
  match exe_path task with
  | Some path => if buffer_ok then Some path else None
  | None => None
  end.

(** The profile object that [ai_security_create_profile] initialises. *)
Definition new_profile (buffer_ok : bool) (task : task_struct) (now : Z)
    : ai_security_profile :=
  let exe := ai_security_get_executable_path buffer_ok task in
  {| Profile.pid := task_pid task;
     Profile.comm := take_chars (TASK_COMM_LEN - 1) (task_comm task);
     Profile.executable_path := exe;
     Profile.executable_hash :=
       match exe with
       | Some path => ai_security_hash_string path
       | None => 0
       end;
     Profile.network_connection_count := 0;
     Profile.privilege_escalation_count := 0;
     Profile.last_activity := now;
     Profile.creation_time := now;
     Profile.anomaly_count := 0;
     Profile.threat_score := 0;
     Profile.current_threat := AI_SECURITY_THREAT_NONE;
     Profile.behavior_score := f_0_8;
     Profile.risk_score := f_0_2;
     Profile.trust_score := f_0_7;
     Profile.event_count := 0 |}.

(** "Add to global list and hash table": the object goes to the tail of
    [process_profiles], the monitored-process counter goes up, and the
    object is put at the head of its bucket's chain. *)
Definition link_profile (m : ai_security_manager)
    (profile : ai_security_profile) : ai_security_manager :=
  let a := List.length (process_profiles m) in
  {| process_profiles := process_profiles m ++ [profile];
     profile_hash :=
       ai_security_profile_add_to_hash (profile_hash m)
         (Profile.pid profile) a;
     recent_events := recent_events m;
     threat_intel_last_update := threat_intel_last_update m;
     total_events_processed := total_events_processed m;
     threats_detected := threats_detected m;
     false_positives := false_positives m;
     threats_blocked := threats_blocked m;
     processes_monitored := u64 (processes_monitored m + 1);
     last_learning_update := last_learning_update m |}.

(** Returns the status code and the globals after the call. *)
Definition ai_security_create_profile (k : alloc_outcomes)
    (task : task_struct) (now : Z) (g : globals) : Z * globals :=
  match ai_sec_mgr g with
  | None => (- EINVAL, g)
  | Some m =>
      match ai_security_get_profile g (task_pid task) with
      | Some _ => (0, g)
      | None =>
          if negb (profile_ok k) then (- ENOMEM, g)
          else
            let profile := new_profile (exe_path_ok k) task now in
            (0, set_mgr g (link_profile m profile))
      end
  end.

(** *** Event management *)

(** The event object that [ai_security_create_event] initialises. *)
Definition new_event (id : Z) (type : ai_security_event_type) (now : Z)
    : ai_security_event :=
  {| Event.event_id := id;
     Event.type := type;
     Event.timestamp := now;
     Event.pid := 0;
     Event.ppid := 0;
     Event.uid := 0;
     Event.gid := 0;
     Event.comm := EmptyString;
     Event.description := None;
     Event.event_data := None;
     Event.data_size := 0;
     Event.threat_level := AI_SECURITY_THREAT_NONE;
     Event.threat_score := 0;
     Event.recommended_action := AI_SECURITY_ACTION_ALLOW;
     Event.confidence := 50;
     Event.false_positive_flag := false;
     Event.escalated := false |}.

(** Returns the status code, the event when one was allocated, and the
    globals (the id counter advances only on success). *)
Definition ai_security_create_event (alloc_ok : bool)
    (type : ai_security_event_type) (now : Z) (g : globals)
    : Z * option ai_security_event * globals :=
  if negb alloc_ok then (- ENOMEM, None, g)
  else
    let id := u64 (event_id_counter g + 1) in
    (0, Some (new_event id type now),
     {| ai_sec_mgr := ai_sec_mgr g;
        ai_security_threat_threshold := ai_security_threat_threshold g;
        ai_security_auto_response := ai_security_auto_response g;
        ai_security_learning_enabled := ai_security_learning_enabled g;
        event_id_counter := id |}).

(** The [FILE_ACCESS] test:
    [event->event_data && strstr(event->description, "sensitive")].
    With a payload and no description the source passes NULL to [strstr];
    no hook builds such an event, and the theorems exclude it. *)
Definition file_access_suspicious (e : ai_security_event) : bool :=
  match Event.event_data e with
  | None => false
  | Some _ =>
      match Event.description e with
      | Some d => strstr d "sensitive"%string
      | None => false
      end
  end.

(** The [PROCESS_EXEC] test on the payload, read as the executable path. *)
Definition exec_from_temp (e : ai_security_event) : bool :=
  match Event.event_data e with
  | None => false
  | Some exe_path => strstr exe_path "/tmp/"%string || strstr exe_path "/var/tmp/"%string
  end.

(** The score after the [switch] on the event type. *)
Definition score_after_type (e : ai_security_event) (p : ai_security_profile)
    : Z :=
  let s := Event.threat_score e in
  match Event.type e with
  | AI_SECURITY_EVENT_FILE_ACCESS =>
      if file_access_suspicious e then u32 (s + 30) else s
  | AI_SECURITY_EVENT_NETWORK_CONNECT =>
      if Profile.network_connection_count p >? 100 then u32 (s + 25) else s
  | AI_SECURITY_EVENT_PRIVILEGE_ESCALATION => u32 (s + 60)
  | AI_SECURITY_EVENT_PROCESS_EXEC =>
      if exec_from_temp e then u32 (s + 40) else s
  | _ => s
  end.

(** The action chosen from the capped score and the threshold. *)
Definition recommend_action (threshold score : Z) : ai_security_action :=
  if score >=? threshold then
    if score >=? 90 then AI_SECURITY_ACTION_TERMINATE
    else if score >=? 80 then AI_SECURITY_ACTION_BLOCK
    else AI_SECURITY_ACTION_QUARANTINE
  else if score >=? 50 then AI_SECURITY_ACTION_WARN
  else AI_SECURITY_ACTION_ALLOW.

(** The part of [ai_security_analyze_event] that runs under the profile's
    lock: the assessed event and the updated profile. *)
Definition analyze_locked (threshold : Z) (e : ai_security_event)
    (p : ai_security_profile) : ai_security_event * ai_security_profile :=
  let event_count := u32 (Profile.event_count p + 1) in
  let s1 := score_after_type e p in
  let privilege_escalation_count :=
    match Event.type e with
    | AI_SECURITY_EVENT_PRIVILEGE_ESCALATION =>
        u64 (Profile.privilege_escalation_count p + 1)
    | _ => Profile.privilege_escalation_count p
    end in
  let s2 := if F32.ltb (Profile.trust_score p) f_0_3 then u32 (s1 + 20)
            else s1 in
  let s3 := if Profile.anomaly_count p >? 5 then u32 (s2 + 15) else s2 in
  let score := min_u s3 100 in
  let level := ai_security_classify_threat score in
  let confidence :=
    min_u (F32.to_u32 (F32.mul (Profile.behavior_score p) f_100)) 100 in
  let action := recommend_action threshold score in
  let anomaly_count :=
    if score >? 30 then u32 (Profile.anomaly_count p + 1)
    else Profile.anomaly_count p in
  let delta d := F32.div (F32.of_Z score) d in
  (Event.assess e level score action confidence,
   {| Profile.pid := Profile.pid p;
      Profile.comm := Profile.comm p;
      Profile.executable_path := Profile.executable_path p;
      Profile.executable_hash := Profile.executable_hash p;
      Profile.network_connection_count := Profile.network_connection_count p;
      Profile.privilege_escalation_count := privilege_escalation_count;
      Profile.last_activity := Profile.last_activity p;
      Profile.creation_time := Profile.creation_time p;
      Profile.anomaly_count := anomaly_count;
      Profile.threat_score := max_u (Profile.threat_score p) score;
      Profile.current_threat := max_level (Profile.current_threat p) level;
      Profile.behavior_score :=
        F32.max f_0_0 (F32.sub (Profile.behavior_score p) (delta f_200));
      Profile.risk_score :=
        F32.min f_1_0 (F32.add (Profile.risk_score p) (delta f_1000));
      Profile.trust_score :=
        F32.max f_0_0 (F32.sub (Profile.trust_score p) (delta f_500));
      Profile.event_count := event_count |}).

(** Returns the status code, the event as assessed, and the globals. *)
Definition ai_security_analyze_event (e : ai_security_event) (g : globals)
    : Z * ai_security_event * globals :=
  match ai_sec_mgr g with
  | None => (- EINVAL, e, g)
  | Some m =>
      match ai_security_get_profile g (Event.pid e) with
      | None =>
          (0,
           Event.assess e AI_SECURITY_THREAT_LOW 25 AI_SECURITY_ACTION_WARN
             (Event.confidence e),
           g)
      | Some a =>
          match nth_error (process_profiles m) a with
          | None => (0, e, g)   (* a chain never holds a dangling position *)
          | Some p =>
              let '(e', p') :=
                analyze_locked (ai_security_threat_threshold g) e p in
              (0, e', set_mgr g (set_profiles m
                                   (list_set (process_profiles m) a p')))
          end
      end
  end.

(** *** Decision making *)

(** Returns the decision ([0] allow, [1] deny), the assessed event and the
    globals.  [ai_security_log_threat] only prints and is not modelled. *)
Definition ai_security_make_decision (e : ai_security_event) (g : globals)
    : Z * ai_security_event * globals :=
  let '(_, e', g1) := ai_security_analyze_event e g in
  let decision :=
    if Event.threat_score e' >=? ai_security_threat_threshold g1 then
      if ai_security_auto_response g1 then
        match Event.recommended_action e' with
        | AI_SECURITY_ACTION_TERMINATE
        | AI_SECURITY_ACTION_BLOCK => 1
        | AI_SECURITY_ACTION_QUARANTINE => 1
        | AI_SECURITY_ACTION_WARN => 0
        | _ => 0
        end
      else 0
    else 0 in
  match ai_sec_mgr g1 with
  | None => (decision, e', g1)   (* the source dereferences NULL here *)
  | Some m =>
      let blocked :=
        negb (decision =? 0)
        && match Event.recommended_action e' with
           | AI_SECURITY_ACTION_WARN => false
           | _ => true
           end in
      (decision, e',
       set_mgr g1
         {| process_profiles := process_profiles m;
            profile_hash := profile_hash m;
            recent_events := recent_events m;
            threat_intel_last_update := threat_intel_last_update m;
            total_events_processed := u64 (total_events_processed m + 1);
            threats_detected :=
              if Event.threat_score e' >? 30 then u64 (threats_detected m + 1)
              else threats_detected m;
            false_positives := false_positives m;
            threats_blocked :=
              if blocked then u64 (threats_blocked m + 1)
              else threats_blocked m;
            processes_monitored := processes_monitored m;
            last_learning_update := last_learning_update m |})
  end.

(** [list_add_tail(&event->list, &ai_sec_mgr->recent_events)]. *)
Definition retain_event (e : ai_security_event) (g : globals) : globals :=
  match ai_sec_mgr g with
  | None => g
  | Some m => set_mgr g (set_recent_events m (recent_events m ++ [e]))
  end.

(** *** Learning system *)

Definition ktime_to_ms (ns : Z) : Z := Z.quot ns 1000000.

(** The body of the loop over [process_profiles]. *)
Definition learn_profile (now : Z) (p : ai_security_profile)
    : ai_security_profile :=
  let restore :=
    (Profile.anomaly_count p =? 0) && F32.ltb (Profile.trust_score p) f_0_8 in
  {| Profile.pid := Profile.pid p;
     Profile.comm := Profile.comm p;
     Profile.executable_path := Profile.executable_path p;
     Profile.executable_hash := Profile.executable_hash p;
     Profile.network_connection_count := Profile.network_connection_count p;
     Profile.privilege_escalation_count := Profile.privilege_escalation_count p;
     Profile.last_activity := now;
     Profile.creation_time := Profile.creation_time p;
     Profile.anomaly_count := Profile.anomaly_count p;
     Profile.threat_score := Profile.threat_score p;
     Profile.current_threat := Profile.current_threat p;
     Profile.behavior_score := Profile.behavior_score p;
     Profile.risk_score :=
       if restore
       then F32.max f_0_0 (F32.sub (Profile.risk_score p) f_0_005)
       else Profile.risk_score p;
     Profile.trust_score :=
       if restore then F32.add (Profile.trust_score p) f_0_01
       else Profile.trust_score p;
     Profile.event_count := Profile.event_count p |}.

(** One pass of [ai_security_learning_work] at clock reading [now]. *)
Definition ai_security_learning_work (now : Z) (g : globals) : globals :=
  match ai_sec_mgr g with
  | None => g
  | Some m =>
      if negb (ai_security_learning_enabled g) then g
      else
        set_mgr g
          {| process_profiles := map (learn_profile now) (process_profiles m);
             profile_hash := profile_hash m;
             recent_events :=
               filter (fun e =>
                         negb (ktime_to_ms (now - Event.timestamp e)
                               >? 3600000))
                      (recent_events m);
             threat_intel_last_update :=
               if ktime_to_ms (now - threat_intel_last_update m) >? 86400000
               then now else threat_intel_last_update m;
             total_events_processed := total_events_processed m;
             threats_detected := threats_detected m;
             false_positives := false_positives m;
             threats_blocked := threats_blocked m;
             processes_monitored := processes_monitored m;
             last_learning_update := now |}
  end.

(** *** LSM hooks

    [current] and the hook's pointer arguments are never NULL and are taken
    by value; [now] is the clock reading during the call.  Besides the
    status code and the globals after the call, the model reports the event
    the hook built, as it stood once assessed ([submitted], a ghost result:
    the source only logs or frees it). *)

Record hook_result : Type := {
  status : Z;
  submitted : option ai_security_event;
  after : globals
}.

Definition hook_return (code : Z) (g : globals) : hook_result :=
  {| status := code; submitted := None; after := g |}.

(** "Create description" in the file hook: the description, the payload
    and its size, set only when the file has a name and the description
    buffer was allocated. *)
Definition file_access_details (k : alloc_outcomes) (f : file)
    : option string * option string * Z :=
  match d_name f with
  | Some name =>
      if description_ok k then
        (Some (take_chars 255 ("File access: " ++ name)%string),
         (if data_ok k then Some name else None),
         Z.of_nat (String.length name) + 1)
      else (None, None, 0)
  | None => (None, None, 0)
  end.

Definition ai_security_file_permission (k : alloc_outcomes) (f : file)
    (task : task_struct) (now : Z) (g : globals) : hook_result :=
  match ai_sec_mgr g with
  | None => hook_return 0 g
  | Some _ =>
      if ai_security_is_system_process (task_pid task) then hook_return 0 g
      else
        (* Get or create profile *)
        let g1 :=
          match ai_security_get_profile g (task_pid task) with
          | Some _ => g
          | None => snd (ai_security_create_profile k task now g)
          end in
        match ai_security_get_profile g1 (task_pid task) with
        | None => hook_return 0 g1
        | Some _ =>
            (* Create security event *)
            match ai_security_create_event (event_ok k)
                    AI_SECURITY_EVENT_FILE_ACCESS now g1 with
            | (_, None, g2) => hook_return 0 g2   (* Allow on error *)
            | (_, Some e0, g2) =>
                let d := file_access_details k f in
                let e1 :=
                  Event.fill e0 (task_pid task) (real_parent_pid task)
                    (cred_uid task) (cred_gid task)
                    (take_chars (TASK_COMM_LEN - 1) (task_comm task))
                    (fst (fst d)) (snd (fst d)) (snd d) in
                (* Make security decision *)
                let '(decision, e2, g3) := ai_security_make_decision e1 g2 in
                (* Add to recent events *)
                let g4 :=
                  if Event.threat_score e2 >? 20 then retain_event e2 g3
                  else g3 in
                {| status := if decision =? 0 then 0 else - EACCES;
                   submitted := Some e2;
                   after := g4 |}
            end
        end
  end.

Definition ai_security_task_create (k : alloc_outcomes)
    (task : task_struct) (now : Z) (g : globals) : hook_result :=
  match ai_sec_mgr g with
  | None => hook_return 0 g
  | Some _ =>
      if ai_security_is_system_process (task_pid task) then hook_return 0 g
      else
        match ai_security_get_profile g (task_pid task) with
        | None => hook_return 0 g
        | Some _ =>
            match ai_security_create_event (event_ok k)
                    AI_SECURITY_EVENT_PROCESS_EXEC now g with
            | (_, None, g1) => hook_return 0 g1
            | (_, Some e0, g1) =>
                let e1 :=
                  Event.fill e0 (task_pid task) (Event.ppid e0)
                    (cred_uid task) (Event.gid e0)
                    (take_chars (TASK_COMM_LEN - 1) (task_comm task))
                    (if description_ok k
                     then Some "Process creation/fork"%string else None)
                    (Event.event_data e0) (Event.data_size e0) in
                (* Analyze, then free: the event is never logged *)
                let '(_, e2, g2) := ai_security_analyze_event e1 g1 in
                {| status := 0; submitted := Some e2; after := g2 |}
            end
        end
  end.

Definition ai_security_task_fix_setuid (k : alloc_outcomes)
    (new_uid old_uid : Z) (task : task_struct) (now : Z) (g : globals)
    : hook_result :=
  match ai_sec_mgr g with
  | None => hook_return 0 g
  | Some _ =>
      if ai_security_is_system_process (task_pid task) then hook_return 0 g
      else if new_uid =? old_uid then hook_return 0 g   (* No actual change *)
      else
        match ai_security_get_profile g (task_pid task) with
        | None => hook_return 0 g
        | Some _ =>
            match ai_security_create_event (event_ok k)
                    AI_SECURITY_EVENT_PRIVILEGE_ESCALATION now g with
            | (_, None, g1) => hook_return 0 g1
            | (_, Some e0, g1) =>
                let descr :=
                  if description_ok k then
                    Some (take_chars 127
                            ("Privilege escalation: uid " ++ fmt_d old_uid
                             ++ " -> " ++ fmt_d new_uid)%string)
                  else None in
                let e1 :=
                  Event.fill e0 (task_pid task) (Event.ppid e0)
                    new_uid (Event.gid e0)
                    (take_chars (TASK_COMM_LEN - 1) (task_comm task))
                    descr (Event.event_data e0) (Event.data_size e0) in
                (* Make security decision *)
                let '(ret, e2, g2) := ai_security_make_decision e1 g1 in
                (* Add to recent events *)
                let g3 :=
                  if Event.threat_score e2 >? 30 then retain_event e2 g2
                  else g2 in
                {| status := if ret =? 0 then 0 else - EPERM;
                   submitted := Some e2;
                   after := g3 |}
            end
        end
  end.

(** *** Module initialisation: the manager [ai_security_init] sets up. *)

Definition initial_manager : ai_security_manager :=
  {| process_profiles := [];
     profile_hash := fun _ => [];
     recent_events := [];
     threat_intel_last_update := 0;
     total_events_processed := 0;
     threats_detected := 0;
     false_positives := 0;
     threats_blocked := 0;
     processes_monitored := 0;
     last_learning_update := 0 |}.

Definition initial_globals : globals :=
  {| ai_sec_mgr := Some initial_manager;
     ai_security_threat_threshold := AI_SECURITY_THREAT_SCORE_THRESHOLD;
     ai_security_auto_response := true;
     ai_security_learning_enabled := true;
     event_id_counter := 1 |}.

(** *** Observations used by the properties *)

(** The profile that the store holds for a pid: the snapshot an analysis
    of an event of that pid reads. *)
Definition profile_at (g : globals) (pid : Z) (p : ai_security_profile)
    : Prop :=
  exists m a,
    ai_sec_mgr g = Some m
    /\ ai_security_profile_lookup m pid = Some a
    /\ nth_error (process_profiles m) a = Some p.

(** The same, as a function. *)
Definition profile_of (g : globals) (pid : Z) : option ai_security_profile :=
  match ai_sec_mgr g with
  | None => None
  | Some m =>
      match ai_security_profile_lookup m pid with
      | None => None
      | Some a => nth_error (process_profiles m) a
      end
  end.

(** The event as [ai_security_analyze_event] leaves it. *)
Definition assessed (e : ai_security_event) (g : globals)
    : ai_security_event :=
  snd (fst (ai_security_analyze_event e g)).

(** The guard of the restoring branch. *)
Definition restorable (p : ai_security_profile) : Prop :=
  Profile.anomaly_count p = 0
  /\ F32.ltb (Profile.trust_score p) f_0_8 = true.

(** The store's structure: every position on a chain is a live profile
    whose pid hashes to that bucket, every profile is on the chain of its
    pid's bucket, and no two profiles share a pid. *)
Definition store_consistent (m : ai_security_manager) : Prop :=
  let pids := map Profile.pid (process_profiles m) in
  (forall b a, In a (profile_hash m b) ->
               exists pid, nth_error pids a = Some pid /\ hash_32 pid = b)
  /\ (forall a pid, nth_error pids a = Some pid ->
                    In a (profile_hash m (hash_32 pid)))
  /\ NoDup pids.

Definition store_ok (g : globals) : Prop :=
  match ai_sec_mgr g with
  | Some m => store_consistent m
  | None => True
  end.

(** The states the module can be in: the state [ai_security_init] leaves,
    under any setting of the module parameters, followed by any sequence
    of profile creations, hook calls, learning passes and parameter
    writes. *)
Inductive reachable : globals -> Prop :=
| reach_init : forall threshold auto_response learning,
    reachable {| ai_sec_mgr := Some initial_manager;
                 ai_security_threat_threshold := threshold;
                 ai_security_auto_response := auto_response;
                 ai_security_learning_enabled := learning;
                 event_id_counter := 1 |}
| reach_create_profile : forall k task now g,
    reachable g ->
    reachable (snd (ai_security_create_profile k task now g))
| reach_file_permission : forall k f task now g,
    reachable g ->
    reachable (after (ai_security_file_permission k f task now g))
| reach_task_create : forall k task now g,
    reachable g ->
    reachable (after (ai_security_task_create k task now g))
| reach_task_fix_setuid : forall k new_uid old_uid task now g,
    reachable g ->
    reachable (after (ai_security_task_fix_setuid k new_uid old_uid
                        task now g))
| reach_learning_work : forall now g,
    reachable g ->
    reachable (ai_security_learning_work now g)
| reach_set_parameters : forall threshold auto_response learning g,
    reachable g ->
    reachable {| ai_sec_mgr := ai_sec_mgr g;
                 ai_security_threat_threshold := threshold;
                 ai_security_auto_response := auto_response;
                 ai_security_learning_enabled := learning;
                 event_id_counter := event_id_counter g |}.

End AI_Security.

(** ** The design document's formulas, in its own words *)

(** Section 4.2, steps 1-3: a per-event-type base, two profile-based
    adjustments, and a clamp to [0,100].  In the base, "the payload
    matches a sensitive-pattern heuristic" is read as: the payload
    contains the pattern; "the executable path lies under a
    transient/writable directory" as: the path begins with the name of
    one of the two temporary directories. *)
Definition spec_base_score (e : ai_security_event) (p : ai_security_profile)
    : Z :=
  match Event.type e with
  | AI_SECURITY_EVENT_FILE_ACCESS =>
      match Event.event_data e with
      | Some payload => if strstr payload "sensitive" then 30 else 0
      | None => 0
      end
  | AI_SECURITY_EVENT_NETWORK_CONNECT =>
      if 100 <? Profile.network_connection_count p then 25 else 0
  | AI_SECURITY_EVENT_PRIVILEGE_ESCALATION => 60
  | AI_SECURITY_EVENT_PROCESS_EXEC =>
      match Event.event_data e with
      | Some path =>
          if String.prefix "/tmp/" path || String.prefix "/var/tmp/" path
          then 40 else 0
      | None => 0
      end
  | _ => 0
  end.

Definition spec_adjustments (p : ai_security_profile) : Z :=
  (if F32.ltb (Profile.trust_score p) f_0_3 then 20 else 0)
  + (if 5 <? Profile.anomaly_count p then 15 else 0).

Definition clamp_0_100 (z : Z) : Z := Z.max 0 (Z.min 100 z).

Definition spec_threat_score (e : ai_security_event) (p : ai_security_profile)
    : Z :=
  clamp_0_100 (spec_base_score e p + spec_adjustments p).

(** ** The base score in terms of the strings the analysis reads *)

(** [pattern] occurs somewhere in [s]. *)
Definition occurs_in (pattern s : string) : Prop :=
  exists pre post, s = (pre ++ pattern ++ post)%string.

(** The event has a payload, and its description -- not the payload --
    contains "sensitive". *)
Definition suspicious_access (e : ai_security_event) : Prop :=
  Event.event_data e <> None
  /\ exists d, Event.description e = Some d /\ occurs_in "sensitive" d.

(** The payload, read as a path, contains "/tmp/" or "/var/tmp/"
    anywhere. *)
Definition temporary_path (e : ai_security_event) : Prop :=
  exists path,
    Event.event_data e = Some path
    /\ (occurs_in "/tmp/" path \/ occurs_in "/var/tmp/" path).

(** The per-event-type base, as a relation between event, profile
    snapshot and base. *)
Definition amended_base (e : ai_security_event) (p : ai_security_profile)
    (b : Z) : Prop :=
  match Event.type e with
  | AI_SECURITY_EVENT_FILE_ACCESS =>
      (suspicious_access e -> b = 30) /\ (~ suspicious_access e -> b = 0)
  | AI_SECURITY_EVENT_NETWORK_CONNECT =>
      (100 < Profile.network_connection_count p -> b = 25)
      /\ (Profile.network_connection_count p <= 100 -> b = 0)
  | AI_SECURITY_EVENT_PRIVILEGE_ESCALATION => b = 60
  | AI_SECURITY_EVENT_PROCESS_EXEC =>
      (temporary_path e -> b = 40) /\ (~ temporary_path e -> b = 0)
  | _ => b = 0
  end.

(** The same base as a function, the substring tests being made with
    [strstr]. *)
Definition base_score (e : ai_security_event) (p : ai_security_profile)
    : Z :=
  match Event.type e with
  | AI_SECURITY_EVENT_FILE_ACCESS =>
      match Event.event_data e, Event.description e with
      | Some _, Some d => if strstr d "sensitive" then 30 else 0
      | _, _ => 0
      end
  | AI_SECURITY_EVENT_NETWORK_CONNECT =>
      if 100 <? Profile.network_connection_count p then 25 else 0
  | AI_SECURITY_EVENT_PRIVILEGE_ESCALATION => 60
  | AI_SECURITY_EVENT_PROCESS_EXEC =>
      match Event.event_data e with
      | Some path =>
          if strstr path "/tmp/" || strstr path "/var/tmp/" then 40 else 0
      | None => 0
      end
  | _ => 0
  end.

Definition formula_score (e : ai_security_event) (p : ai_security_profile)
    : Z :=
  clamp_0_100 (base_score e p + spec_adjustments p).

(** Section 4.2, step 4: [round(behavior_score * 100)], clamped.  The
    product is taken exactly on the binary value of the score, and halves
    round up. *)
Definition round_scaled (k : Z) (x : F32.float) : Z :=
  match x with
  | S754_finite s m e =>
      let n := if s then - (k * Zpos m) else k * Zpos m in
      if 0 <=? e then n * 2 ^ e
      else (2 * n + 2 ^ (- e)) / 2 ^ (- e + 1)
  | _ => 0
  end.

Definition spec_confidence (p : ai_security_profile) : Z :=
  clamp_0_100 (round_scaled 100 (Profile.behavior_score p)).

(** Section 4.3, action selection, as a relation between threshold, score
    and action. *)
Definition spec_action (threshold score : Z) (a : ai_security_action) : Prop :=
  (score >= threshold /\ score >= 90 -> a = AI_SECURITY_ACTION_TERMINATE)
  /\ (score >= threshold /\ 80 <= score < 90 -> a = AI_SECURITY_ACTION_BLOCK)
  /\ (threshold <= score < 80 -> a = AI_SECURITY_ACTION_QUARANTINE)
  /\ (50 <= score < threshold -> a = AI_SECURITY_ACTION_WARN)
  /\ (score < threshold /\ score < 50 -> a = AI_SECURITY_ACTION_ALLOW).

(** Section 4.3, classification, as a relation between score and level. *)
Definition spec_level (score : Z) (l : ai_security_threat_level) : Prop :=
  (90 <= score -> l = AI_SECURITY_THREAT_CRITICAL)
  /\ (70 <= score < 90 -> l = AI_SECURITY_THREAT_HIGH)
  /\ (50 <= score < 70 -> l = AI_SECURITY_THREAT_MEDIUM)
  /\ (25 <= score < 50 -> l = AI_SECURITY_THREAT_LOW)
  /\ (score < 25 -> l = AI_SECURITY_THREAT_NONE).

(** ** Preconditions under which C defines the behaviour *)

(** An event as [ai_security_create_event] leaves it: not yet scored. *)
Definition fresh_event (e : ai_security_event) : Prop :=
  Event.threat_score e = 0.

(** [strstr] is never handed a NULL description. *)
Definition event_defined (e : ai_security_event) : Prop :=
  Event.event_data e <> None -> Event.description e <> None.

(** ** Observations on the global state *)

(** The global event log, [ai_sec_mgr->recent_events]. *)
Definition event_log (g : globals) : list ai_security_event :=
  match ai_sec_mgr g with
  | Some m => recent_events m
  | None => []
  end.

(** The statistics block, [[]] before initialisation. *)
Definition counters (g : globals) : list Z :=
  match ai_sec_mgr g with
  | Some m => statistics m
  | None => []
  end.

(** Some statistics counter went up by one between two states. *)
Definition counter_incremented (g g' : globals) : Prop :=
  exists i, nth i (counters g') 0 = nth i (counters g) 0 + 1.

(** The log is the same in both states, and the manager is still there. *)
Definition log_kept (g g' : globals) : Prop :=
  (ai_sec_mgr g <> None -> ai_sec_mgr g' <> None)
  /\ event_log g' = event_log g.

(** The counters that event processing maintains are the same. *)
Definition event_counters_kept (g g' : globals) : Prop :=
  match ai_sec_mgr g, ai_sec_mgr g' with
  | Some m, Some m' =>
      total_events_processed m' = total_events_processed m
      /\ threats_detected m' = threats_detected m
      /\ false_positives m' = false_positives m
      /\ threats_blocked m' = threats_blocked m
  | None, None => True
  | _, _ => False
  end.

(** Consecutive learning passes at the clock readings [nows], on one
    profile and on the whole state. *)
Definition learn_passes (nows : list Z) (p : ai_security_profile)
    : ai_security_profile :=
  fold_left (fun q now => learn_profile now q) nows p.

Definition learning_passes (nows : list Z) (g : globals) : globals :=
  fold_left (fun s now => ai_security_learning_work now s) nows g.

(** ** A concrete instance, to run the model on examples *)

(** Stand-ins for the two kernel hash primitives. *)
Definition bucket_of (pid : Z) : Z := pid mod AI_SECURITY_HASH_SIZE.
Definition name_hash (s : string) : Z := Z.of_nat (String.length s).

(** An ordinary user task with the given pid. *)
Definition task_of (pid : Z) : task_struct :=
  {| task_pid := pid;
     task_comm := "app";
     real_parent_pid := 1;
     cred_uid := 1000;
     cred_gid := 1000;
     exe_path := Some "/usr/bin/app"%string |}.

(** The state after [ai_security_init], and that state once the subject
    with pid 100 has been given its profile. *)
Definition g_init : globals := initial_globals.
Definition g_one : globals :=
  snd (ai_security_create_profile bucket_of name_hash all_ok
         (task_of 100) 0 g_init).

(** A profile like a new one, with chosen trust, behaviour and anomaly
    history, and the initialised state holding just that profile. *)
Definition profile_with (pid : Z) (trust behavior : F32.float) (anomalies : Z)
    : ai_security_profile :=
  {| Profile.pid := pid;
     Profile.comm := "app";
     Profile.executable_path := None;
     Profile.executable_hash := 0;
     Profile.network_connection_count := 0;
     Profile.privilege_escalation_count := 0;
     Profile.last_activity := 0;
     Profile.creation_time := 0;
     Profile.anomaly_count := anomalies;
     Profile.threat_score := 0;
     Profile.current_threat := AI_SECURITY_THREAT_NONE;
     Profile.behavior_score := behavior;
     Profile.risk_score := f_0_2;
     Profile.trust_score := trust;
     Profile.event_count := 0 |}.

Definition g_with (p : ai_security_profile) : globals :=
  set_mgr g_init (link_profile bucket_of initial_manager p).

(** An event as a hook hands it to the analysis: created, then filled
    with the subject's pid. *)
Definition event_of (type : ai_security_event_type) (pid : Z)
    : ai_security_event :=
  Event.fill (new_event 2 type 0) pid 1 1000 1000 "app" None None 0.

(** The states and events of the worked examples: a subject with trust
    0.2, a subject whose behaviour score is 0.875, a privilege escalation
    and a file access of pid 100. *)
Definition p_low_trust : ai_security_profile := profile_with 100 f_0_2 f_0_8 0.
Definition g_low_trust : globals := g_with p_low_trust.
Definition p_seven_eighths : ai_security_profile :=
  profile_with 100 f_0_7 (F32.lit 7 8) 0.
Definition g_seven_eighths : globals := g_with p_seven_eighths.
Definition e_privilege : ai_security_event :=
  event_of AI_SECURITY_EVENT_PRIVILEGE_ESCALATION 100.
Definition e_file : ai_security_event :=
  event_of AI_SECURITY_EVENT_FILE_ACCESS 100.

(** Allocation outcomes in which only the event allocation fails. *)
Definition event_alloc_fails : alloc_outcomes :=
  {| profile_ok := true; exe_path_ok := true; event_ok := false;
     description_ok := true; data_ok := true |}.

(** A file whose name matches the sensitive pattern. *)
Definition sensitive_file : file := {| d_name := Some "sensitive.db"%string |}.

(** An access of pid 100 to that file, every allocation succeeding. *)
Definition sensitive_access (g : globals) : hook_result :=
  ai_security_file_permission bucket_of name_hash all_ok sensitive_file
    (task_of 100) 0 g.

(** The initialised state filled with [AI_SECURITY_MAX_PROFILES] profiles,
    for the pids 2 .. 257. *)
Definition g_full : globals :=
  fold_left
    (fun g pid =>
       snd (ai_security_create_profile bucket_of name_hash all_ok
              (task_of pid) 0 g))
    (map Z.of_nat (seq 2 (Z.to_nat AI_SECURITY_MAX_PROFILES)))
    g_init.

Definition live_profiles (g : globals) : Z :=
  match ai_sec_mgr g with
  | Some m => Z.of_nat (List.length (process_profiles m))
  | None => 0
  end.

(** ** Further observations on decisions *)

(** Whether the policy denies an event of the given score: automatic
    response is on and the score reaches the threshold. *)
Definition denies (g : globals) (score : Z) : bool :=
  ai_security_auto_response g
  && (score >=? ai_security_threat_threshold g).

(** The manager once a decision on an event of the given score has been
    counted, the profiles being [ps]. *)
Definition counted (m : ai_security_manager) (ps : list ai_security_profile)
    (score : Z) (denied : bool) : ai_security_manager :=
  {| process_profiles := ps;
     profile_hash := profile_hash m;
     recent_events := recent_events m;
     threat_intel_last_update := threat_intel_last_update m;
     total_events_processed := u64 (total_events_processed m + 1);
     threats_detected :=
       if score >? 30 then u64 (threats_detected m + 1)
       else threats_detected m;
     false_positives := false_positives m;
     threats_blocked :=
       if denied then u64 (threats_blocked m + 1) else threats_blocked m;
     processes_monitored := processes_monitored m;
     last_learning_update := last_learning_update m |}.

(** The module parameters of a state. *)
Definition parameters (g : globals) : Z * bool * bool :=
  (ai_security_threat_threshold g, ai_security_auto_response g,
   ai_security_learning_enabled g).

(** ** The elementary steps of the hooks *)

(** An event as [ai_security_create_event] and the hooks' "fill" leave
    it: nothing assessed yet. *)
Definition pristine (e : ai_security_event) : Prop :=
  Event.threat_score e = 0
  /\ Event.threat_level e = AI_SECURITY_THREAT_NONE
  /\ Event.confidence e = 50.

Section Steps.

Variable hash_32 : Z -> Z.
Variable full_name_hash : string -> Z.

(** The state changes a hook, the learning work or a parameter write is
    made of.  An event is analysed or decided on only as built by a hook,
    and is logged only as assessed and with a score above 20. *)
Inductive elementary_step : globals -> globals -> Prop :=
| step_create_profile : forall k task now g,
    elementary_step g
      (snd (ai_security_create_profile hash_32 full_name_hash k task now g))
| step_create_event : forall ok type now g,
    elementary_step g (snd (ai_security_create_event ok type now g))
| step_analyze : forall e g,
    pristine e ->
    elementary_step g (snd (ai_security_analyze_event hash_32 e g))
| step_decide : forall e g,
    pristine e ->
    elementary_step g (snd (ai_security_make_decision hash_32 e g))
| step_retain : forall e g0 g,
    pristine e ->
    20 < Event.threat_score (assessed hash_32 e g0) ->
    elementary_step g (retain_event (assessed hash_32 e g0) g)
| step_learning : forall now g,
    elementary_step g (ai_security_learning_work now g)
| step_parameters : forall threshold auto_response learning g,
    elementary_step g
      {| ai_sec_mgr := ai_sec_mgr g;
         ai_security_threat_threshold := threshold;
         ai_security_auto_response := auto_response;
         ai_security_learning_enabled := learning;
         event_id_counter := event_id_counter g |}.

(** A property of states that [ai_security_init] establishes and every
    elementary step keeps. *)
Definition invariant (I : globals -> Prop) : Prop :=
  (forall threshold auto_response learning,
      I {| ai_sec_mgr := Some initial_manager;
           ai_security_threat_threshold := threshold;
           ai_security_auto_response := auto_response;
           ai_security_learning_enabled := learning;
           event_id_counter := 1 |})
  /\ (forall g g', elementary_step g g' -> I g -> I g').

End Steps.

(** ** Well-formed records *)

(** A profile's threat score is within the "0-100" the header gives for
    an event's score, and its threat level is the level of that score. *)
Definition profile_threat_ok (p : ai_security_profile) : Prop :=
  0 <= Profile.threat_score p <= 100
  /\ Profile.current_threat p
     = ai_security_classify_threat (Profile.threat_score p).

(** What holds of an event on the global log. *)
Definition logged_event_ok (e : ai_security_event) : Prop :=
  20 < Event.threat_score e <= 100
  /\ Event.threat_level e
     = ai_security_classify_threat (Event.threat_score e)
  /\ 0 <= Event.confidence e <= 100.

Definition records_ok (g : globals) : Prop :=
  match ai_sec_mgr g with
  | None => True
  | Some m =>
      Forall profile_threat_ok (process_profiles m)
      /\ Forall logged_event_ok (recent_events m)
      /\ processes_monitored m
         = u64 (Z.of_nat (List.length (process_profiles m)))
  end.

(** The profiles on the global list, and the monitored-process counter. *)
Definition profile_list (g : globals) : list ai_security_profile :=
  match ai_sec_mgr g with
  | Some m => process_profiles m
  | None => []
  end.

Definition monitored (g : globals) : Z :=
  match ai_sec_mgr g with
  | Some m => processes_monitored m
  | None => 0
  end.

(** The state after initialisation and one access of pid 100 to the
    sensitive file: one profile, one logged event. *)
Definition g_logged : globals := after (sensitive_access g_init).

(** What a hook has put into an event of the given task: its pid, its
    command name cut to fit the buffer, and a description whenever there
    is a payload. *)
Definition hook_event (task : task_struct) (e : ai_security_event) : Prop :=
  Event.pid e = task_pid task
  /\ Event.comm e = take_chars (TASK_COMM_LEN - 1) (task_comm task)
  /\ event_defined e.

(** The state of the worked examples with a second subject, pid 200. *)
Definition g_two : globals :=
  snd (ai_security_create_profile bucket_of name_hash all_ok
         (task_of 200) 0 g_low_trust).

(** ** Logging of decisions *)

(** What [printf]'s [%u] prints for a 32-bit argument. *)
Definition fmt_u (z : Z) : string :=
  NilZero.string_of_int (Z.to_int (z mod 2 ^ 32)).

Definition threat_desc (l : ai_security_threat_level) : string :=
  match l with
  | AI_SECURITY_THREAT_CRITICAL => "Critical threat detected"
  | AI_SECURITY_THREAT_HIGH => "High threat detected"
  | AI_SECURITY_THREAT_MEDIUM => "Medium threat detected"
  | AI_SECURITY_THREAT_LOW => "Low threat detected"
  | _ => "No significant threat"
  end.

Definition action_desc (a : ai_security_action) : string :=
  match a with
  | AI_SECURITY_ACTION_TERMINATE => "Process terminated"
  | AI_SECURITY_ACTION_BLOCK => "Operation blocked"
  | AI_SECURITY_ACTION_QUARANTINE => "Process quarantined"
  | AI_SECURITY_ACTION_WARN => "Warning issued"
  | _ => "Operation allowed"
  end.

(** [ai_security_explain_decision]: the argument is [None] for a NULL
    event, the result is [None] when the buffer could not be allocated;
    [snprintf] keeps at most 255 characters. *)
Definition ai_security_explain_decision (alloc_ok : bool)
    (event : option ai_security_event) : option string :=
  match event with
  | None => if alloc_ok then Some "Invalid event"%string else None
  | Some e =>
      if alloc_ok then
        Some (take_chars 255
                (threat_desc (Event.threat_level e)
                 ++ " (score: " ++ fmt_u (Event.threat_score e)
                 ++ ", confidence: " ++ fmt_u (Event.confidence e)
                 ++ "%). "
                 ++ match Event.description e with
                    | Some d => d
                    | None => "No description available"
                    end
                 ++ ". " ++ action_desc (Event.recommended_action e)
                 ++ ".")%string)
      else None
  end.

(** The records [ai_security_log_threat] can emit: a kernel warning (its
    text, without the final newline) and an audit record with its four
    fields. *)
Inductive log_record : Type :=
| pr_warn (text : string)
| audit_log (pid uid score : Z) (action : ai_security_action).

(** The records emitted for an event, oldest first. *)
Definition ai_security_log_threat (alloc_ok : bool) (g : globals)
    (event : option ai_security_event) : list log_record :=
  match event, ai_sec_mgr g with
  | Some e, Some _ =>
      if level_value (Event.threat_level e)
         >=? level_value AI_SECURITY_THREAT_MEDIUM then
        match ai_security_explain_decision alloc_ok (Some e) with
        | Some explanation =>
            [pr_warn ("AI Security Alert: " ++ explanation)%string]
        | None => []
        end
        ++ (if level_value (Event.threat_level e)
               >=? level_value AI_SECURITY_THREAT_HIGH then
              [audit_log (Event.pid e) (Event.uid e)
                 (Event.threat_score e) (Event.recommended_action e)]
            else [])
      else []
  | _, _ => []
  end.

(** ** Module life cycle *)

(** The global [ai_sec_mgr]: NULL, pointing to the manager, or still
    holding the address of a manager that has been freed. *)
Inductive manager_pointer : Type :=
| mgr_null
| mgr_live (m : ai_security_manager)
| mgr_freed.

(** What initialisation and exit act on besides the manager's lists: the
    three procfs handles kept in the manager, the entries that exist
    under /proc, whether the learning timer is pending, and whether the
    LSM hooks are registered. *)
Record module_state : Type := {
  mgr_ptr : manager_pointer;
  proc_dir : bool;
  proc_stats : bool;
  proc_profiles : bool;
  proc_entries : list string;
  learning_timer : bool;
  lsm_hooks : bool
}.

(** The outcome of each allocation [ai_security_init] makes. *)
Record init_outcomes : Type := {
  manager_ok : bool;
  proc_dir_ok : bool;
  proc_stats_ok : bool;
  proc_profiles_ok : bool
}.

Definition dir_entry : string := "ai_security".
Definition stats_entry : string := "ai_security/stats".
Definition profiles_entry : string := "ai_security/profiles".

Definition remove_proc_entry (name : string) (entries : list string)
    : list string :=
  filter (fun n => negb (String.eqb n name)) entries.

Definition with_proc (s : module_state) (dir stats profiles : bool)
    (entries : list string) : module_state :=
  {| mgr_ptr := mgr_ptr s;
     proc_dir := dir;
     proc_stats := stats;
     proc_profiles := profiles;
     proc_entries := entries;
     learning_timer := learning_timer s;
     lsm_hooks := lsm_hooks s |}.

(** [None] stands for a use of the freed manager, which C leaves
    undefined. *)
Definition ai_security_proc_init (o : init_outcomes) (s : module_state)
    : option (Z * module_state) :=
  match mgr_ptr s with
  | mgr_null => Some (- EINVAL, s)
  | mgr_freed => None
  | mgr_live _ =>
      if negb (proc_dir_ok o) then
        Some (- ENOMEM,
              with_proc s false (proc_stats s) (proc_profiles s)
                (proc_entries s))
      else
        let e1 := proc_entries s ++ [dir_entry] in
        if negb (proc_stats_ok o) then
          (* cleanup_stats *)
          Some (- ENOMEM,
                with_proc s true false (proc_profiles s)
                  (remove_proc_entry dir_entry e1))
        else
          let e2 := e1 ++ [stats_entry] in
          if negb (proc_profiles_ok o) then
            (* cleanup_profiles, then cleanup_stats *)
            Some (- ENOMEM,
                  with_proc s true true false
                    (remove_proc_entry dir_entry
                       (remove_proc_entry stats_entry e2)))
          else
            Some (0, with_proc s true true true (e2 ++ [profiles_entry]))
  end.

Definition ai_security_proc_cleanup (s : module_state)
    : option module_state :=
  match mgr_ptr s with
  | mgr_null => Some s
  | mgr_freed => None
  | mgr_live _ =>
      let e1 := if proc_profiles s
                then remove_proc_entry profiles_entry (proc_entries s)
                else proc_entries s in
      let e2 := if proc_stats s then remove_proc_entry stats_entry e1
                else e1 in
      let e3 := if proc_dir s then remove_proc_entry dir_entry e2 else e2 in
      Some (with_proc s (proc_dir s) (proc_stats s) (proc_profiles s) e3)
  end.

(** [ai_security_init], given the outcomes of its allocations and the
    value of [ai_security_learning_enabled]. *)
Definition ai_security_init (o : init_outcomes) (learning : bool)
    (s : module_state) : option (Z * module_state) :=
  if negb (manager_ok o) then
    Some (- ENOMEM,
          {| mgr_ptr := mgr_null;
             proc_dir := proc_dir s;
             proc_stats := proc_stats s;
             proc_profiles := proc_profiles s;
             proc_entries := proc_entries s;
             learning_timer := learning_timer s;
             lsm_hooks := lsm_hooks s |})
  else
    let s1 :=
      {| mgr_ptr := mgr_live initial_manager;
         proc_dir := false;
         proc_stats := false;
         proc_profiles := false;
         proc_entries := proc_entries s;
         learning_timer := if learning then true else learning_timer s;
         lsm_hooks := lsm_hooks s |} in
    match ai_security_proc_init o s1 with
    | None => None
    | Some (ret, s2) =>
        if ret =? 0 then
          Some (0,
                {| mgr_ptr := mgr_ptr s2;
                   proc_dir := proc_dir s2;
                   proc_stats := proc_stats s2;
                   proc_profiles := proc_profiles s2;
                   proc_entries := proc_entries s2;
                   learning_timer := learning_timer s2;
                   lsm_hooks := true |})
        else
          (* kfree(ai_sec_mgr); return ret; *)
          Some (ret,
                {| mgr_ptr := mgr_freed;
                   proc_dir := proc_dir s2;
                   proc_stats := proc_stats s2;
                   proc_profiles := proc_profiles s2;
                   proc_entries := proc_entries s2;
                   learning_timer := learning_timer s2;
                   lsm_hooks := lsm_hooks s2 |})
    end.

Definition ai_security_exit (s : module_state) : option module_state :=
  match mgr_ptr s with
  | mgr_null => Some s
  | mgr_freed => None
  | mgr_live _ =>
      match ai_security_proc_cleanup s with
      | None => None
      | Some s1 =>
          Some {| mgr_ptr := mgr_null;
                  proc_dir := proc_dir s1;
                  proc_stats := proc_stats s1;
                  proc_profiles := proc_profiles s1;
                  proc_entries := proc_entries s1;
                  learning_timer := false;
                  lsm_hooks := lsm_hooks s1 |}
      end
  end.

(** The state of a kernel into which the module has not been loaded. *)
Definition unloaded (entries : list string) : module_state :=
  {| mgr_ptr := mgr_null;
     proc_dir := false;
     proc_stats := false;
     proc_profiles := false;
     proc_entries := entries;
     learning_timer := false;
     lsm_hooks := false |}.

Definition all_allocated : init_outcomes :=
  {| manager_ok := true; proc_dir_ok := true; proc_stats_ok := true;
     proc_profiles_ok := true |}.

(** None of the module's procfs names is taken. *)
Definition names_free (entries : list string) : Prop :=
  ~ In dir_entry entries
  /\ ~ In stats_entry entries
  /\ ~ In profiles_entry entries.

(** The manager allocated and nothing else done yet, and the module fully
    loaded with learning enabled, in a kernel with an empty /proc. *)
Definition manager_allocated : module_state :=
  {| mgr_ptr := mgr_live initial_manager;
     proc_dir := false;
     proc_stats := false;
     proc_profiles := false;
     proc_entries := [];
     learning_timer := true;
     lsm_hooks := false |}.

Definition loaded : module_state :=
  {| mgr_ptr := mgr_live initial_manager;
     proc_dir := true;
     proc_stats := true;
     proc_profiles := true;
     proc_entries := [dir_entry; stats_entry; profiles_entry];
     learning_timer := true;
     lsm_hooks := true |}.

(** ** The event hash table *)

Section Event_Hash.

(** [hash_64(v, AI_SECURITY_HASH_SIZE)], a kernel primitive. *)
Variable hash_64 : Z -> Z.

(** The table maps a bucket to its chain, most recently added first. *)
Definition ai_security_event_lookup (tbl : Z -> list ai_security_event)
    (event_id : Z) : option ai_security_event :=
  find (fun e => Event.event_id e =? event_id) (tbl (hash_64 event_id)).

Definition ai_security_event_add_to_hash (tbl : Z -> list ai_security_event)
    (event : ai_security_event) : Z -> list ai_security_event :=
  fun b => if b =? hash_64 (Event.event_id event) then event :: tbl b
           else tbl b.

End Event_Hash.

(** Whether the file hook's event meets the analysis' test for a
    suspicious file access: the file has a name, description and payload
    were allocated, and the pattern occurs in the part of the name that
    fits into the description buffer after "File access: ". *)
Definition flagged (k : alloc_outcomes) (f : file) : bool :=
  match d_name f with
  | Some name =>
      description_ok k && data_ok k
      && strstr (take_chars 242 name) "sensitive"
  | None => false
  end.

(** A name of 242 characters followed by the pattern. *)
Definition padded_name : string :=
  (concat "" (repeat "0123456789" 24) ++ "xx" ++ "sensitive")%string.

(** ** Profile creation in its two critical sections *)

Section Creation_Steps.

Variable hash_32 : Z -> Z.
Variable full_name_hash : string -> Z.

(** [ai_security_create_profile] up to "Check if profile already exists":
    the checks and the lookup, made under [rcu_read_lock] alone.  [Some r]
    is the status returned there, [None] means the call goes on. *)
Definition create_profile_lookup (task : task_struct) (g : globals)
    : option Z :=
  match ai_sec_mgr g with
  | None => Some (- EINVAL)
  | Some _ =>
      match ai_security_get_profile hash_32 g (task_pid task) with
      | Some _ => Some 0
      | None => None
      end
  end.

(** The rest of the function: allocation (which may sleep),
    initialisation, insertion into the list under [profiles_lock] and
    into the hash table, on the state as it is by then.  The profile is
    not looked up again, and the manager is dereferenced without a
    further check: [None] is the fault when it is gone by then. *)
Definition create_profile_insert (k : alloc_outcomes) (task : task_struct)
    (now : Z) (g : globals) : option (Z * globals) :=
  if negb (profile_ok k) then Some (- ENOMEM, g)
  else
    match ai_sec_mgr g with
    | None => None
    | Some m =>
        Some (0, set_mgr g
                   (link_profile hash_32 m
                      (new_profile full_name_hash (exe_path_ok k) task now)))
    end.

(** One call, its two parts run on the states [g] and [g']: the part
    after the lookup runs only when the lookup did not return. *)
Definition create_profile_finish (k : alloc_outcomes) (task : task_struct)
    (now : Z) (looked_up : option Z) (g' : globals) : option (Z * globals) :=
  match looked_up with
  | Some r => Some (r, g')
  | None => create_profile_insert k task now g'
  end.


End Creation_Steps.

(** The profile of pid 100 as first created, a path below a system
    directory that has a component "tmp", and a process-execution event
    of pid 100 with that path as payload. *)
Definition p_new : ai_security_profile :=
  new_profile name_hash true (task_of 100) 0.

Definition system_tmp_path : string := "/usr/lib/tmp/helper".

Definition e_exec_system : ai_security_event :=
  Event.fill (new_event 2 AI_SECURITY_EVENT_PROCESS_EXEC 0)
    100 1 1000 1000 "app" (Some "Process creation/fork"%string)
    (Some system_tmp_path) 20.

(** The event the file hook builds and has assessed when pid 100 first
    accesses the file with the long name. *)
Definition long_name_access : option ai_security_event :=
  submitted
    (ai_security_file_permission bucket_of name_hash all_ok
       {| d_name := Some padded_name |} (task_of 100) 0 g_init).

(** ** Binary32 rounding: auxiliary definitions *)

(** 0.81f, one increment above 0.8. *)
Definition f_0_81 : F32.float := F32.lit 81 100.

(** The exponent of the format for a number of [d] significant digits. *)
Definition fexp32 (d : Z) : Z := Z.max (d - 24) (-149).

(** What a shift register holds after [N] has been shifted right by [k]
    places: the quotient, and a round bit that is set only above the
    halfway point. *)
Definition shr_inv (N k : Z) (r : shr_record) : Prop :=
  0 <= shr_m r
  /\ shr_m r * 2 ^ k <= N < (shr_m r + 1) * 2 ^ k
  /\ (shr_r r = true -> (2 * shr_m r + 1) * 2 ^ k <= 2 * N)
  /\ (shr_r r = false -> shr_s r = false -> N = shr_m r * 2 ^ k).

(** The value of a mantissa/exponent pair, in units of [2^-149]. *)
Definition ulps (m e : Z) : Z := m * 2 ^ (e + 149).

(** ** Ranges of the floating-point scores *)

(** A zero or a positive binary32 number (no NaN, no infinity). *)
Definition nonneg (x : F32.float) : bool :=
  match x with
  | S754_zero _ => true
  | S754_finite false m e => valid_binary 24 128 x
  | _ => false
  end.

(** [0 <= x <= b] for an actual number [x]. *)
Definition within (b x : F32.float) : Prop :=
  F32.valid x = true /\ F32.leb f_0_0 x = true /\ F32.leb x b = true.

(** The header gives each of the three scores the range 0.0-1.0; the code
    keeps trust below 0.81 and behaviour below 0.8. *)
Definition scores_ok (p : ai_security_profile) : Prop :=
  (nonneg (Profile.trust_score p) = true
   /\ F32.leb (Profile.trust_score p) f_0_81 = true)
  /\ (nonneg (Profile.risk_score p) = true
      /\ F32.leb (Profile.risk_score p) f_1_0 = true)
  /\ (nonneg (Profile.behavior_score p) = true
      /\ F32.leb (Profile.behavior_score p) f_0_8 = true).

(** ** Properties of binary32 rounding *)

(** The literals are the binary32 numbers a C compiler produces. *)
Lemma literal_values :
  f_0_8 = S754_finite false 13421773 (-24)
  /\ f_0_81 = S754_finite false 13589545 (-24)
  /\ f_0_7 = S754_finite false 11744051 (-24)
  /\ f_0_3 = S754_finite false 10066330 (-25)
  /\ f_0_2 = S754_finite false 13421773 (-26)
  /\ f_0_01 = S754_finite false 10737418 (-30)
  /\ f_0_005 = S754_finite false 10737418 (-31)
  /\ f_100 = S754_finite false 13107200 (-17).
Proof. repeat split; vm_compute; reflexivity. Qed.

Lemma f_0_8_value : f_0_8 = S754_finite false 13421773 (-24).
Proof. apply literal_values. Qed.

Lemma f_0_81_value : f_0_81 = S754_finite false 13589545 (-24).
Proof. apply literal_values. Qed.

Lemma f_0_01_value : f_0_01 = S754_finite false 10737418 (-30).
Proof. apply literal_values. Qed.

Lemma compare_cont_Eq :
  forall a b, Pos.compare_cont Eq a b = Pos.compare a b.
Proof. reflexivity. Qed.

Lemma digits2_pos_size : forall p, digits2_pos p = Pos.size p.
Proof. induction p; simpl; congruence. Qed.

Lemma digits2_bounds :
  forall p,
    2 ^ (Zpos (digits2_pos p) - 1) <= Zpos p < 2 ^ Zpos (digits2_pos p).
Proof.
  intros p. rewrite digits2_pos_size.
  pose proof (Pos.size_gt p) as Hgt. pose proof (Pos.size_le p) as Hle.
  apply Pos2Z.pos_lt_pos in Hgt. apply Pos2Z.pos_le_pos in Hle.
  rewrite Pos2Z.inj_pow in Hgt, Hle.
  change (Z.pos 2) with 2 in *.
  assert (E : 2 ^ Z.pos (Pos.size p) = 2 * 2 ^ (Z.pos (Pos.size p) - 1)).
  { rewrite <- Z.pow_succ_r by lia. f_equal. lia. }
  lia.
Qed.

Lemma digits2_unique :
  forall p d, 2 ^ (d - 1) <= Zpos p < 2 ^ d -> Zpos (digits2_pos p) = d.
Proof.
  intros p d [Hlo Hhi]. pose proof (digits2_bounds p) as [Blo Bhi].
  destruct (Z.lt_trichotomy (Zpos (digits2_pos p)) d)
    as [Hlt | [Heq | Hgt]]; [|exact Heq|]; exfalso.
  - assert (2 ^ Zpos (digits2_pos p) <= 2 ^ (d - 1))
      by (apply Z.pow_le_mono_r; lia).
    lia.
  - assert (d < 0 \/ 0 <= d) as [Hd|Hd] by lia.
    + rewrite Z.pow_neg_r in Hhi by lia. lia.
    + assert (2 ^ d <= 2 ^ (Zpos (digits2_pos p) - 1))
        by (apply Z.pow_le_mono_r; lia).
      lia.
Qed.

Lemma shr_1_inv :
  forall N k r, 0 <= k -> shr_inv N k r -> shr_inv N (k + 1) (shr_1 r).
Proof.
  intros N k [m r s] Hk Hinv. unfold shr_inv in *.
  cbn [shr_m shr_r shr_s] in Hinv. destruct Hinv as (Hm & Hb & Hr & Hex).
  assert (HP : 0 < 2 ^ k) by (apply Z.pow_pos_nonneg; lia).
  assert (HS : 2 ^ (k + 1) = 2 * 2 ^ k)
    by (rewrite Z.pow_add_r by lia; change (2 ^ 1) with 2; lia).
  rewrite HS. clear HS.
  set (P := 2 ^ k) in *.
  destruct m as [|[p|p|]|p]; cbn [shr_1 shr_m shr_r shr_s]; try lia;
    repeat split; try nia; try (intros; discriminate);
    try (intros _ Hs; apply orb_false_iff in Hs; destruct Hs as [-> ->];
         specialize (Hex eq_refl eq_refl); nia).
Qed.

Lemma iter_pos_shr_inv :
  forall N p k r,
    0 <= k -> shr_inv N k r -> shr_inv N (k + Zpos p) (iter_pos shr_1 p r).
Proof.
  intros N. induction p as [p IH | p IH |]; intros k r Hk Hr; simpl.
  - replace (k + Z.pos p~1) with ((k + 1) + Zpos p + Zpos p) by lia.
    apply IH; [lia|]. apply IH; [lia|]. apply shr_1_inv; assumption.
  - replace (k + Z.pos p~0) with (k + Zpos p + Zpos p) by lia.
    apply IH; [lia|]. apply IH; assumption.
  - apply shr_1_inv; assumption.
Qed.

Lemma fexp32_eq : forall d, fexp 24 128 d = fexp32 d.
Proof. reflexivity. Qed.

Lemma Zdigits2_bounds :
  forall m, 0 < m -> 2 ^ (Zdigits2 m - 1) <= m < 2 ^ Zdigits2 m.
Proof.
  intros [|p|p] H; try lia. simpl. apply digits2_bounds.
Qed.

Lemma Zdigits2_unique :
  forall m d, 0 < m -> 2 ^ (d - 1) <= m < 2 ^ d -> Zdigits2 m = d.
Proof.
  intros [|p|p] d H Hb; try lia. simpl. apply digits2_unique. exact Hb.
Qed.

Lemma shr_inv_start :
  forall m, 0 <= m -> shr_inv m 0 (Build_shr_record m false false).
Proof.
  intros m Hm. unfold shr_inv. cbn [shr_m shr_r shr_s].
  change (2 ^ 0) with 1. repeat split; try lia; intros; discriminate.
Qed.

Lemma shr_fexp_spec :
  forall m e,
    0 <= m ->
    let k := Z.max 0 (fexp32 (Zdigits2 m + e) - e) in
    exists rec,
      shr_fexp 24 128 m e loc_Exact = (rec, e + k)
      /\ shr_inv m k rec.
Proof.
  intros m e Hm k. unfold shr_fexp, shr. rewrite fexp32_eq.
  cbn [shr_record_of_loc].
  destruct (fexp32 (Zdigits2 m + e) - e) as [|p|p] eqn:Hk; subst k.
  - exists (Build_shr_record m false false).
    split; [f_equal; lia | apply shr_inv_start; exact Hm].
  - exists (iter_pos shr_1 p (Build_shr_record m false false)).
    split; [f_equal; lia|].
    replace (Z.max 0 (Z.pos p)) with (0 + Z.pos p) by lia.
    apply iter_pos_shr_inv; [lia | apply shr_inv_start; exact Hm].
  - exists (Build_shr_record m false false).
    split; [f_equal; lia|].
    replace (Z.max 0 (Z.neg p)) with 0 by lia.
    apply shr_inv_start; exact Hm.
Qed.

Lemma round_nearest_even_bounds :
  forall rec,
    let m' := round_nearest_even (shr_m rec) (loc_of_shr_record rec) in
    shr_m rec <= m' <= shr_m rec + 1
    /\ (m' = shr_m rec + 1 -> shr_r rec = true)
    /\ (shr_r rec = false -> shr_s rec = false -> m' = shr_m rec).
Proof.
  intros [m r s]. cbn [shr_m shr_r shr_s loc_of_shr_record].
  destruct r, s; cbn [round_nearest_even]; try destruct (Z.even m);
    repeat split; intros; try lia; try reflexivity.
Qed.

Lemma pow2_pos : forall k, 0 <= k -> 0 < 2 ^ k.
Proof. intros k Hk. apply Z.pow_pos_nonneg; lia. Qed.

Lemma pow2_split : forall a b, 0 <= a -> 0 <= b -> 2 ^ (a + b) = 2 ^ a * 2 ^ b.
Proof. intros a b Ha Hb. apply Z.pow_add_r; assumption. Qed.

(** The mantissa kept by a shift of [k] places of a [d]-digit number. *)
Lemma shifted_mantissa_bounds :
  forall mx d k m1,
    2 ^ (d - 1) <= mx < 2 ^ d ->
    0 <= k -> 0 <= m1 ->
    m1 * 2 ^ k <= mx < (m1 + 1) * 2 ^ k ->
    (k < d -> 2 ^ (d - k - 1) <= m1 < 2 ^ (d - k))
    /\ (d <= k -> m1 = 0).
Proof.
  intros mx d k m1 [Hlo Hhi] Hk Hm1 [Hb1 Hb2].
  pose proof (pow2_pos k Hk) as HP.
  split.
  - intros Hkd.
    assert (E1 : 2 ^ d = 2 ^ (d - k) * 2 ^ k)
      by (rewrite <- pow2_split by lia; f_equal; lia).
    assert (E2 : 2 ^ (d - 1) = 2 ^ (d - k - 1) * 2 ^ k)
      by (rewrite <- pow2_split by lia; f_equal; lia).
    pose proof (pow2_pos (d - k) ltac:(lia)).
    pose proof (pow2_pos (d - k - 1) ltac:(lia)).
    split; nia.
  - intros Hdk.
    assert (0 <= d \/ d < 0) as [Hd | Hd] by lia.
    + assert (2 ^ d <= 2 ^ k) by (apply Z.pow_le_mono_r; lia). nia.
    + rewrite (Z.pow_neg_r 2 d) in Hhi by lia. nia.
Qed.

Lemma shr_inv_0 :
  forall m rec, shr_inv m 0 rec -> shr_m rec = m.
Proof.
  intros m rec (H0 & Hb & _). change (2 ^ 0) with 1 in Hb. lia.
Qed.

Lemma binary_round_aux_spec :
  forall s mx ex,
    ex <= fexp32 (Zpos (digits2_pos mx) + ex) ->
    binary_round_aux 24 128 s (Zpos mx) ex loc_Exact = S754_zero s
    \/ exists mf ef,
         binary_round_aux 24 128 s (Zpos mx) ex loc_Exact
         = (if ef <=? 104 then S754_finite s mf ef else S754_infinity s)
         /\ canonical_mantissa 24 128 mf ef = true
         /\ ex <= ef
         /\ 2 * Zpos mf * 2 ^ (ef - ex) <= 2 * Zpos mx + 2 ^ (ef - ex).
Proof.
  intros s mx ex Hsh. unfold binary_round_aux.
  pose proof (digits2_bounds mx) as Hd.
  set (d := Zpos (digits2_pos mx)) in *.
  destruct (shr_fexp_spec (Zpos mx) ex ltac:(lia)) as (rec1 & E1 & I1).
  cbn [Zdigits2] in E1, I1. fold d in E1, I1.
  replace (Z.max 0 (fexp32 (d + ex) - ex)) with (fexp32 (d + ex) - ex) in *
    by lia.
  set (k := fexp32 (d + ex) - ex) in *.
  assert (Hk : 0 <= k) by lia.
  rewrite E1. clear E1.
  destruct (round_nearest_even_bounds rec1) as (Hm2 & Hup & _).
  set (m2 := round_nearest_even (shr_m rec1) (loc_of_shr_record rec1)) in *.
  destruct I1 as (Hm1 & Hb1 & Hr1 & _).
  set (m1 := shr_m rec1) in *.
  destruct (shifted_mantissa_bounds _ d k m1 Hd Hk Hm1 Hb1) as [Hnz Hz].
  pose proof (pow2_pos k Hk) as HP.
  assert (Hval : 2 * m2 * 2 ^ k <= 2 * Zpos mx + 2 ^ k).
  { destruct (Z.eq_dec m2 (m1 + 1)) as [E|E].
    - specialize (Hr1 (Hup E)). nia.
    - assert (m2 = m1) by lia. nia. }
  destruct (shr_fexp_spec m2 (ex + k) ltac:(lia)) as (rec2 & E2 & I2).
  rewrite E2. clear E2.
  set (k2 := Z.max 0 (fexp32 (Zdigits2 m2 + (ex + k)) - (ex + k))) in *.
  assert (He1 : ex + k = fexp32 (d + ex)) by (subst k; lia).
  destruct (Z.eq_dec m2 0) as [Hm20 | Hm20].
  - (* everything was shifted out *)
    assert (Hk2 : k2 = 0).
    { subst k2. rewrite Hm20. cbn [Zdigits2]. unfold fexp32 in *. lia. }
    rewrite Hk2 in I2. rewrite (shr_inv_0 _ _ I2), Hm20. left. reflexivity.
  - assert (Hpos : 0 < m2) by lia.
    pose proof (Zdigits2_bounds m2 Hpos) as Hd2.
    set (d2 := Zdigits2 m2) in *.
    assert (Hd2' :
      (k < d /\ (d2 = d - k \/ (d2 = d - k + 1 /\ m2 = 2 ^ (d - k))))
      \/ (d <= k /\ d2 = 1)).
    { destruct (Z_lt_le_dec k d) as [Hkd | Hkd]; [left | right].
      - split; [exact Hkd|]. specialize (Hnz Hkd).
        destruct (Z.eq_dec m2 (2 ^ (d - k))) as [E | E].
        + right. split; [|exact E]. subst d2.
          apply Zdigits2_unique; [exact Hpos|].
          replace (d - k + 1 - 1) with (d - k) by lia.
          rewrite (pow2_split (d - k) 1) by lia. change (2 ^ 1) with 2.
          pose proof (pow2_pos (d - k) ltac:(lia)). lia.
        + left. subst d2. apply Zdigits2_unique; [exact Hpos|]. lia.
      - split; [exact Hkd|]. specialize (Hz Hkd).
        subst d2. apply Zdigits2_unique; [exact Hpos|].
        change (2 ^ (1 - 1)) with 1. change (2 ^ 1) with 2. lia. }
    assert (Hk2 : (k2 = 0 /\ fexp32 (d2 + (ex + k)) = ex + k)
                  \/ (k2 = 1 /\ k < d /\ d2 = d - k + 1
                      /\ m2 = 2 ^ (d - k) /\ d - k = 24)).
    { subst k2. unfold fexp32 in *. lia. }
    destruct Hk2 as [[Hk20 Hcan] | (Hk21 & Hkd & Hd21 & Hm2p & HD)].
    + rewrite Hk20 in *. rewrite (shr_inv_0 _ _ I2).
      destruct m2 as [|mf|mf]; try lia.
      replace (ex + k + 0) with (ex + k) by lia.
      right. exists mf, (ex + k). split; [reflexivity|]. split.
      * unfold canonical_mantissa. rewrite fexp32_eq.
        change (Z.pos (digits2_pos mf)) with d2.
        rewrite Hcan. apply Z.eqb_refl.
      * split; [lia|]. replace (ex + k - ex) with k by lia. exact Hval.
    + rewrite Hk21 in *. destruct I2 as (Hf0 & Hfb & _).
      change (2 ^ 1) with 2 in Hfb.
      assert (Hmf : shr_m rec2 = 2 ^ 23).
      { rewrite Hm2p, HD in Hfb. change (2 ^ 24) with (2 * 2 ^ 23) in Hfb.
        lia. }
      rewrite Hmf. change (2 ^ 23) with (Zpos 8388608).
      cbv iota beta.
      right. exists 8388608%positive, (ex + k + 1). split; [reflexivity|].
      split.
      * unfold canonical_mantissa. rewrite fexp32_eq.
        change (Z.pos (digits2_pos 8388608)) with 24.
        apply Z.eqb_eq. unfold fexp32 in *. lia.
      * split; [lia|]. replace (ex + k + 1 - ex) with (k + 1) by lia.
        rewrite (pow2_split k 1) by lia. change (2 ^ 1) with 2.
        rewrite Hm2p, HD in Hval. change (2 ^ 24) with 16777216 in Hval.
        change (Z.pos 8388608) with 8388608. lia.
Qed.

Lemma pos_iter_xO :
  forall d m, Zpos (Pos.iter xO m d) = Zpos m * 2 ^ Zpos d.
Proof.
  intros d m. induction d as [|d IH] using Pos.peano_ind.
  - cbn [Pos.iter]. change (2 ^ 1) with 2. lia.
  - rewrite Pos.iter_succ, Pos2Z.inj_xO, IH, Pos2Z.inj_succ.
    rewrite Z.pow_succ_r by lia. lia.
Qed.

Lemma shl_align_spec :
  forall mx ex ex',
    snd (shl_align mx ex ex') = Z.min ex ex'
    /\ Zpos (fst (shl_align mx ex ex'))
       = Zpos mx * 2 ^ (ex - Z.min ex ex').
Proof.
  intros mx ex ex'. unfold shl_align.
  destruct (ex' - ex) as [|p|p] eqn:E; cbn [fst snd].
  - replace (Z.min ex ex') with ex by lia.
    rewrite Z.sub_diag. change (2 ^ 0) with 1. lia.
  - replace (Z.min ex ex') with ex by lia.
    rewrite Z.sub_diag. change (2 ^ 0) with 1. lia.
  - replace (Z.min ex ex') with ex' by lia.
    rewrite pos_iter_xO. split; [reflexivity|]. f_equal. f_equal. lia.
Qed.

Lemma digits2_shift :
  forall m j m',
    0 <= j -> Zpos m' = Zpos m * 2 ^ j ->
    Zpos (digits2_pos m') = Zpos (digits2_pos m) + j.
Proof.
  intros m j m' Hj E. apply digits2_unique. rewrite E.
  pose proof (digits2_bounds m) as [Hlo Hhi].
  pose proof (pow2_pos j Hj).
  replace (Z.pos (digits2_pos m) + j - 1)
    with ((Z.pos (digits2_pos m) - 1) + j) by lia.
  rewrite !pow2_split by lia. nia.
Qed.

Lemma binary_round_spec :
  forall s mx ex,
    -149 <= ex ->
    binary_round 24 128 s mx ex = S754_zero s
    \/ exists mf ef,
         binary_round 24 128 s mx ex
         = (if ef <=? 104 then S754_finite s mf ef else S754_infinity s)
         /\ canonical_mantissa 24 128 mf ef = true
         /\ -149 <= ef
         /\ 2 * ulps (Zpos mf) ef <= 2 * ulps (Zpos mx) ex + 2 ^ (ef + 149).
Proof.
  intros s mx ex Hex. unfold binary_round. rewrite fexp32_eq.
  destruct (shl_align_spec mx ex (fexp32 (Zpos (digits2_pos mx) + ex)))
    as [Hez Hmz].
  destruct (shl_align mx ex (fexp32 (Z.pos (digits2_pos mx) + ex)))
    as [mz ez]. cbn [fst snd] in Hez, Hmz.
  set (d := Zpos (digits2_pos mx)) in *.
  assert (Hdz : Zpos (digits2_pos mz) = d + (ex - ez))
    by (apply digits2_shift; [lia | rewrite Hmz; f_equal; f_equal; lia]).
  assert (Hpre : ez <= fexp32 (Zpos (digits2_pos mz) + ez)).
  { rewrite Hdz. replace (d + (ex - ez) + ez) with (d + ex) by lia. lia. }
  destruct (binary_round_aux_spec s mz ez Hpre)
    as [Hzero | (mf & ef & Hres & Hcan & Hle & Hv)]; [left; exact Hzero|].
  right. exists mf, ef.
  assert (Hez149 : -149 <= ez) by (unfold fexp32 in Hez; lia).
  split; [exact Hres|]. split; [exact Hcan|]. split; [lia|].
  unfold ulps.
  replace (ef + 149) with ((ef - ez) + (ez + 149)) by lia.
  rewrite pow2_split by lia.
  rewrite <- Hez in Hmz.
  replace (ex + 149) with ((ex - ez) + (ez + 149)) by lia.
  rewrite (pow2_split (ex - ez)) by lia.
  rewrite Hmz in Hv.
  pose proof (pow2_pos (ez + 149) ltac:(lia)) as HA.
  set (A := 2 ^ (ez + 149)) in *. set (B := 2 ^ (ef - ez)) in *.
  set (C := 2 ^ (ex - ez)) in *.
  assert (2 * Z.pos mf * B * A <= (2 * (Z.pos mx * C) + B) * A)
    by (apply Z.mul_le_mono_nonneg_r; lia).
  lia.
Qed.

Lemma canonical_facts :
  forall m e,
    canonical_mantissa 24 128 m e = true ->
    -149 <= e /\ Zpos m < 2 ^ 24 /\ (-149 < e -> 2 ^ 23 <= Zpos m).
Proof.
  intros m e H. unfold canonical_mantissa in H. rewrite fexp32_eq in H.
  apply Z.eqb_eq in H. pose proof (digits2_bounds m) as [Hlo Hhi].
  set (d := Zpos (digits2_pos m)) in *. unfold fexp32 in H.
  split; [lia|]. split.
  - assert (2 ^ d <= 2 ^ 24) by (apply Z.pow_le_mono_r; lia). lia.
  - intros He. assert (d = 24) by lia. subst d.
    replace (Zpos (digits2_pos m) - 1) with 23 in Hlo by lia. exact Hlo.
Qed.

Lemma below_0_8_ulps :
  forall m e,
    canonical_mantissa 24 128 m e = true ->
    F32.ltb (S754_finite false m e) f_0_8 = true ->
    ulps (Zpos m) e <= 13421772 * 2 ^ 125.
Proof.
  intros m e Hcan Hlt. destruct (canonical_facts m e Hcan) as (He & Hm & _).
  rewrite f_0_8_value in Hlt.
  unfold F32.ltb, SFltb, SFcompare in Hlt. unfold ulps.
  destruct (Z.compare_spec e (-24)) as [Heq | Hlt' | Hgt]; try discriminate.
  - subst e. change (-24 + 149) with 125.
    rewrite compare_cont_Eq in Hlt.
    destruct (Pos.compare_spec m 13421773) as [E | L | G]; try discriminate.
    apply Pos2Z.pos_lt_pos in L.
    pose proof (pow2_pos 125 ltac:(lia)). nia.
  - assert (Hp : 2 ^ (e + 149) <= 2 ^ 124)
      by (apply Z.pow_le_mono_r; lia).
    pose proof (pow2_pos (e + 149) ltac:(lia)).
    assert (Zpos m * 2 ^ (e + 149) <= 2 ^ 24 * 2 ^ 124) by nia.
    change (2 ^ 24 * 2 ^ 124) with (8388608 * 2 ^ 125) in H0.
    pose proof (pow2_pos 125 ltac:(lia)). lia.
Qed.

(** A canonical result within half an ulp of a sum below 0.8 + 0.01 is
    at most 0.81. *)
Lemma rounded_sum_below_0_81 :
  forall mf ef v,
    canonical_mantissa 24 128 mf ef = true ->
    v <= 13421772 * 2 ^ 125 + 10737418 * 2 ^ 119 ->
    2 * ulps (Zpos mf) ef <= 2 * v + 2 ^ (ef + 149) ->
    ef <= 104 /\ F32.leb (S754_finite false mf ef) f_0_81 = true.
Proof.
  intros mf ef v Hcan Hv Hround.
  destruct (canonical_facts mf ef Hcan) as (He & Hm & Hnorm).
  unfold ulps in Hround.
  pose proof (pow2_pos (ef + 149) ltac:(lia)) as HQ.
  assert (Hef : ef <= -24).
  { destruct (Z_le_gt_dec ef (-24)) as [H|H]; [exact H | exfalso].
    specialize (Hnorm ltac:(lia)).
    assert (Hq : 2 ^ 126 <= 2 ^ (ef + 149)) by (apply Z.pow_le_mono_r; lia).
    set (Q := 2 ^ (ef + 149)) in *.
    assert (2 ^ 23 * Q <= Zpos mf * Q)
      by (apply Z.mul_le_mono_nonneg_r; lia).
    change (2 ^ 23) with 8388608 in *.
    change (2 ^ 125) with 42535295865117307932921825928971026432 in *.
    change (2 ^ 119) with 664613997892457936451903530140172288 in *.
    change (2 ^ 126) with 85070591730234615865843651857942052864 in *.
    lia. }
  split; [lia|].
  rewrite f_0_81_value.
  unfold F32.leb, SFleb, SFcompare.
  destruct (Z.compare_spec ef (-24)) as [Heq | Hlt | Hgt]; try reflexivity;
    [|lia].
  subst ef. change (-24 + 149) with 125 in *.
  rewrite compare_cont_Eq.
  assert (Hmf : Zpos mf <= 13589545).
  { change (2 ^ 125) with 42535295865117307932921825928971026432 in *.
    change (2 ^ 119) with 664613997892457936451903530140172288 in *.
    lia. }
  destruct (Pos.compare_spec mf 13589545) as [E | L | G]; try reflexivity.
  apply Pos2Z.pos_lt_pos in G. lia.
Qed.

Lemma binary_round_valid_neg :
  forall mx ex,
    -149 <= ex ->
    valid_binary 24 128 (binary_round 24 128 true mx ex) = true
    /\ F32.leb (binary_round 24 128 true mx ex) f_0_81 = true.
Proof.
  intros mx ex Hex.
  destruct (binary_round_spec true mx ex Hex)
    as [-> | (mf & ef & -> & Hcan & _ & _)]; [split; reflexivity|].
  destruct (Z.leb_spec ef 104) as [Hle | Hgt]; [|split; reflexivity].
  split; [|reflexivity].
  unfold valid_binary, bounded. rewrite Hcan. apply Z.leb_le. exact Hle.
Qed.

(** One increment from below 0.8 ends at most at 0.81, and is again a
    binary32 number. *)
Lemma add_0_01_below_0_8 :
  forall t,
    F32.valid t = true ->
    F32.ltb t f_0_8 = true ->
    F32.valid (F32.add t f_0_01) = true
    /\ F32.leb (F32.add t f_0_01) f_0_81 = true.
Proof.
  unfold F32.valid.
  intros [s | s | | s m e] Hvalid Hlt.
  - destruct s; split; reflexivity.
  - destruct s; [split; reflexivity | discriminate].
  - discriminate.
  - unfold valid_binary, bounded in Hvalid.
    apply andb_true_iff in Hvalid. destruct Hvalid as [Hcan He104].
    destruct (canonical_facts m e Hcan) as (He & Hm & _).
    rewrite f_0_01_value.
    unfold F32.add, F32.prec, F32.emax, SFadd.
    set (ez := Z.min e (-30)).
    destruct (shl_align_spec m e ez) as [_ Ha].
    destruct (shl_align_spec 10737418 (-30) ez) as [_ Hb].
    replace (Z.min e ez) with ez in Ha by (subst ez; lia).
    replace (Z.min (-30) ez) with ez in Hb by (subst ez; lia).
    set (a := fst (shl_align m e ez)) in *.
    set (b := fst (shl_align 10737418 (-30) ez)) in *.
    assert (Hez : -149 <= ez) by (subst ez; lia).
    pose proof (pow2_pos (ez + 149) ltac:(lia)) as HA.
    assert (Hua : ulps (Zpos a) ez = ulps (Zpos m) e).
    { unfold ulps. rewrite Ha.
      replace (e + 149) with ((e - ez) + (ez + 149)) by lia.
      rewrite (pow2_split (e - ez) (ez + 149)) by (subst ez; lia). lia. }
    assert (Hub : ulps (Zpos b) ez = 10737418 * 2 ^ 119).
    { unfold ulps. rewrite Hb.
      replace 119 with ((-30 - ez) + (ez + 149)) by lia.
      rewrite (pow2_split (-30 - ez) (ez + 149)) by (subst ez; lia). lia. }
    unfold binary_normalize.
    destruct (cond_Zopp s (Zpos a) + cond_Zopp false (Zpos b))
      as [|p|p] eqn:Hsum.
    + split; reflexivity.
    + assert (Hv : ulps (Zpos p) ez
                   <= 13421772 * 2 ^ 125 + 10737418 * 2 ^ 119).
      { destruct s; cbn [cond_Zopp] in Hsum.
        - assert (Zpos p <= Zpos b) by lia.
          assert (ulps (Zpos p) ez <= ulps (Zpos b) ez)
            by (unfold ulps; apply Z.mul_le_mono_nonneg_r; lia).
          pose proof (pow2_pos 125 ltac:(lia)). lia.
        - pose proof (below_0_8_ulps m e Hcan Hlt) as Ht.
          assert (ulps (Zpos p) ez = ulps (Zpos a) ez + ulps (Zpos b) ez)
            by (unfold ulps; rewrite <- Hsum; lia).
          lia. }
      destruct (binary_round_spec false p ez Hez)
        as [-> | (mf & ef & -> & Hcanf & _ & Hround)]; [split; reflexivity|].
      destruct (rounded_sum_below_0_81 mf ef _ Hcanf Hv Hround)
        as [Hle Hleb].
      destruct (Z.leb_spec ef 104) as [_ | Hgt]; [|lia].
      split; [|exact Hleb].
      unfold valid_binary, bounded. rewrite Hcanf. apply Z.leb_le. exact Hle.
    + apply binary_round_valid_neg. exact Hez.
Qed.

(** ** Properties *)

Section Properties.

Variable hash_32 : Z -> Z.
Variable full_name_hash : string -> Z.

Lemma analyze_event_found :
  forall g m a p e,
    ai_sec_mgr g = Some m ->
    ai_security_profile_lookup hash_32 m (Event.pid e) = Some a ->
    nth_error (process_profiles m) a = Some p ->
    ai_security_analyze_event hash_32 e g =
    (0, fst (analyze_locked (ai_security_threat_threshold g) e p),
     set_mgr g (set_profiles m
                  (list_set (process_profiles m) a
                     (snd (analyze_locked (ai_security_threat_threshold g)
                             e p))))).
Proof.
  intros g m a p e Hm Hl Hn.
  unfold ai_security_analyze_event, ai_security_get_profile.
  rewrite Hm, Hl, Hn.
  destruct (analyze_locked (ai_security_threat_threshold g) e p); reflexivity.
Qed.

Lemma assessed_found :
  forall g e p,
    profile_at hash_32 g (Event.pid e) p ->
    assessed hash_32 e g = fst (analyze_locked (ai_security_threat_threshold g) e p).
Proof.
  intros g e p (m & a & Hm & Hl & Hn).
  unfold assessed. rewrite (analyze_event_found g m a p e Hm Hl Hn).
  reflexivity.
Qed.

(** *** Classification *)

Lemma classify_threat_spec :
  forall s, spec_level s (ai_security_classify_threat s).
Proof.
  intros s. unfold spec_level, ai_security_classify_threat.
  destruct (Z.geb_spec s 90); [repeat split; intros; (reflexivity || lia)|].
  destruct (Z.geb_spec s 70); [repeat split; intros; (reflexivity || lia)|].
  destruct (Z.geb_spec s 50); [repeat split; intros; (reflexivity || lia)|].
  destruct (Z.geb_spec s 25); repeat split; intros; (reflexivity || lia).
Qed.

Lemma classify_threat_monotone :
  forall s1 s2,
    s1 <= s2 ->
    level_value (ai_security_classify_threat s1)
    <= level_value (ai_security_classify_threat s2).
Proof.
  intros s1 s2 H. unfold ai_security_classify_threat.
  destruct (Z.geb_spec s1 90), (Z.geb_spec s2 90); simpl; try lia;
  destruct (Z.geb_spec s1 70), (Z.geb_spec s2 70); simpl; try lia;
  destruct (Z.geb_spec s1 50), (Z.geb_spec s2 50); simpl; try lia;
  destruct (Z.geb_spec s1 25), (Z.geb_spec s2 25); simpl; lia.
Qed.

(** C1.  Threat classification is a total monotone step function of the
    score: every score (in particular every score in [0,100]) is mapped to
    the one level the step table gives -- [>= 90] Critical, [70..89] High,
    [50..69] Medium, [25..49] Low, [< 25] None -- and a larger score never
    gets a smaller level. *)
Theorem classify_threat_total_monotone_step :
  forall s1 s2,
    spec_level s1 (ai_security_classify_threat s1)
    /\ (forall l, spec_level s1 l -> l = ai_security_classify_threat s1)
    /\ (s1 <= s2 ->
        level_value (ai_security_classify_threat s1)
        <= level_value (ai_security_classify_threat s2)).
Proof.
  intros s1 s2. split; [apply classify_threat_spec|]. split.
  - intros l (H90 & H70 & H50 & H25 & H0).
    unfold ai_security_classify_threat.
    destruct (Z.geb_spec s1 90); [apply H90; lia|].
    destruct (Z.geb_spec s1 70); [apply H70; lia|].
    destruct (Z.geb_spec s1 50); [apply H50; lia|].
    destruct (Z.geb_spec s1 25); [apply H25; lia|].
    apply H0; lia.
  - apply classify_threat_monotone.
Qed.


(** *** Scoring *)

Lemma min_u_100 : forall z, 0 <= z -> min_u z 100 = clamp_0_100 z.
Proof.
  intros z Hz. unfold min_u, clamp_0_100.
  destruct (Z.ltb_spec z 100); lia.
Qed.

(** *** Substrings *)

Lemma prefix_append :
  forall a b, String.prefix a b = true <-> exists post, b = (a ++ post)%string.
Proof.
  induction a as [|c a IH]; intros b.
  - split; [intros _; exists b; reflexivity | intros _; destruct b; reflexivity].
  - destruct b as [|c' b]; cbn [String.prefix String.append].
    + split; [discriminate | intros [post H]; discriminate H].
    + destruct (Ascii.ascii_dec c c') as [-> | Hne].
      * rewrite IH. split; intros [post H]; exists post; congruence.
      * split; [discriminate | intros [post H]; congruence].
Qed.

(** [strstr] finds exactly the occurrences of the pattern. *)
Lemma strstr_occurs :
  forall hay needle, strstr hay needle = true <-> occurs_in needle hay.
Proof.
  intros hay needle. split.
  - induction hay as [|c rest IH]; cbn [strstr]; intros H;
      apply orb_true_iff in H; destruct H as [H | H]; try discriminate H.
    + apply prefix_append in H. destruct H as [post H].
      exists EmptyString, post. exact H.
    + apply prefix_append in H. destruct H as [post H].
      exists EmptyString, post. exact H.
    + destruct (IH H) as (pre & post & Hrest).
      exists (String c pre), post. cbn [String.append]. congruence.
  - intros (pre & post & H). revert hay H.
    induction pre as [|c pre IH]; intros hay H.
    + cbn [String.append] in H.
      assert (Hp : String.prefix needle hay = true)
        by (apply prefix_append; exists post; exact H).
      destruct hay; cbn [strstr]; rewrite Hp; reflexivity.
    + cbn [String.append] in H. subst hay. cbn [strstr].
      rewrite (IH _ eq_refl). apply orb_true_r.
Qed.

Lemma strstr_not_occurs :
  forall hay needle, strstr hay needle = false <-> ~ occurs_in needle hay.
Proof.
  intros hay needle. rewrite <- strstr_occurs.
  destruct (strstr hay needle); split; intros H;
    (reflexivity || discriminate || congruence || (exfalso; auto)).
Qed.

(** The base as a function satisfies the relation, and is the only value
    that does. *)
Lemma amended_base_base_score :
  forall e p, amended_base e p (base_score e p).
Proof.
  intros e p. unfold amended_base, base_score, suspicious_access,
    temporary_path.
  destruct (Event.type e); try reflexivity.
  - destruct (Event.event_data e) as [payload|].
    + destruct (Event.description e) as [d|].
      * destruct (strstr d "sensitive") eqn:Hs.
        -- split; [reflexivity|]. intros Hn. exfalso. apply Hn.
           split; [discriminate|]. exists d. split; [reflexivity|].
           apply strstr_occurs. exact Hs.
        -- split; [|reflexivity]. intros (_ & d' & Hd & Hocc).
           injection Hd as <-. apply strstr_occurs in Hocc. congruence.
      * split; [|reflexivity]. intros (_ & d' & Hd & _). discriminate Hd.
    + split; [|reflexivity]. intros (Hn & _). contradiction Hn. reflexivity.
  - destruct (Z.ltb_spec 100 (Profile.network_connection_count p));
      split; intros; (reflexivity || lia).
  - destruct (Event.event_data e) as [path|].
    + destruct (strstr path "/tmp/" || strstr path "/var/tmp/") eqn:Hs.
      * split; [reflexivity|]. intros Hn. exfalso. apply Hn.
        exists path. split; [reflexivity|].
        apply orb_true_iff in Hs. rewrite !strstr_occurs in Hs. exact Hs.
      * split; [|reflexivity]. intros (path' & Hp & Hocc).
        injection Hp as <-. rewrite <- !strstr_occurs in Hocc.
        apply orb_true_iff in Hocc. congruence.
    + split; [|reflexivity]. intros (path' & Hp & _). discriminate Hp.
Qed.

Lemma amended_base_unique :
  forall e p b, amended_base e p b -> b = base_score e p.
Proof.
  intros e p b Hb. pose proof (amended_base_base_score e p) as Hf.
  unfold amended_base in *.
  destruct (Event.type e); try congruence.
  - destruct Hb as [Hb1 Hb0], Hf as [Hf1 Hf0].
    destruct (strstr
                match Event.description e with
                | Some d => d
                | None => EmptyString
                end "sensitive") eqn:Hs;
    destruct (Event.event_data e) as [payload|] eqn:Hdata;
    destruct (Event.description e) as [d|] eqn:Hdesc;
    try (assert (Hyes : suspicious_access e)
           by (unfold suspicious_access; rewrite Hdata, Hdesc;
               split; [discriminate|]; exists d; split; [reflexivity|];
               apply strstr_occurs; exact Hs);
         rewrite (Hb1 Hyes), (Hf1 Hyes); reflexivity);
    assert (Hno : ~ suspicious_access e)
      by (unfold suspicious_access; rewrite ?Hdata, ?Hdesc;
          intros (Hn & d' & Hd & Hocc);
          first [ contradiction Hn; reflexivity
                | discriminate Hd
                | injection Hd as <-; apply strstr_occurs in Hocc;
                  congruence ]);
    rewrite (Hb0 Hno), (Hf0 Hno); reflexivity.
  - destruct Hb as [Hb1 Hb0], Hf as [Hf1 Hf0].
    destruct (Z.lt_ge_cases 100 (Profile.network_connection_count p));
      [rewrite Hb1, Hf1 by lia | rewrite Hb0, Hf0 by lia]; reflexivity.
  - destruct Hb as [Hb1 Hb0], Hf as [Hf1 Hf0].
    destruct (Event.event_data e) as [path|] eqn:Hdata.
    + destruct (strstr path "/tmp/" || strstr path "/var/tmp/") eqn:Hs.
      * assert (Hyes : temporary_path e).
        { exists path. split; [exact Hdata|].
          apply orb_true_iff in Hs. rewrite !strstr_occurs in Hs. exact Hs. }
        rewrite (Hb1 Hyes), (Hf1 Hyes). reflexivity.
      * assert (Hno : ~ temporary_path e).
        { intros (path' & Hp & Hocc). rewrite Hdata in Hp.
          injection Hp as <-. rewrite <- !strstr_occurs in Hocc.
          apply orb_true_iff in Hocc. congruence. }
        rewrite (Hb0 Hno), (Hf0 Hno). reflexivity.
    + assert (Hno : ~ temporary_path e).
      { intros (path' & Hp & _). rewrite Hdata in Hp. discriminate Hp. }
      rewrite (Hb0 Hno), (Hf0 Hno). reflexivity.
Qed.

(** The base in terms of the two tests of the analysis. *)
Lemma base_score_tests :
  forall e p,
    base_score e p
    = match Event.type e with
      | AI_SECURITY_EVENT_FILE_ACCESS =>
          if file_access_suspicious e then 30 else 0
      | AI_SECURITY_EVENT_NETWORK_CONNECT =>
          if 100 <? Profile.network_connection_count p then 25 else 0
      | AI_SECURITY_EVENT_PRIVILEGE_ESCALATION => 60
      | AI_SECURITY_EVENT_PROCESS_EXEC => if exec_from_temp e then 40 else 0
      | _ => 0
      end.
Proof.
  intros e p. unfold base_score, file_access_suspicious, exec_from_temp.
  destruct (Event.type e), (Event.event_data e), (Event.description e);
    reflexivity.
Qed.

(** The score of a fresh event is the two-stage sum. *)
Lemma analyze_locked_score :
  forall threshold e p,
    fresh_event e ->
    Event.threat_score (fst (analyze_locked threshold e p))
    = formula_score e p.
Proof.
  intros threshold e p Hfresh. unfold fresh_event in Hfresh.
  unfold analyze_locked, formula_score, spec_adjustments, score_after_type;
    simpl.
  rewrite base_score_tests.
  rewrite Hfresh, (Z.gtb_ltb (Profile.network_connection_count p)),
    (Z.gtb_ltb (Profile.anomaly_count p)).
  destruct (Event.type e), (file_access_suspicious e), (exec_from_temp e),
    (100 <? Profile.network_connection_count p),
    (F32.ltb (Profile.trust_score p) f_0_3),
    (5 <? Profile.anomaly_count p); reflexivity.
Qed.

Lemma formula_score_range :
  forall e p, 0 <= formula_score e p <= 100.
Proof. intros e p. unfold formula_score, clamp_0_100. lia. Qed.

Lemma analyze_locked_level :
  forall threshold e p,
    Event.threat_level (fst (analyze_locked threshold e p))
    = ai_security_classify_threat
        (Event.threat_score (fst (analyze_locked threshold e p))).
Proof. reflexivity. Qed.

Lemma analyze_locked_action :
  forall threshold e p,
    Event.recommended_action (fst (analyze_locked threshold e p))
    = recommend_action threshold
        (Event.threat_score (fst (analyze_locked threshold e p))).
Proof. reflexivity. Qed.

(** C2.  For a newly created event of a subject whose profile snapshot
    is [p], the threat score that the analysis assigns is the
    per-event-type base plus 20 when trust < 0.3 plus 15 when
    anomaly_count > 5, clamped to [0,100], where the base is: FileAccess
    30 when the event has a payload and its description -- not the
    payload -- contains "sensitive", else 0; NetworkConnect 25 above 100
    connections, else 0; PrivilegeEscalation 60; ProcessExec 40 when the
    payload, read as the executable path, contains "/tmp/" or "/var/tmp/"
    anywhere, else 0; every other type 0.  The base is determined by
    these conditions.  In particular a subject with trust 0.2 (and no
    anomaly history above 5) emitting PrivilegeEscalation is scored 80,
    level High, and action Block under the default threshold 75. *)
Theorem analyze_event_threat_score :
  forall g e p,
    profile_at hash_32 g (Event.pid e) p ->
    fresh_event e ->
    event_defined e ->
    (exists b, amended_base e p b)
    /\ (forall b,
          amended_base e p b ->
          Event.threat_score (assessed hash_32 e g)
          = clamp_0_100 (b + spec_adjustments p))
    /\ 0 <= Event.threat_score (assessed hash_32 e g) <= 100
    /\ (Event.type e = AI_SECURITY_EVENT_PRIVILEGE_ESCALATION ->
        Profile.trust_score p = f_0_2 ->
        Profile.anomaly_count p <= 5 ->
        ai_security_threat_threshold g = AI_SECURITY_THREAT_SCORE_THRESHOLD ->
        Event.threat_score (assessed hash_32 e g) = 80
        /\ Event.threat_level (assessed hash_32 e g) = AI_SECURITY_THREAT_HIGH
        /\ Event.recommended_action (assessed hash_32 e g) = AI_SECURITY_ACTION_BLOCK).
Proof.
  intros g e p Hat Hfresh _.
  rewrite (assessed_found g e p Hat).
  rewrite (analyze_locked_score _ e p Hfresh).
  split; [exists (base_score e p); apply amended_base_base_score|].
  split; [intros b Hb; rewrite (amended_base_unique e p b Hb); reflexivity|].
  split; [apply formula_score_range|].
  intros Hty Htrust Han Hthr.
  rewrite analyze_locked_level, analyze_locked_action,
    (analyze_locked_score _ e p Hfresh), Hthr.
  assert (Hs : formula_score e p = 80).
  { unfold formula_score, spec_adjustments.
    rewrite base_score_tests, Hty, Htrust.
    destruct (Z.ltb_spec 5 (Profile.anomaly_count p)); [lia|reflexivity]. }
  rewrite Hs. repeat split; reflexivity.
Qed.

(** *** Action selection *)

Lemma recommend_action_spec :
  forall threshold score,
    spec_action threshold score (recommend_action threshold score).
Proof.
  intros threshold score. unfold spec_action, recommend_action.
  destruct (Z.geb_spec score threshold);
    destruct (Z.geb_spec score 90); destruct (Z.geb_spec score 80);
    destruct (Z.geb_spec score 50);
    repeat split; intros; (reflexivity || lia).
Qed.

(** C3.  For an event of a subject with a profile and any configured
    threshold, the recommended action is Terminate when
    score >= threshold and score >= 90, Block when score >= threshold and
    80 <= score < 90, Quarantine when threshold <= score < 80, Warn when
    50 <= score < threshold, and Allow otherwise. *)
Theorem analyze_event_recommended_action :
  forall g e p,
    profile_at hash_32 g (Event.pid e) p ->
    spec_action (ai_security_threat_threshold g)
      (Event.threat_score (assessed hash_32 e g))
      (Event.recommended_action (assessed hash_32 e g)).
Proof.
  intros g e p Hat.
  rewrite (assessed_found g e p Hat), analyze_locked_action.
  apply recommend_action_spec.
Qed.


(** *** Confidence *)

Lemma to_u32_convertible :
  forall x, F32.u32_convertible x = true ->
            F32.to_u32 x = F32.trunc x /\ 0 <= F32.trunc x.
Proof.
  intros x Hx. unfold F32.to_u32, u32.
  destruct x as [s | s | | s m e]; try discriminate Hx.
  - split; [reflexivity | simpl; lia].
  - unfold F32.u32_convertible in Hx.
    remember (F32.trunc (S754_finite s m e)) as t eqn:Ht. clear Ht.
    apply andb_true_iff in Hx. destruct Hx as [H0 H1].
    apply Z.leb_le in H0. apply Z.ltb_lt in H1.
    split; [apply Z.mod_small; split; assumption | exact H0].
Qed.

(** C9, as the code has it.  For an event of a subject whose profile
    snapshot is [p], the reported confidence is the integer part of
    [behavior_score * 100] -- the binary32 product converted by the C cast,
    which truncates toward zero and never rounds up -- clamped to
    [0,100]. *)
Theorem analyze_event_confidence_truncates :
  forall g e p,
    profile_at hash_32 g (Event.pid e) p ->
    F32.u32_convertible (F32.mul (Profile.behavior_score p) f_100) = true ->
    Event.confidence (assessed hash_32 e g)
    = clamp_0_100 (F32.trunc (F32.mul (Profile.behavior_score p) f_100))
    /\ 0 <= Event.confidence (assessed hash_32 e g) <= 100.
Proof.
  intros g e p Hat Hconv.
  rewrite (assessed_found g e p Hat).
  unfold analyze_locked; simpl.
  destruct (to_u32_convertible _ Hconv) as [Heq Hnn].
  rewrite Heq, (min_u_100 _ Hnn).
  split; [reflexivity | unfold clamp_0_100; lia].
Qed.

(** *** Profile creation *)

Lemma nth_error_snoc :
  forall (A : Type) (l : list A) (x : A),
    nth_error (l ++ [x]) (List.length l) = Some x.
Proof.
  intros A l x. induction l as [|h t IH]; simpl; [reflexivity | exact IH].
Qed.

(** A successful creation links the new object where a lookup of its pid
    finds it. *)
Lemma create_profile_links :
  forall k task now g m,
    ai_sec_mgr g = Some m ->
    ai_security_get_profile hash_32 g (task_pid task) = None ->
    profile_ok k = true ->
    fst (ai_security_create_profile hash_32 full_name_hash k task now g) = 0
    /\ profile_at hash_32
         (snd (ai_security_create_profile hash_32 full_name_hash k task now g))
         (task_pid task)
         (new_profile full_name_hash (exe_path_ok k) task now).
Proof.
  intros k task now g m Hm Hnone Hok.
  unfold ai_security_create_profile. rewrite Hm, Hnone, Hok. simpl.
  split; [reflexivity|].
  eexists. exists (List.length (process_profiles m)).
  split; [reflexivity|]. split.
  - unfold ai_security_profile_lookup, link_profile,
      ai_security_profile_add_to_hash.
    simpl. rewrite Z.eqb_refl. simpl.
    rewrite nth_error_snoc. simpl. rewrite Z.eqb_refl. reflexivity.
  - simpl. apply nth_error_snoc.
Qed.

(** C10.  A profile created for a new subject starts with threat_score 0,
    current_threat None, behavior_score 0.8, risk_score 0.2 and
    trust_score 0.7 (and no anomalies); so the first event of the subject
    gets neither the low-trust (+20) nor the anomaly-history (+15)
    adjustment -- its score is the base of its type alone -- and its
    confidence is 80, from behavior_score 0.8. *)
Theorem create_profile_initial_scores :
  forall k task now g m,
    ai_sec_mgr g = Some m ->
    ai_security_get_profile hash_32 g (task_pid task) = None ->
    profile_ok k = true ->
    exists p,
      profile_at hash_32
        (snd (ai_security_create_profile hash_32 full_name_hash k task now g))
        (task_pid task) p
      /\ Profile.threat_score p = 0
      /\ Profile.current_threat p = AI_SECURITY_THREAT_NONE
      /\ Profile.behavior_score p = f_0_8
      /\ Profile.risk_score p = f_0_2
      /\ Profile.trust_score p = f_0_7
      /\ spec_adjustments p = 0
      /\ forall e,
           Event.pid e = task_pid task ->
           fresh_event e ->
           event_defined e ->
           let e' :=
             assessed hash_32 e
               (snd (ai_security_create_profile hash_32 full_name_hash
                       k task now g)) in
           Event.threat_score e' = base_score e p
           /\ Event.confidence e' = 80.
Proof.
  intros k task now g m Hm Hnone Hok.
  destruct (create_profile_links k task now g m Hm Hnone Hok) as [_ Hat].
  exists (new_profile full_name_hash (exe_path_ok k) task now).
  split; [exact Hat|]. do 6 (split; [reflexivity|]).
  intros e Hpid Hfresh _ e'. subst e'.
  rewrite <- Hpid in Hat. rewrite (assessed_found _ e _ Hat).
  split.
  - rewrite (analyze_locked_score _ e _ Hfresh).
    unfold formula_score. rewrite base_score_tests.
    change (spec_adjustments
              (new_profile full_name_hash (exe_path_ok k) task now)) with 0.
    simpl Profile.network_connection_count.
    destruct (Event.type e), (file_access_suspicious e), (exec_from_temp e);
      reflexivity.
  - reflexivity.
Qed.


(** *** Frame properties of the operations *)

Lemma log_kept_refl : forall g, log_kept g g.
Proof. intros g. split; [tauto | reflexivity]. Qed.

Lemma log_kept_trans :
  forall g1 g2 g3, log_kept g1 g2 -> log_kept g2 g3 -> log_kept g1 g3.
Proof.
  intros g1 g2 g3 [Ha Hb] [Hc Hd]. split; [tauto | congruence].
Qed.

Lemma lookup_some :
  forall m pid a,
    ai_security_profile_lookup hash_32 m pid = Some a ->
    exists p, nth_error (process_profiles m) a = Some p
              /\ Profile.pid p = pid.
Proof.
  intros m pid a H. unfold ai_security_profile_lookup in H.
  apply find_some in H. destruct H as [_ H].
  destruct (nth_error (process_profiles m) a) as [p|]; [|discriminate].
  exists p. split; [reflexivity | apply Z.eqb_eq; exact H].
Qed.

Lemma get_profile_some :
  forall g pid a,
    ai_security_get_profile hash_32 g pid = Some a ->
    exists p, profile_at hash_32 g pid p.
Proof.
  intros g pid a H. unfold ai_security_get_profile in H.
  destruct (ai_sec_mgr g) as [m|] eqn:Hm; [|discriminate].
  destruct (lookup_some m pid a H) as (p & Hn & _).
  exists p, m, a. repeat split; assumption.
Qed.

Lemma create_profile_log_kept :
  forall k task now g,
    log_kept g
      (snd (ai_security_create_profile hash_32 full_name_hash k task now g)).
Proof.
  intros k task now g. unfold ai_security_create_profile.
  destruct (ai_sec_mgr g) as [m|] eqn:Hm; [|apply log_kept_refl].
  destruct (ai_security_get_profile hash_32 g (task_pid task));
    [apply log_kept_refl|].
  destruct (profile_ok k); simpl; [|apply log_kept_refl].
  split; [discriminate | unfold event_log; simpl; rewrite Hm; reflexivity].
Qed.

Lemma create_event_mgr :
  forall ok ty now g,
    ai_sec_mgr (snd (ai_security_create_event ok ty now g)) = ai_sec_mgr g.
Proof.
  intros ok ty now g. unfold ai_security_create_event.
  destruct ok; reflexivity.
Qed.

Lemma create_event_result :
  forall ok ty now g r e g',
    ai_security_create_event ok ty now g = (r, Some e, g') ->
    e = new_event (u64 (event_id_counter g + 1)) ty now
    /\ ai_sec_mgr g' = ai_sec_mgr g
    /\ ai_security_threat_threshold g' = ai_security_threat_threshold g.
Proof.
  intros ok ty now g r e g' H. unfold ai_security_create_event in H.
  destruct ok; simpl in H; inversion H; subst. repeat split.
Qed.

Lemma create_event_failure :
  forall ty now g,
    ai_security_create_event false ty now g = (- ENOMEM, None, g).
Proof. reflexivity. Qed.

Lemma analyze_event_log_kept :
  forall e g, log_kept g (snd (ai_security_analyze_event hash_32 e g)).
Proof.
  intros e g. unfold ai_security_analyze_event.
  destruct (ai_sec_mgr g) as [m|] eqn:Hm; [|apply log_kept_refl].
  destruct (ai_security_get_profile hash_32 g (Event.pid e)) as [a|];
    [|apply log_kept_refl].
  destruct (nth_error (process_profiles m) a) as [p|]; [|apply log_kept_refl].
  destruct (analyze_locked (ai_security_threat_threshold g) e p). simpl.
  split; [discriminate | unfold event_log; simpl; rewrite Hm; reflexivity].
Qed.

Lemma analyze_event_counters_kept :
  forall e g,
    event_counters_kept g (snd (ai_security_analyze_event hash_32 e g)).
Proof.
  intros e g. unfold ai_security_analyze_event, event_counters_kept.
  destruct (ai_sec_mgr g) as [m|] eqn:Hm; simpl; [|rewrite Hm; exact I].
  destruct (ai_security_get_profile hash_32 g (Event.pid e)) as [a|];
    simpl; [|rewrite Hm; tauto].
  destruct (nth_error (process_profiles m) a) as [p|];
    simpl; [|rewrite Hm; tauto].
  destruct (analyze_locked (ai_security_threat_threshold g) e p). simpl.
  tauto.
Qed.

Lemma make_decision_event :
  forall e g,
    snd (fst (ai_security_make_decision hash_32 e g)) = assessed hash_32 e g.
Proof.
  intros e g. unfold ai_security_make_decision, assessed.
  destruct (ai_security_analyze_event hash_32 e g) as [[r e'] g1].
  destruct (ai_sec_mgr g1); reflexivity.
Qed.

Lemma make_decision_log_kept :
  forall e g, log_kept g (snd (ai_security_make_decision hash_32 e g)).
Proof.
  intros e g. unfold ai_security_make_decision.
  pose proof (analyze_event_log_kept e g) as Hk.
  destruct (ai_security_analyze_event hash_32 e g) as [[r e'] g1].
  simpl in Hk.
  destruct (ai_sec_mgr g1) as [m1|] eqn:Hm1; [|exact Hk].
  eapply log_kept_trans; [exact Hk|]. simpl.
  split; [discriminate | unfold event_log; simpl; rewrite Hm1; reflexivity].
Qed.

Lemma retain_event_log :
  forall e g,
    ai_sec_mgr g <> None ->
    event_log (retain_event e g) = event_log g ++ [e].
Proof.
  intros e g Hm. unfold retain_event, event_log.
  destruct (ai_sec_mgr g) as [m|]; [reflexivity | congruence].
Qed.


(** *** Event retention *)

Lemma create_event_log_kept :
  forall ok ty now g,
    log_kept g (snd (ai_security_create_event ok ty now g)).
Proof.
  intros ok ty now g. unfold log_kept, event_log.
  rewrite create_event_mgr. split; [tauto | reflexivity].
Qed.

Lemma profile_at_same_mgr :
  forall g g' pid p,
    ai_sec_mgr g' = ai_sec_mgr g -> profile_at hash_32 g pid p -> profile_at hash_32 g' pid p.
Proof.
  intros g g' pid p Heq (m & a & Hm & Hl & Hn).
  exists m, a. rewrite Heq. repeat split; assumption.
Qed.

Lemma formula_score_privilege_escalation :
  forall e p,
    Event.type e = AI_SECURITY_EVENT_PRIVILEGE_ESCALATION ->
    60 <= formula_score e p.
Proof.
  intros e p Hty. unfold formula_score, spec_adjustments.
  rewrite base_score_tests, Hty.
  destruct (F32.ltb (Profile.trust_score p) f_0_3),
    (5 <? Profile.anomaly_count p); vm_compute; discriminate.
Qed.

(** The file-access hook logs its event exactly when the score is above 20. *)
Lemma file_permission_retention :
  forall k f task now g e,
    submitted (ai_security_file_permission hash_32 full_name_hash
                 k f task now g) = Some e ->
    (20 < Event.threat_score e ->
     event_log (after (ai_security_file_permission hash_32 full_name_hash
                         k f task now g)) = event_log g ++ [e])
    /\ (Event.threat_score e <= 20 ->
        event_log (after (ai_security_file_permission hash_32 full_name_hash
                            k f task now g)) = event_log g).
Proof.
  intros k f task now g e. unfold ai_security_file_permission.
  destruct (ai_sec_mgr g) as [m|] eqn:Hm; [|discriminate].
  destruct (ai_security_is_system_process (task_pid task)); [discriminate|].
  set (g1 := match ai_security_get_profile hash_32 g (task_pid task) with
             | Some _ => g
             | None => snd (ai_security_create_profile hash_32 full_name_hash
                              k task now g)
             end).
  assert (H1 : log_kept g g1).
  { subst g1. destruct (ai_security_get_profile hash_32 g (task_pid task));
      [apply log_kept_refl | apply create_profile_log_kept]. }
  destruct (ai_security_get_profile hash_32 g1 (task_pid task));
    [|discriminate].
  pose proof (create_event_log_kept (event_ok k)
                AI_SECURITY_EVENT_FILE_ACCESS now g1) as H2.
  destruct (ai_security_create_event (event_ok k)
              AI_SECURITY_EVENT_FILE_ACCESS now g1) as [[rc [e0|]] g2];
    [|discriminate].
  simpl in H2.
  match goal with
  | |- context [ai_security_make_decision hash_32 ?e1 g2] =>
      pose proof (make_decision_log_kept e1 g2) as H3;
      destruct (ai_security_make_decision hash_32 e1 g2) as [[dec e2] g3]
  end.
  cbn [fst snd] in H3. cbn [submitted after].
  intros Hsub. injection Hsub as <-.
  assert (H : log_kept g g3)
    by (eapply log_kept_trans; [eapply log_kept_trans|]; eassumption).
  destruct H as [Hsome Hlog].
  assert (Hg3 : ai_sec_mgr g3 <> None) by (apply Hsome; congruence).
  split; intros Hs.
  - destruct (Z.gtb_spec (Event.threat_score e2) 20); [|lia].
    rewrite (retain_event_log e2 g3 Hg3), Hlog. reflexivity.
  - destruct (Z.gtb_spec (Event.threat_score e2) 20); [lia|].
    exact Hlog.
Qed.

(** The setuid hook tests [> 30], and its events always score at least 60;
    so it too logs exactly when the score is above 20 -- always. *)
Lemma task_fix_setuid_retention :
  forall k new_uid old_uid task now g e,
    submitted (ai_security_task_fix_setuid hash_32
                 k new_uid old_uid task now g) = Some e ->
    60 <= Event.threat_score e
    /\ event_log (after (ai_security_task_fix_setuid hash_32
                           k new_uid old_uid task now g))
       = event_log g ++ [e].
Proof.
  intros k new_uid old_uid task now g e. unfold ai_security_task_fix_setuid.
  destruct (ai_sec_mgr g) as [m|] eqn:Hm; [|discriminate].
  destruct (ai_security_is_system_process (task_pid task)); [discriminate|].
  destruct (new_uid =? old_uid); [discriminate|].
  destruct (ai_security_get_profile hash_32 g (task_pid task)) as [a|] eqn:Hget;
    [|discriminate].
  destruct (get_profile_some g _ a Hget) as [p Hat].
  pose proof (create_event_log_kept (event_ok k)
                AI_SECURITY_EVENT_PRIVILEGE_ESCALATION now g) as H2.
  destruct (ai_security_create_event (event_ok k)
              AI_SECURITY_EVENT_PRIVILEGE_ESCALATION now g)
    as [[rc [e0|]] g1] eqn:Hce; [|discriminate].
  simpl in H2.
  destruct (create_event_result _ _ _ _ _ _ _ Hce) as (He0 & Hmgr & Hthr).
  match goal with
  | |- context [ai_security_make_decision hash_32 ?e1 g1] =>
      pose proof (make_decision_log_kept e1 g1) as H3;
      pose proof (make_decision_event e1 g1) as H4;
      assert (Hscore : Event.threat_score (assessed hash_32 e1 g1)
                       = formula_score e1 p)
        by (rewrite (assessed_found g1 e1 p
                       (profile_at_same_mgr g g1 _ p Hmgr Hat));
            apply analyze_locked_score; subst e0; reflexivity);
      assert (Hty : Event.type e1 = AI_SECURITY_EVENT_PRIVILEGE_ESCALATION)
        by (subst e0; reflexivity);
      pose proof (formula_score_privilege_escalation e1 p Hty) as H60;
      destruct (ai_security_make_decision hash_32 e1 g1) as [[ret e2] g2]
  end.
  cbn [fst snd] in H3, H4. cbn [submitted after].
  intros Hsub. injection Hsub as <-.
  rewrite H4, Hscore.
  assert (H : log_kept g g2) by (eapply log_kept_trans; eassumption).
  destruct H as [Hsome Hlog].
  assert (Hg2 : ai_sec_mgr g2 <> None) by (apply Hsome; congruence).
  split; [exact H60|].
  match goal with
  | |- context [?s >? 30] => destruct (Z.gtb_spec s 30); [|lia]
  end.
  rewrite (retain_event_log _ g2 Hg2), Hlog. reflexivity.
Qed.


Lemma list_neq_snoc : forall (A : Type) (l : list A) (x : A), l ++ [x] <> l.
Proof.
  intros A l x H. rewrite <- (app_nil_r l) in H at 2.
  apply app_inv_head in H. discriminate.
Qed.

(** C5.  For every event submitted through the file-access hook or the
    privilege-escalation hook, the event is appended to the global event
    log if and only if its threat score is above 20; an event scoring 20
    or less is freed and the log is left as it was. *)
Theorem hook_event_retained_iff_score_above_20 :
  forall k f new_uid old_uid task now g r e,
    r = ai_security_file_permission hash_32 full_name_hash k f task now g
    \/ r = ai_security_task_fix_setuid hash_32 k new_uid old_uid task now g ->
    submitted r = Some e ->
    (20 < Event.threat_score e <-> event_log (after r) = event_log g ++ [e])
    /\ (Event.threat_score e <= 20 -> event_log (after r) = event_log g).
Proof.
  intros k f new_uid old_uid task now g r e [Hr | Hr] Hsub; subst r.
  - destruct (file_permission_retention k f task now g e Hsub) as [Hhi Hlo].
    split; [split|]; [exact Hhi | | exact Hlo].
    intros Hlog. destruct (Z.lt_ge_cases 20 (Event.threat_score e)) as [|Hle];
      [assumption|].
    rewrite Hlo in Hlog by lia. symmetry in Hlog.
    apply list_neq_snoc in Hlog. contradiction.
  - destruct (task_fix_setuid_retention k new_uid old_uid task now g e Hsub)
      as [H60 Hlog].
    split; [split|]; intros; (lia || exact Hlog).
Qed.

(** The process-creation hook analyses its event and frees it: the log is
    never extended there. *)
Lemma task_create_never_logs :
  forall k task now g,
    event_log (after (ai_security_task_create hash_32 k task now g))
    = event_log g.
Proof.
  intros k task now g. unfold ai_security_task_create.
  destruct (ai_sec_mgr g) as [m|] eqn:Hm; [|reflexivity].
  destruct (ai_security_is_system_process (task_pid task)); [reflexivity|].
  destruct (ai_security_get_profile hash_32 g (task_pid task));
    [|reflexivity].
  pose proof (create_event_log_kept (event_ok k)
                AI_SECURITY_EVENT_PROCESS_EXEC now g) as H2.
  destruct (ai_security_create_event (event_ok k)
              AI_SECURITY_EVENT_PROCESS_EXEC now g) as [[rc [e0|]] g1];
    cbn [fst snd] in H2; [|exact (proj2 H2)].
  match goal with
  | |- context [ai_security_analyze_event hash_32 ?e1 g1] =>
      pose proof (analyze_event_log_kept e1 g1) as H3;
      destruct (ai_security_analyze_event hash_32 e1 g1) as [[r e2] g2]
  end.
  cbn [fst snd] in H3. cbn [after].
  rewrite (proj2 H3). exact (proj2 H2).
Qed.

(** *** Failure of event creation *)

Lemma event_counters_kept_refl : forall g, event_counters_kept g g.
Proof.
  intros g. unfold event_counters_kept.
  destruct (ai_sec_mgr g); tauto.
Qed.

Lemma create_profile_counters_kept :
  forall k task now g,
    event_counters_kept g
      (snd (ai_security_create_profile hash_32 full_name_hash k task now g)).
Proof.
  intros k task now g. unfold ai_security_create_profile.
  destruct (ai_sec_mgr g) as [m|] eqn:Hm;
    [|apply event_counters_kept_refl].
  destruct (ai_security_get_profile hash_32 g (task_pid task));
    [apply event_counters_kept_refl|].
  destruct (profile_ok k); [|apply event_counters_kept_refl].
  unfold event_counters_kept. rewrite Hm. simpl. tauto.
Qed.

(** C6, as the code has it.  When the allocation of the event fails, the
    submitting hook returns 0 (Allow: it fails open) and keeps no record
    of the failure: no event is built, the event log and the counters of
    processed events, detected threats, blocked threats and false
    positives are what they were, and when the subject already had a
    profile the whole state is unchanged.  The manager has no
    internal-error counter. *)
Theorem event_creation_failure_fails_open_unrecorded :
  forall k f new_uid old_uid task now g,
    event_ok k = false ->
    let r := ai_security_file_permission hash_32 full_name_hash
               k f task now g in
    let r' := ai_security_task_fix_setuid hash_32
                k new_uid old_uid task now g in
    status r = 0 /\ submitted r = None
    /\ event_log (after r) = event_log g
    /\ event_counters_kept g (after r)
    /\ (ai_security_get_profile hash_32 g (task_pid task) <> None ->
        after r = g)
    /\ status r' = 0 /\ submitted r' = None /\ after r' = g.
Proof.
  intros k f new_uid old_uid task now g Hfail r r'. subst r r'.
  unfold ai_security_file_permission, ai_security_task_fix_setuid.
  rewrite Hfail.
  destruct (ai_sec_mgr g) as [m|] eqn:Hm.
  2:{ cbn [hook_return status submitted after].
      repeat split; try reflexivity. apply event_counters_kept_refl. }
  destruct (ai_security_is_system_process (task_pid task)).
  { cbn [hook_return status submitted after].
    repeat split; try reflexivity. apply event_counters_kept_refl. }
  pose proof (create_profile_log_kept k task now g) as Hlk.
  pose proof (create_profile_counters_kept k task now g) as Hck.
  destruct (ai_security_get_profile hash_32 g (task_pid task)) as [a|] eqn:Hg.
  - rewrite Hg, !create_event_failure.
    destruct (new_uid =? old_uid);
      cbn [hook_return status submitted after];
      repeat split; try reflexivity; apply event_counters_kept_refl.
  - rewrite !create_event_failure.
    set (g1 := snd (ai_security_create_profile hash_32 full_name_hash
                      k task now g)) in *.
    assert (Hfile :
      forall r,
        r = match ai_security_get_profile hash_32 g1 (task_pid task) with
            | Some _ => hook_return 0 g1
            | None => hook_return 0 g1
            end ->
        status r = 0 /\ submitted r = None /\ after r = g1).
    { intros r ->.
      destruct (ai_security_get_profile hash_32 g1 (task_pid task));
        repeat split. }
    destruct (Hfile _ eq_refl) as (Hs & Hsub & Haft).
    rewrite Hs, Hsub, Haft.
    destruct (new_uid =? old_uid);
      cbn [hook_return status submitted after];
      repeat split; try reflexivity; try exact (proj2 Hlk); try exact Hck;
      intros Hcontra; congruence.
Qed.


(** *** The learning pass *)

Lemma learn_profile_restores :
  forall now p,
    restorable p ->
    Profile.trust_score (learn_profile now p)
    = F32.add (Profile.trust_score p) f_0_01
    /\ Profile.risk_score (learn_profile now p)
       = F32.max f_0_0 (F32.sub (Profile.risk_score p) f_0_005).
Proof.
  intros now p [Han Hlt]. unfold learn_profile; simpl.
  rewrite Han, Hlt. split; reflexivity.
Qed.

Lemma learn_profile_keeps :
  forall now p,
    ~ restorable p ->
    Profile.trust_score (learn_profile now p) = Profile.trust_score p
    /\ Profile.risk_score (learn_profile now p) = Profile.risk_score p.
Proof.
  intros now p Hno. unfold learn_profile; simpl.
  destruct (Z.eqb_spec (Profile.anomaly_count p) 0) as [Han|Han];
    [|split; reflexivity].
  destruct (F32.ltb (Profile.trust_score p) f_0_8) eqn:Hlt;
    [|split; reflexivity].
  exfalso. apply Hno. split; assumption.
Qed.

Lemma restorable_dec : forall p, restorable p \/ ~ restorable p.
Proof.
  intros p. unfold restorable.
  destruct (Z.eq_dec (Profile.anomaly_count p) 0) as [Han|Han];
    [|right; tauto].
  destruct (F32.ltb (Profile.trust_score p) f_0_8);
    [left; tauto | right; intros [_ H]; discriminate].
Qed.

Lemma learn_profile_anomaly_count :
  forall now p,
    Profile.anomaly_count (learn_profile now p) = Profile.anomaly_count p.
Proof. reflexivity. Qed.

Lemma learn_passes_anomaly_count :
  forall nows p,
    Profile.anomaly_count (learn_passes nows p) = Profile.anomaly_count p.
Proof.
  intros nows. unfold learn_passes.
  induction nows as [|now rest IH]; intros p; simpl; [reflexivity|].
  rewrite IH. apply learn_profile_anomaly_count.
Qed.

(** Trust at or above 0.8 (or a NaN) is a fixed point of the pass. *)
Lemma learn_passes_trust_fixed :
  forall nows p,
    F32.ltb (Profile.trust_score p) f_0_8 = false ->
    Profile.trust_score (learn_passes nows p) = Profile.trust_score p.
Proof.
  intros nows. unfold learn_passes.
  induction nows as [|now rest IH]; intros p Hge; simpl; [reflexivity|].
  assert (Hkeep : Profile.trust_score (learn_profile now p)
                  = Profile.trust_score p).
  { apply learn_profile_keeps. intros [_ H]. congruence. }
  rewrite IH; [exact Hkeep | rewrite Hkeep; exact Hge].
Qed.

(** Whatever the number of passes, trust is the starting value or one
    increment above a value that was below 0.8. *)
Lemma learn_passes_trust :
  forall nows p,
    Profile.trust_score (learn_passes nows p) = Profile.trust_score p
    \/ exists t,
         F32.ltb t f_0_8 = true
         /\ Profile.trust_score (learn_passes nows p) = F32.add t f_0_01.
Proof.
  intros nows. unfold learn_passes.
  induction nows as [|now rest IH]; intros p; simpl; [left; reflexivity|].
  destruct (IH (learn_profile now p)) as [Heq | Hex]; [|right; exact Hex].
  destruct (restorable_dec p) as [Hr | Hr].
  - right. exists (Profile.trust_score p). split; [apply Hr|].
    rewrite Heq. apply learn_profile_restores. exact Hr.
  - left. rewrite Heq. apply learn_profile_keeps. exact Hr.
Qed.

Lemma leb_0_8_0_81 :
  forall t, F32.leb t f_0_8 = true -> F32.leb t f_0_81 = true.
Proof.
  intros t. rewrite f_0_8_value, f_0_81_value.
  unfold F32.leb, SFleb, SFcompare.
  destruct t as [s | s | | [|] m e]; trivial.
  rewrite (compare_cont_Eq m 13421773), (compare_cont_Eq m 13589545).
  destruct (Z.compare_spec e (-24)) as [Heq | Hlt | Hgt]; trivial.
  intros H.
  destruct (Pos.compare_spec m 13589545) as [E' | L' | G']; trivial.
  apply Pos2Z.pos_lt_pos in G'.
  destruct (Pos.compare_spec m 13421773) as [E | L | G].
  - subst m. lia.
  - apply Pos2Z.pos_lt_pos in L. lia.
  - discriminate H.
Qed.

(** No number of passes takes a binary32 trust that starts at or below
    0.81 above 0.81. *)
Lemma learn_passes_trust_bound :
  forall nows p,
    F32.valid (Profile.trust_score p) = true ->
    F32.leb (Profile.trust_score p) f_0_81 = true ->
    F32.valid (Profile.trust_score (learn_passes nows p)) = true
    /\ F32.leb (Profile.trust_score (learn_passes nows p)) f_0_81 = true.
Proof.
  intros nows. unfold learn_passes.
  induction nows as [|now rest IH]; intros p Hv Hle; simpl;
    [split; assumption|].
  apply IH.
  - destruct (restorable_dec p) as [Hr | Hr].
    + rewrite (proj1 (learn_profile_restores now p Hr)).
      apply add_0_01_below_0_8; [exact Hv | apply Hr].
    + rewrite (proj1 (learn_profile_keeps now p Hr)). exact Hv.
  - destruct (restorable_dec p) as [Hr | Hr].
    + rewrite (proj1 (learn_profile_restores now p Hr)).
      apply add_0_01_below_0_8; [exact Hv | apply Hr].
    + rewrite (proj1 (learn_profile_keeps now p Hr)). exact Hle.
Qed.

Lemma learning_work_profiles :
  forall now g m,
    ai_sec_mgr g = Some m ->
    ai_security_learning_enabled g = true ->
    exists m',
      ai_sec_mgr (ai_security_learning_work now g) = Some m'
      /\ ai_security_learning_enabled (ai_security_learning_work now g) = true
      /\ process_profiles m' = map (learn_profile now) (process_profiles m).
Proof.
  intros now g m Hm Hen. unfold ai_security_learning_work.
  rewrite Hm, Hen. simpl. eexists. repeat split; try reflexivity. exact Hen.
Qed.

Lemma learning_passes_profiles :
  forall nows g m,
    ai_sec_mgr g = Some m ->
    ai_security_learning_enabled g = true ->
    exists m',
      ai_sec_mgr (learning_passes nows g) = Some m'
      /\ process_profiles m' = map (learn_passes nows) (process_profiles m).
Proof.
  intros nows. unfold learning_passes, learn_passes.
  induction nows as [|now rest IH]; intros g m Hm Hen; simpl.
  - exists m. split; [exact Hm | symmetry; apply map_id].
  - destruct (learning_work_profiles now g m Hm Hen) as (m1 & Hm1 & Hen1 & Hp1).
    destruct (IH _ m1 Hm1 Hen1) as (m' & Hm' & Hp').
    exists m'. split; [exact Hm'|].
    rewrite Hp', Hp1, map_map. reflexivity.
Qed.

(** C4, as the code has it.  A learning pass adds 0.01 to a profile's
    trust and subtracts 0.005 from its risk (clamped at 0) exactly when
    anomaly_count is 0 and trust is below 0.8; otherwise both are left as
    they are.  Over any number of consecutive passes the anomaly count is
    untouched, a trust that is not below 0.8 never moves, the final trust
    is either the starting trust or one 0.01 increment above a value that
    was below 0.8, and a trust that starts at or below 0.8 never exceeds
    0.81. *)
Theorem learning_pass_restores_trust_below_0_8 :
  forall now nows g m a p,
    ai_sec_mgr g = Some m ->
    ai_security_learning_enabled g = true ->
    nth_error (process_profiles m) a = Some p ->
    (exists m1 p1,
        ai_sec_mgr (ai_security_learning_work now g) = Some m1
        /\ nth_error (process_profiles m1) a = Some p1
        /\ (restorable p ->
            Profile.trust_score p1 = F32.add (Profile.trust_score p) f_0_01
            /\ Profile.risk_score p1
               = F32.max f_0_0 (F32.sub (Profile.risk_score p) f_0_005))
        /\ (~ restorable p ->
            Profile.trust_score p1 = Profile.trust_score p
            /\ Profile.risk_score p1 = Profile.risk_score p))
    /\ (exists mn pn,
           ai_sec_mgr (learning_passes nows g) = Some mn
           /\ nth_error (process_profiles mn) a = Some pn
           /\ Profile.anomaly_count pn = Profile.anomaly_count p
           /\ (F32.ltb (Profile.trust_score p) f_0_8 = false ->
               Profile.trust_score pn = Profile.trust_score p)
           /\ (Profile.trust_score pn = Profile.trust_score p
               \/ exists t,
                    F32.ltb t f_0_8 = true
                    /\ Profile.trust_score pn = F32.add t f_0_01)
           /\ (F32.valid (Profile.trust_score p) = true ->
               F32.leb (Profile.trust_score p) f_0_8 = true ->
               F32.leb (Profile.trust_score pn) f_0_81 = true)).
Proof.
  intros now nows g m a p Hm Hen Hn. split.
  - destruct (learning_work_profiles now g m Hm Hen) as (m1 & Hm1 & _ & Hp1).
    exists m1, (learn_profile now p). split; [exact Hm1|]. split.
    + rewrite Hp1. apply map_nth_error. exact Hn.
    + split; [apply learn_profile_restores | apply learn_profile_keeps].
  - destruct (learning_passes_profiles nows g m Hm Hen) as (mn & Hmn & Hpn).
    exists mn, (learn_passes nows p). split; [exact Hmn|]. split.
    + rewrite Hpn. apply map_nth_error. exact Hn.
    + split; [apply learn_passes_anomaly_count|].
      split; [apply learn_passes_trust_fixed|].
      split; [apply learn_passes_trust|].
      intros Hv Hle.
      apply learn_passes_trust_bound; [exact Hv|].
      apply leb_0_8_0_81. exact Hle.
Qed.


(** *** The profile store *)

Lemma store_consistent_same :
  forall m m',
    profile_hash m' = profile_hash m ->
    map Profile.pid (process_profiles m')
    = map Profile.pid (process_profiles m) ->
    store_consistent hash_32 m -> store_consistent hash_32 m'.
Proof.
  unfold store_consistent. intros m m' Hh Hp. rewrite Hh, Hp. tauto.
Qed.

Lemma list_set_same_pid :
  forall l a p p',
    nth_error l a = Some p ->
    Profile.pid p' = Profile.pid p ->
    map Profile.pid (list_set l a p') = map Profile.pid l.
Proof.
  induction l as [|h t IH]; intros a p p' Hn Hpid.
  - reflexivity.
  - destruct a as [|a]; simpl in *.
    + injection Hn as ->. rewrite Hpid. reflexivity.
    + rewrite (IH a p p' Hn Hpid). reflexivity.
Qed.

Lemma nth_error_pids :
  forall (ps : list ai_security_profile) a pid,
    nth_error (map Profile.pid ps) a = Some pid ->
    exists p, nth_error ps a = Some p /\ Profile.pid p = pid.
Proof.
  intros ps a pid H. rewrite nth_error_map in H.
  destruct (nth_error ps a) as [p|]; [|discriminate].
  exists p. split; [reflexivity | injection H as ->; reflexivity].
Qed.

(** A failed lookup means the pid has no profile at all. *)
Lemma lookup_none_not_in :
  forall m pid,
    store_consistent hash_32 m ->
    ai_security_profile_lookup hash_32 m pid = None ->
    ~ In pid (map Profile.pid (process_profiles m)).
Proof.
  intros m pid (_ & Hall & _) Hnone Hin.
  apply In_nth_error in Hin. destruct Hin as [a Ha].
  pose proof (Hall a pid Ha) as Hchain.
  unfold ai_security_profile_lookup in Hnone.
  pose proof (find_none _ _ Hnone a Hchain) as Hf. simpl in Hf.
  destruct (nth_error_pids _ _ _ Ha) as (p & Hp & Hpid).
  rewrite Hp, Hpid, Z.eqb_refl in Hf. discriminate.
Qed.

(** A profile is found by the lookup of its pid, at its own position. *)
Lemma lookup_finds :
  forall m a p,
    store_consistent hash_32 m ->
    nth_error (process_profiles m) a = Some p ->
    ai_security_profile_lookup hash_32 m (Profile.pid p) = Some a.
Proof.
  intros m a p (_ & Hall & Hnd) Hn.
  pose proof (map_nth_error Profile.pid _ _ Hn) as Ha.
  pose proof (Hall a _ Ha) as Hchain.
  destruct (ai_security_profile_lookup hash_32 m (Profile.pid p))
    as [a'|] eqn:Hl.
  - destruct (lookup_some m _ a' Hl) as (p' & Hn' & Hpid).
    pose proof (map_nth_error Profile.pid _ _ Hn') as Ha'.
    rewrite Hpid in Ha'.
    f_equal. apply (proj1 (NoDup_nth_error _) Hnd).
    + apply nth_error_Some. rewrite Ha'. discriminate.
    + rewrite Ha, Ha'. reflexivity.
  - unfold ai_security_profile_lookup in Hl.
    pose proof (find_none _ _ Hl a Hchain) as Hf. simpl in Hf.
    rewrite Hn, Z.eqb_refl in Hf. discriminate.
Qed.

Lemma create_profile_store_ok :
  forall k task now g,
    store_ok hash_32 g ->
    store_ok hash_32
      (snd (ai_security_create_profile hash_32 full_name_hash k task now g)).
Proof.
  intros k task now g Hok. unfold ai_security_create_profile.
  destruct (ai_sec_mgr g) as [m|] eqn:Hm; [|exact Hok].
  unfold ai_security_get_profile. rewrite Hm.
  destruct (ai_security_profile_lookup hash_32 m (task_pid task)) eqn:Hl;
    [exact Hok|].
  destruct (profile_ok k); [|exact Hok].
  unfold store_ok in *. rewrite Hm in Hok. simpl.
  pose proof (lookup_none_not_in m _ Hok Hl) as Hfresh.
  destruct Hok as (Hchain & Hall & Hnd).
  unfold store_consistent, link_profile, ai_security_profile_add_to_hash.
  simpl. rewrite map_app. simpl.
  set (pids := map Profile.pid (process_profiles m)) in *.
  assert (Hlen : List.length (process_profiles m) = List.length pids)
    by (subst pids; symmetry; apply length_map).
  rewrite Hlen. repeat split.
  - intros b a Hin.
    destruct (Z.eqb_spec b (hash_32 (task_pid task))) as [Hb|Hb].
    + destruct Hin as [<- | Hin].
      * exists (task_pid task). split; [apply nth_error_snoc | congruence].
      * destruct (Hchain b a Hin) as (pid & Hn & Hh).
        exists pid. split; [|exact Hh].
        rewrite nth_error_app1; [exact Hn|].
        apply nth_error_Some. rewrite Hn. discriminate.
    + destruct (Hchain b a Hin) as (pid & Hn & Hh).
      exists pid. split; [|exact Hh].
      rewrite nth_error_app1; [exact Hn|].
      apply nth_error_Some. rewrite Hn. discriminate.
  - intros a pid Hn.
    destruct (Nat.lt_ge_cases a (List.length pids)) as [Hlt|Hge].
    + rewrite nth_error_app1 in Hn by exact Hlt.
      pose proof (Hall a pid Hn) as Hin.
      destruct (Z.eqb_spec (hash_32 pid) (hash_32 (task_pid task)));
        [right|]; exact Hin.
    + rewrite nth_error_app2 in Hn by exact Hge.
      destruct (a - List.length pids)%nat as [|d] eqn:Hd.
      * simpl in Hn. injection Hn as <-.
        rewrite Z.eqb_refl. left. lia.
      * simpl in Hn. destruct d; discriminate.
  - apply NoDup_app; [exact Hnd | repeat constructor; intros [] |].
    intros pid Hin [<- | []]. contradiction.
Qed.

Lemma analyze_event_store_ok :
  forall e g,
    store_ok hash_32 g ->
    store_ok hash_32 (snd (ai_security_analyze_event hash_32 e g)).
Proof.
  intros e g Hok. unfold ai_security_analyze_event.
  destruct (ai_sec_mgr g) as [m|] eqn:Hm; [|exact Hok].
  destruct (ai_security_get_profile hash_32 g (Event.pid e)) as [a|];
    [|exact Hok].
  destruct (nth_error (process_profiles m) a) as [p|] eqn:Hn; [|exact Hok].
  destruct (analyze_locked (ai_security_threat_threshold g) e p)
    as [e' p'] eqn:Han.
  unfold store_ok in *. rewrite Hm in Hok. simpl.
  apply (store_consistent_same m); [reflexivity | | exact Hok].
  simpl. apply (list_set_same_pid _ a p); [exact Hn|].
  replace p' with (snd (analyze_locked (ai_security_threat_threshold g) e p))
    by (rewrite Han; reflexivity).
  reflexivity.
Qed.

Lemma make_decision_store_ok :
  forall e g,
    store_ok hash_32 g ->
    store_ok hash_32 (snd (ai_security_make_decision hash_32 e g)).
Proof.
  intros e g Hok. unfold ai_security_make_decision.
  pose proof (analyze_event_store_ok e g Hok) as H1.
  destruct (ai_security_analyze_event hash_32 e g) as [[r e'] g1].
  cbn [fst snd] in H1.
  destruct (ai_sec_mgr g1) as [m1|] eqn:Hm1; [|exact H1].
  unfold store_ok in *. rewrite Hm1 in H1. simpl.
  apply (store_consistent_same m1); [reflexivity | reflexivity | exact H1].
Qed.

Lemma retain_event_store_ok :
  forall e g, store_ok hash_32 g -> store_ok hash_32 (retain_event e g).
Proof.
  intros e g Hok. unfold retain_event.
  destruct (ai_sec_mgr g) as [m|] eqn:Hm; [|exact Hok].
  unfold store_ok in *. rewrite Hm in Hok. simpl.
  apply (store_consistent_same m); [reflexivity | reflexivity | exact Hok].
Qed.

Lemma create_event_store_ok :
  forall ok ty now g,
    store_ok hash_32 g ->
    store_ok hash_32 (snd (ai_security_create_event ok ty now g)).
Proof.
  intros ok ty now g Hok. unfold store_ok.
  rewrite create_event_mgr. exact Hok.
Qed.

Lemma learn_profile_pid :
  forall now ps,
    map Profile.pid (map (learn_profile now) ps) = map Profile.pid ps.
Proof.
  intros now ps. rewrite map_map. apply map_ext. reflexivity.
Qed.

Lemma learning_work_store_ok :
  forall now g,
    store_ok hash_32 g -> store_ok hash_32 (ai_security_learning_work now g).
Proof.
  intros now g Hok. unfold ai_security_learning_work.
  destruct (ai_sec_mgr g) as [m|] eqn:Hm; [|exact Hok].
  destruct (ai_security_learning_enabled g); [|exact Hok].
  unfold store_ok in *. rewrite Hm in Hok. simpl.
  apply (store_consistent_same m);
    [reflexivity | apply learn_profile_pid | exact Hok].
Qed.


Lemma file_permission_store_ok :
  forall k f task now g,
    store_ok hash_32 g ->
    store_ok hash_32
      (after (ai_security_file_permission hash_32 full_name_hash
                k f task now g)).
Proof.
  intros k f task now g Hok. unfold ai_security_file_permission.
  destruct (ai_sec_mgr g) as [m|] eqn:Hm; [|exact Hok].
  destruct (ai_security_is_system_process (task_pid task)); [exact Hok|].
  set (g1 := match ai_security_get_profile hash_32 g (task_pid task) with
             | Some _ => g
             | None => snd (ai_security_create_profile hash_32 full_name_hash
                              k task now g)
             end).
  assert (H1 : store_ok hash_32 g1).
  { subst g1. destruct (ai_security_get_profile hash_32 g (task_pid task));
      [exact Hok | apply create_profile_store_ok; exact Hok]. }
  destruct (ai_security_get_profile hash_32 g1 (task_pid task));
    [|exact H1].
  pose proof (create_event_store_ok (event_ok k)
                AI_SECURITY_EVENT_FILE_ACCESS now g1 H1) as H2.
  destruct (ai_security_create_event (event_ok k)
              AI_SECURITY_EVENT_FILE_ACCESS now g1) as [[rc [e0|]] g2];
    cbn [fst snd] in H2; [|exact H2].
  match goal with
  | |- context [ai_security_make_decision hash_32 ?e1 g2] =>
      pose proof (make_decision_store_ok e1 g2 H2) as H3;
      destruct (ai_security_make_decision hash_32 e1 g2) as [[dec e2] g3]
  end.
  cbn [fst snd] in H3. cbn [after].
  destruct (Event.threat_score e2 >? 20);
    [apply retain_event_store_ok|]; exact H3.
Qed.

Lemma task_create_store_ok :
  forall k task now g,
    store_ok hash_32 g ->
    store_ok hash_32 (after (ai_security_task_create hash_32 k task now g)).
Proof.
  intros k task now g Hok. unfold ai_security_task_create.
  destruct (ai_sec_mgr g) as [m|] eqn:Hm; [|exact Hok].
  destruct (ai_security_is_system_process (task_pid task)); [exact Hok|].
  destruct (ai_security_get_profile hash_32 g (task_pid task));
    [|exact Hok].
  pose proof (create_event_store_ok (event_ok k)
                AI_SECURITY_EVENT_PROCESS_EXEC now g Hok) as H2.
  destruct (ai_security_create_event (event_ok k)
              AI_SECURITY_EVENT_PROCESS_EXEC now g) as [[rc [e0|]] g1];
    cbn [fst snd] in H2; [|exact H2].
  match goal with
  | |- context [ai_security_analyze_event hash_32 ?e1 g1] =>
      pose proof (analyze_event_store_ok e1 g1 H2) as H3;
      destruct (ai_security_analyze_event hash_32 e1 g1) as [[r e2] g2]
  end.
  exact H3.
Qed.

Lemma task_fix_setuid_store_ok :
  forall k new_uid old_uid task now g,
    store_ok hash_32 g ->
    store_ok hash_32
      (after (ai_security_task_fix_setuid hash_32
                k new_uid old_uid task now g)).
Proof.
  intros k new_uid old_uid task now g Hok.
  unfold ai_security_task_fix_setuid.
  destruct (ai_sec_mgr g) as [m|] eqn:Hm; [|exact Hok].
  destruct (ai_security_is_system_process (task_pid task)); [exact Hok|].
  destruct (new_uid =? old_uid); [exact Hok|].
  destruct (ai_security_get_profile hash_32 g (task_pid task));
    [|exact Hok].
  pose proof (create_event_store_ok (event_ok k)
                AI_SECURITY_EVENT_PRIVILEGE_ESCALATION now g Hok) as H2.
  destruct (ai_security_create_event (event_ok k)
              AI_SECURITY_EVENT_PRIVILEGE_ESCALATION now g)
    as [[rc [e0|]] g1];
    cbn [fst snd] in H2; [|exact H2].
  match goal with
  | |- context [ai_security_make_decision hash_32 ?e1 g1] =>
      pose proof (make_decision_store_ok e1 g1 H2) as H3;
      destruct (ai_security_make_decision hash_32 e1 g1) as [[ret e2] g2]
  end.
  cbn [fst snd] in H3. cbn [after].
  destruct (Event.threat_score e2 >? 30);
    [apply retain_event_store_ok|]; exact H3.
Qed.

Lemma initial_manager_consistent : store_consistent hash_32 initial_manager.
Proof.
  unfold store_consistent, initial_manager; simpl. repeat split.
  - intros b a [].
  - intros a pid H. destruct a; discriminate.
  - constructor.
Qed.

(** Every reachable state has a consistent store. *)
Lemma reachable_store_ok :
  forall g, reachable hash_32 full_name_hash g -> store_ok hash_32 g.
Proof.
  intros g H. induction H.
  - exact initial_manager_consistent.
  - apply create_profile_store_ok; assumption.
  - apply file_permission_store_ok; assumption.
  - apply task_create_store_ok; assumption.
  - apply task_fix_setuid_store_ok; assumption.
  - apply learning_work_store_ok; assumption.
  - exact IHreachable.
Qed.

(** X27.  As long as calls run one after another, each to completion,
    every subject id has at most one profile: in every state reached that
    way no two positions of the profile list carry the same pid, the
    lookup of a profile's pid returns that very profile, and creating a
    profile for a pid that already has one returns success without
    creating anything (the state is unchanged). *)
Theorem one_profile_per_subject :
  forall g m,
    reachable hash_32 full_name_hash g ->
    ai_sec_mgr g = Some m ->
    NoDup (map Profile.pid (process_profiles m))
    /\ (forall a1 a2 p1 p2,
          nth_error (process_profiles m) a1 = Some p1 ->
          nth_error (process_profiles m) a2 = Some p2 ->
          Profile.pid p1 = Profile.pid p2 -> a1 = a2)
    /\ (forall a p,
          nth_error (process_profiles m) a = Some p ->
          ai_security_get_profile hash_32 g (Profile.pid p) = Some a)
    /\ (forall k task now a,
          ai_security_get_profile hash_32 g (task_pid task) = Some a ->
          ai_security_create_profile hash_32 full_name_hash k task now g
          = (0, g)).
Proof.
  intros g m Hreach Hm.
  pose proof (reachable_store_ok g Hreach) as Hok.
  unfold store_ok in Hok. rewrite Hm in Hok.
  split; [apply Hok|]. split; [|split].
  - intros a1 a2 p1 p2 H1 H2 Hpid.
    pose proof (lookup_finds m a1 p1 Hok H1) as L1.
    pose proof (lookup_finds m a2 p2 Hok H2) as L2.
    rewrite Hpid in L1. congruence.
  - intros a p Hn. unfold ai_security_get_profile. rewrite Hm.
    apply lookup_finds; assumption.
  - intros k task now a Hget. unfold ai_security_create_profile.
    rewrite Hm, Hget. reflexivity.
Qed.

End Properties.

(** ** Worked examples *)

Lemma profile_at_g_with :
  forall p, profile_at bucket_of (g_with p) (Profile.pid p) p.
Proof.
  intros p.
  exists (link_profile bucket_of initial_manager p), 0%nat.
  split; [reflexivity|]. split; [|reflexivity].
  unfold ai_security_profile_lookup, link_profile,
    ai_security_profile_add_to_hash; simpl.
  rewrite Z.eqb_refl. simpl. rewrite Z.eqb_refl. reflexivity.
Qed.

Lemma e_privilege_defined : event_defined e_privilege.
Proof. intros H. exfalso. apply H. reflexivity. Qed.

Lemma e_file_defined : event_defined e_file.
Proof. intros H. exfalso. apply H. reflexivity. Qed.

(** Scenario B of the design document, run on the model. *)
Lemma analyze_event_threat_score_witness :
  Event.threat_score (assessed bucket_of e_privilege g_low_trust) = 80
  /\ Event.threat_level (assessed bucket_of e_privilege g_low_trust)
     = AI_SECURITY_THREAT_HIGH
  /\ Event.recommended_action (assessed bucket_of e_privilege g_low_trust)
     = AI_SECURITY_ACTION_BLOCK.
Proof.
  destruct (analyze_event_threat_score bucket_of g_low_trust e_privilege
              p_low_trust (profile_at_g_with p_low_trust)
              eq_refl e_privilege_defined) as (_ & _ & _ & Hscenario).
  apply Hscenario; try reflexivity. simpl. lia.
Defined.

Lemma analyze_event_recommended_action_witness :
  spec_action 75 80
    (Event.recommended_action (assessed bucket_of e_privilege g_low_trust)).
Proof.
  exact (analyze_event_recommended_action bucket_of g_low_trust e_privilege
           p_low_trust (profile_at_g_with p_low_trust)).
Defined.

(** A behaviour score of 0.875 scales to 87.5 exactly; the cast keeps 87. *)
Lemma analyze_event_confidence_truncates_witness :
  Event.confidence (assessed bucket_of e_file g_seven_eighths) = 87.
Proof.
  destruct (analyze_event_confidence_truncates bucket_of g_seven_eighths
              e_file p_seven_eighths (profile_at_g_with p_seven_eighths)
              eq_refl) as [Hconf _].
  rewrite Hconf. reflexivity.
Defined.

(** C9 as stated fails: with behaviour score 0.875 the scaled value is
    87.5, [round] gives 88, and the analysis reports 87. *)
Lemma confidence_is_not_rounded :
  profile_at bucket_of g_seven_eighths (Event.pid e_file) p_seven_eighths
  /\ Profile.behavior_score p_seven_eighths = S754_finite false 14680064 (-24)
  /\ spec_confidence p_seven_eighths = 88
  /\ Event.confidence (assessed bucket_of e_file g_seven_eighths) = 87
  /\ Event.confidence (assessed bucket_of e_file g_seven_eighths)
     <> spec_confidence p_seven_eighths.
Proof.
  split; [apply (profile_at_g_with p_seven_eighths)|].
  repeat split; try (vm_compute; reflexivity). vm_compute. discriminate.
Qed.

(** The same happens on a state the hooks reach: the third access of a new
    subject to a sensitive file is reported with confidence 49, the
    behaviour score then being 16777215 * 2^-25, just below 0.5, which
    scales to 49.999996. *)
Example third_sensitive_access_confidence :
  option_map Event.confidence
    (submitted (sensitive_access (after (sensitive_access
                 (after (sensitive_access g_init))))))
  = Some 49
  /\ option_map Profile.behavior_score
       (profile_of bucket_of
          (after (sensitive_access (after (sensitive_access g_init)))) 100)
     = Some (S754_finite false 16777215 (-25))
  /\ option_map spec_confidence
       (profile_of bucket_of
          (after (sensitive_access (after (sensitive_access g_init)))) 100)
     = Some 50.
Proof. repeat split; vm_compute; reflexivity. Qed.

(** The first event of a new subject, on the model. *)
Lemma create_profile_initial_scores_witness :
  exists p,
    profile_at bucket_of g_one 100 p
    /\ Profile.trust_score p = f_0_7
    /\ Event.threat_score (assessed bucket_of e_privilege g_one) = 60
    /\ Event.confidence (assessed bucket_of e_privilege g_one) = 80.
Proof.
  destruct (create_profile_initial_scores bucket_of name_hash all_ok
              (task_of 100) 0 g_init initial_manager
              eq_refl eq_refl eq_refl)
    as (p & Hat & _ & _ & _ & _ & Htrust & _ & Hfirst).
  exists p. split; [exact Hat|]. split; [exact Htrust|].
  destruct (Hfirst e_privilege eq_refl eq_refl e_privilege_defined)
    as [Hscore Hconf].
  split; [exact (eq_trans Hscore eq_refl) | exact Hconf].
Defined.

(** One pass over a new profile: trust 0.7 goes up by one increment. *)
Lemma learning_pass_restores_trust_below_0_8_witness :
  exists m1 p1,
    ai_sec_mgr (ai_security_learning_work 5000 g_one) = Some m1
    /\ nth_error (process_profiles m1) 0 = Some p1
    /\ Profile.trust_score p1 = F32.add f_0_7 f_0_01.
Proof.
  destruct (learning_pass_restores_trust_below_0_8 5000 [] g_one
              (link_profile bucket_of initial_manager
                 (new_profile name_hash true (task_of 100) 0))
              0 (new_profile name_hash true (task_of 100) 0)
              eq_refl eq_refl eq_refl)
    as [(m1 & p1 & Hm1 & Hp1 & Hup & _) _].
  exists m1, p1. split; [exact Hm1|]. split; [exact Hp1|].
  apply Hup. split; vm_compute; reflexivity.
Defined.

(** C4 as stated fails: a new profile starts at trust 0.7 with no
    anomalies; ten passes bring it to 13421771 * 2^-24, still below the
    binary32 0.8 = 13421773 * 2^-24, so the eleventh pass adds another
    0.01 and leaves trust at 13589543 * 2^-24 = 0.80999994, above 0.8. *)
Lemma learning_overshoots_0_8 :
  option_map Profile.anomaly_count (profile_of bucket_of g_one 100) = Some 0
  /\ option_map Profile.trust_score (profile_of bucket_of g_one 100)
     = Some f_0_7
  /\ F32.leb f_0_7 f_0_8 = true
  /\ option_map Profile.trust_score
       (profile_of bucket_of (learning_passes (repeat 5000 10) g_one) 100)
     = Some (S754_finite false 13421771 (-24))
  /\ option_map Profile.anomaly_count
       (profile_of bucket_of (learning_passes (repeat 5000 11) g_one) 100)
     = Some 0
  /\ option_map Profile.trust_score
       (profile_of bucket_of (learning_passes (repeat 5000 11) g_one) 100)
     = Some (S754_finite false 13589543 (-24))
  /\ F32.leb (S754_finite false 13589543 (-24)) f_0_8 = false.
Proof. repeat split; vm_compute; reflexivity. Qed.

(** The first sensitive file access of a new subject scores 30 and is
    logged. *)
Lemma hook_event_retained_iff_score_above_20_witness :
  exists e,
    submitted (ai_security_file_permission bucket_of name_hash all_ok
                 sensitive_file (task_of 100) 0 g_init) = Some e
    /\ Event.threat_score e = 30
    /\ event_log (after (ai_security_file_permission bucket_of name_hash
                           all_ok sensitive_file (task_of 100) 0 g_init))
       = [e].
Proof.
  eexists. split; [vm_compute; reflexivity|].
  split; [vm_compute; reflexivity|].
  refine (proj1 (proj1 (hook_event_retained_iff_score_above_20
                          bucket_of name_hash all_ok sensitive_file 0 0
                          (task_of 100) 0 g_init _ _
                          (or_introl eq_refl) _)) _).
  - vm_compute. reflexivity.
  - vm_compute. reflexivity.
Defined.

(** An event allocation failure in the file hook, for a subject that has
    its profile. *)
Lemma event_creation_failure_fails_open_unrecorded_witness :
  status (ai_security_file_permission bucket_of name_hash event_alloc_fails
            sensitive_file (task_of 100) 0 g_one) = 0
  /\ after (ai_security_file_permission bucket_of name_hash event_alloc_fails
              sensitive_file (task_of 100) 0 g_one) = g_one.
Proof.
  destruct (event_creation_failure_fails_open_unrecorded bucket_of name_hash
              event_alloc_fails sensitive_file 0 1000 (task_of 100) 0 g_one
              eq_refl)
    as (Hstatus & _ & _ & _ & Hsame & _).
  split; [exact Hstatus|]. apply Hsame. discriminate.
Defined.

(** C6 as stated fails: in that call the hook returns 0 and the state,
    with every statistics counter, is what it was before; no counter has
    been incremented. *)
Lemma event_creation_failure_counts_nothing :
  status (ai_security_file_permission bucket_of name_hash event_alloc_fails
            sensitive_file (task_of 100) 0 g_one) = 0
  /\ counters (after (ai_security_file_permission bucket_of name_hash
                        event_alloc_fails sensitive_file (task_of 100) 0
                        g_one))
     = counters g_one
  /\ ~ counter_incremented g_one
         (after (ai_security_file_permission bucket_of name_hash
                   event_alloc_fails sensitive_file (task_of 100) 0 g_one)).
Proof.
  split; [vm_compute; reflexivity|]. split; [vm_compute; reflexivity|].
  intros [i Hi].
  change (nth i [0; 0; 0; 0; 1] 0 = nth i [0; 0; 0; 0; 1] 0 + 1) in Hi.
  lia.
Qed.

(** C7 on the code: with [AI_SECURITY_MAX_PROFILES] = 256 live profiles,
    creating a profile for a new pid succeeds and the store then holds
    257. *)
Theorem create_profile_ignores_max_profiles :
  live_profiles g_full = AI_SECURITY_MAX_PROFILES
  /\ ai_security_get_profile bucket_of g_full 1000 = None
  /\ fst (ai_security_create_profile bucket_of name_hash all_ok
            (task_of 1000) 0 g_full) = 0
  /\ live_profiles (snd (ai_security_create_profile bucket_of name_hash
                           all_ok (task_of 1000) 0 g_full)) = 257
  /\ ai_security_get_profile bucket_of
       (snd (ai_security_create_profile bucket_of name_hash all_ok
               (task_of 1000) 0 g_full)) 1000 = Some 256%nat.
Proof. repeat split; vm_compute; reflexivity. Qed.

(** Once pid 100 has its profile, a second creation for it returns 0 and
    changes nothing. *)
Lemma one_profile_per_subject_witness :
  ai_security_create_profile bucket_of name_hash all_ok (task_of 100) 5000
    g_one
  = (0, g_one).
Proof.
  exact (proj2 (proj2 (proj2
           (one_profile_per_subject bucket_of name_hash g_one
              (link_profile bucket_of initial_manager
                 (new_profile name_hash true (task_of 100) 0))
              (reach_create_profile bucket_of name_hash all_ok (task_of 100)
                 0 g_init
                 (reach_init bucket_of name_hash
                    AI_SECURITY_THREAT_SCORE_THRESHOLD true true))
              eq_refl)))
           all_ok (task_of 100) 5000 0%nat eq_refl).
Defined.

(** ** Decisions, statistics and hook results *)

Section Decisions.

Variable hash_32 : Z -> Z.
Variable full_name_hash : string -> Z.

Lemma recommend_action_denying :
  forall threshold score,
    (score >=? threshold) = true ->
    recommend_action threshold score = AI_SECURITY_ACTION_TERMINATE
    \/ recommend_action threshold score = AI_SECURITY_ACTION_BLOCK
    \/ recommend_action threshold score = AI_SECURITY_ACTION_QUARANTINE.
Proof.
  intros threshold score H. unfold recommend_action. rewrite H.
  destruct (score >=? 90); [left; reflexivity|].
  destruct (score >=? 80); [right; left | right; right]; reflexivity.
Qed.

(** What [ai_security_make_decision] returns for an event of a subject
    with a profile. *)
Lemma make_decision_found :
  forall g m a p e,
    ai_sec_mgr g = Some m ->
    ai_security_profile_lookup hash_32 m (Event.pid e) = Some a ->
    nth_error (process_profiles m) a = Some p ->
    let r := analyze_locked (ai_security_threat_threshold g) e p in
    let d := denies g (Event.threat_score (fst r)) in
    ai_security_make_decision hash_32 e g
    = ((if d then 1 else 0), fst r,
       set_mgr g (counted m (list_set (process_profiles m) a (snd r))
                    (Event.threat_score (fst r)) d)).
Proof.
  intros g m a p e Hm Hl Hn r d.
  unfold ai_security_make_decision.
  rewrite (analyze_event_found hash_32 g m a p e Hm Hl Hn). fold r.
  cbn [set_mgr ai_sec_mgr ai_security_threat_threshold
       ai_security_auto_response].
  pose proof (analyze_locked_action (ai_security_threat_threshold g) e p)
    as Hact. fold r in Hact.
  subst d. unfold denies, counted, set_profiles.
  cbn [process_profiles profile_hash recent_events threat_intel_last_update
       total_events_processed threats_detected false_positives
       threats_blocked processes_monitored last_learning_update].
  destruct (Event.threat_score (fst r) >=? ai_security_threat_threshold g)
    eqn:Hge.
  - destruct (ai_security_auto_response g); cbn [andb negb Z.eqb];
      [|reflexivity].
    destruct (recommend_action_denying _ _ Hge) as [H | [H | H]];
      rewrite <- Hact in H; rewrite H; reflexivity.
  - rewrite andb_false_r. reflexivity.
Qed.


Lemma denies_same_parameters :
  forall g g' score,
    parameters g' = parameters g -> denies g' score = denies g score.
Proof.
  intros g g' score H. unfold parameters in H. injection H as Ht Ha _.
  unfold denies. rewrite Ht, Ha. reflexivity.
Qed.

Lemma create_profile_parameters :
  forall k task now g,
    parameters
      (snd (ai_security_create_profile hash_32 full_name_hash k task now g))
    = parameters g.
Proof.
  intros k task now g. unfold ai_security_create_profile.
  destruct (ai_sec_mgr g); [|reflexivity].
  destruct (ai_security_get_profile hash_32 g (task_pid task));
    [reflexivity|].
  destruct (profile_ok k); reflexivity.
Qed.

Lemma create_event_parameters :
  forall ok ty now g,
    parameters (snd (ai_security_create_event ok ty now g)) = parameters g.
Proof.
  intros ok ty now g. unfold ai_security_create_event.
  destruct ok; reflexivity.
Qed.

(** The decision and the assessed event, for a subject with a profile. *)
Lemma make_decision_profile :
  forall g e p,
    profile_at hash_32 g (Event.pid e) p ->
    fst (fst (ai_security_make_decision hash_32 e g))
    = (if denies g (Event.threat_score (assessed hash_32 e g)) then 1 else 0).
Proof.
  intros g e p Hat.
  rewrite (assessed_found hash_32 g e p Hat).
  destruct Hat as (m & a & Hm & Hl & Hn).
  rewrite (make_decision_found g m a p e Hm Hl Hn). reflexivity.
Qed.

(** X1.  For an event of a subject with a profile, the decision is deny
    exactly when automatic response is enabled and the score reaches the
    threshold; the recommended action is then Terminate, Block or
    Quarantine (never Warn or Allow), so Quarantine denies too, and with
    automatic response disabled nothing is ever denied. *)
Theorem make_decision_denies_iff :
  forall g e p,
    profile_at hash_32 g (Event.pid e) p ->
    let d := fst (fst (ai_security_make_decision hash_32 e g)) in
    let e' := snd (fst (ai_security_make_decision hash_32 e g)) in
    (d = 0 \/ d = 1)
    /\ (d = 1 <->
        ai_security_auto_response g = true
        /\ ai_security_threat_threshold g <= Event.threat_score e')
    /\ (d = 1 ->
        Event.recommended_action e' = AI_SECURITY_ACTION_TERMINATE
        \/ Event.recommended_action e' = AI_SECURITY_ACTION_BLOCK
        \/ Event.recommended_action e' = AI_SECURITY_ACTION_QUARANTINE).
Proof.
  intros g e p Hat d e'. subst d e'.
  rewrite make_decision_event, (make_decision_profile g e p Hat).
  pose proof (assessed_found hash_32 g e p Hat) as Hass.
  unfold denies.
  destruct (Z.geb_spec (Event.threat_score (assessed hash_32 e g))
              (ai_security_threat_threshold g)) as [Hge | Hlt];
    destruct (ai_security_auto_response g); cbn [andb];
    repeat split; try (intros; lia); try (intros; discriminate);
    try (right; reflexivity); try (left; reflexivity);
    try (intros [Ha Hb]; (discriminate || lia)).
  intros _. rewrite Hass, analyze_locked_action.
  apply recommend_action_denying. rewrite <- Hass.
  apply Z.geb_le. lia.
Qed.

(** X2.  Deciding on an event of a subject with a profile counts it:
    [total_events_processed] goes up by one, [threats_detected] goes up
    exactly when the score is above 30, [threats_blocked] goes up exactly
    when the decision is deny (all modulo 2^64); the other two counters,
    the event log and the module parameters are left as they were. *)
Theorem make_decision_counts :
  forall g m e p,
    ai_sec_mgr g = Some m ->
    profile_at hash_32 g (Event.pid e) p ->
    let r := ai_security_make_decision hash_32 e g in
    exists m',
      ai_sec_mgr (snd r) = Some m'
      /\ total_events_processed m' = u64 (total_events_processed m + 1)
      /\ threats_detected m'
         = (if Event.threat_score (snd (fst r)) >? 30
            then u64 (threats_detected m + 1) else threats_detected m)
      /\ threats_blocked m'
         = (if fst (fst r) =? 1
            then u64 (threats_blocked m + 1) else threats_blocked m)
      /\ false_positives m' = false_positives m
      /\ processes_monitored m' = processes_monitored m
      /\ recent_events m' = recent_events m
      /\ parameters (snd r) = parameters g.
Proof.
  intros g m e p Hm (m0 & a & Hm0 & Hl & Hn) r. subst r.
  assert (m0 = m) by congruence. subst m0.
  rewrite (make_decision_found g m a p e Hm Hl Hn).
  cbn [fst snd]. eexists. split; [reflexivity|].
  cbn [counted total_events_processed threats_detected threats_blocked
       false_positives processes_monitored recent_events].
  repeat split.
  destruct (denies g _); reflexivity.
Qed.


(** *** The events the hooks build *)

Lemma get_profile_same_mgr :
  forall g g' pid,
    ai_sec_mgr g' = ai_sec_mgr g ->
    ai_security_get_profile hash_32 g' pid
    = ai_security_get_profile hash_32 g pid.
Proof.
  intros g g' pid H. unfold ai_security_get_profile. rewrite H. reflexivity.
Qed.

Lemma file_access_details_defined :
  forall k f,
    snd (fst (file_access_details k f)) <> None ->
    fst (fst (file_access_details k f)) <> None.
Proof.
  intros k f. unfold file_access_details.
  destruct (d_name f); [|intros H; exact H].
  destruct (description_ok k); cbn [fst snd]; intros H;
    [discriminate | exact H].
Qed.

(** How the file hook proceeds when it builds an event. *)
Lemma file_permission_submitted :
  forall k f task now g e,
    submitted (ai_security_file_permission hash_32 full_name_hash
                 k f task now g) = Some e ->
    exists g2 e1 p,
      e = assessed hash_32 e1 g2
      /\ fresh_event e1
      /\ event_defined e1
      /\ Event.type e1 = AI_SECURITY_EVENT_FILE_ACCESS
      /\ Event.pid e1 = task_pid task
      /\ profile_at hash_32 g2 (task_pid task) p
      /\ parameters g2 = parameters g
      /\ status (ai_security_file_permission hash_32 full_name_hash
                   k f task now g)
         = (if denies g (Event.threat_score e) then - EACCES else 0).
Proof.
  intros k f task now g e. unfold ai_security_file_permission.
  destruct (ai_sec_mgr g) as [m|] eqn:Hm; [|discriminate].
  destruct (ai_security_is_system_process (task_pid task)); [discriminate|].
  set (g1 := match ai_security_get_profile hash_32 g (task_pid task) with
             | Some _ => g
             | None => snd (ai_security_create_profile hash_32 full_name_hash
                              k task now g)
             end).
  assert (Hp1 : parameters g1 = parameters g).
  { subst g1. destruct (ai_security_get_profile hash_32 g (task_pid task));
      [reflexivity | apply create_profile_parameters]. }
  destruct (ai_security_get_profile hash_32 g1 (task_pid task)) as [a|] eqn:Hg1;
    [|discriminate].
  pose proof (create_event_parameters (event_ok k)
                AI_SECURITY_EVENT_FILE_ACCESS now g1) as Hp2.
  destruct (ai_security_create_event (event_ok k)
              AI_SECURITY_EVENT_FILE_ACCESS now g1)
    as [[rc [e0|]] g2] eqn:Hce; [|discriminate].
  cbn [snd] in Hp2.
  destruct (create_event_result _ _ _ _ _ _ _ Hce) as (He0 & Hmgr & _).
  rewrite <- (get_profile_same_mgr g1 g2 _ Hmgr) in Hg1.
  destruct (get_profile_some hash_32 g2 _ a Hg1) as [p Hat].
  set (e1 := Event.fill e0 (task_pid task) (real_parent_pid task)
               (cred_uid task) (cred_gid task)
               (take_chars (TASK_COMM_LEN - 1) (task_comm task))
               (fst (fst (file_access_details k f)))
               (snd (fst (file_access_details k f)))
               (snd (file_access_details k f))).
  assert (Hpid : Event.pid e1 = task_pid task) by reflexivity.
  rewrite <- Hpid in Hat.
  pose proof (make_decision_profile g2 e1 p Hat) as Hd.
  pose proof (make_decision_event hash_32 e1 g2) as He.
  destruct (ai_security_make_decision hash_32 e1 g2) as [[d e2] g3].
  cbn [fst snd] in Hd, He. cbn [submitted status].
  intros Hsub. injection Hsub as <-.
  exists g2, e1, p.
  split; [exact He|]. split; [subst e0; reflexivity|].
  split; [exact (file_access_details_defined k f)|].
  split; [subst e0; reflexivity|]. split; [reflexivity|].
  split; [rewrite Hpid in Hat; exact Hat|].
  split; [congruence|].
  rewrite Hd, <- He.
  rewrite (denies_same_parameters g g2) by congruence.
  destruct (denies g (Event.threat_score e2)); reflexivity.
Qed.

(** How the setuid hook proceeds when it builds an event. *)
Lemma task_fix_setuid_submitted :
  forall k new_uid old_uid task now g e,
    submitted (ai_security_task_fix_setuid hash_32
                 k new_uid old_uid task now g) = Some e ->
    exists g1 e1 p,
      e = assessed hash_32 e1 g1
      /\ fresh_event e1
      /\ event_defined e1
      /\ Event.type e1 = AI_SECURITY_EVENT_PRIVILEGE_ESCALATION
      /\ Event.pid e1 = task_pid task
      /\ profile_at hash_32 g (task_pid task) p
      /\ profile_at hash_32 g1 (task_pid task) p
      /\ parameters g1 = parameters g
      /\ new_uid <> old_uid
      /\ status (ai_security_task_fix_setuid hash_32
                   k new_uid old_uid task now g)
         = (if denies g (Event.threat_score e) then - EPERM else 0).
Proof.
  intros k new_uid old_uid task now g e. unfold ai_security_task_fix_setuid.
  destruct (ai_sec_mgr g) as [m|] eqn:Hm; [|discriminate].
  destruct (ai_security_is_system_process (task_pid task)); [discriminate|].
  destruct (Z.eqb_spec new_uid old_uid) as [|Hneq]; [discriminate|].
  destruct (ai_security_get_profile hash_32 g (task_pid task)) as [a|] eqn:Hg;
    [|discriminate].
  destruct (get_profile_some hash_32 g _ a Hg) as [p Hat0].
  pose proof (create_event_parameters (event_ok k)
                AI_SECURITY_EVENT_PRIVILEGE_ESCALATION now g) as Hp2.
  destruct (ai_security_create_event (event_ok k)
              AI_SECURITY_EVENT_PRIVILEGE_ESCALATION now g)
    as [[rc [e0|]] g1] eqn:Hce; [|discriminate].
  cbn [snd] in Hp2.
  destruct (create_event_result _ _ _ _ _ _ _ Hce) as (He0 & Hmgr & _).
  pose proof (profile_at_same_mgr hash_32 g g1 _ p Hmgr Hat0) as Hat.
  match goal with
  | |- context [ai_security_make_decision hash_32 ?x g1] => set (e1 := x)
  end.
  assert (Hpid : Event.pid e1 = task_pid task) by reflexivity.
  rewrite <- Hpid in Hat.
  pose proof (make_decision_profile g1 e1 p Hat) as Hd.
  pose proof (make_decision_event hash_32 e1 g1) as He.
  destruct (ai_security_make_decision hash_32 e1 g1) as [[d e2] g2].
  cbn [fst snd] in Hd, He. cbn [submitted status].
  intros Hsub. injection Hsub as <-.
  exists g1, e1, p.
  split; [exact He|]. split; [subst e0; reflexivity|].
  split; [intros H; exfalso; apply H; subst e0; reflexivity|].
  split; [subst e0; reflexivity|]. split; [reflexivity|].
  split; [exact Hat0|].
  split; [rewrite Hpid in Hat; exact Hat|].
  split; [exact Hp2|]. split; [exact Hneq|].
  rewrite Hd, <- He.
  rewrite (denies_same_parameters g g1) by exact Hp2.
  destruct (denies g (Event.threat_score e2)); reflexivity.
Qed.


Lemma file_permission_not_submitted :
  forall k f task now g,
    submitted (ai_security_file_permission hash_32 full_name_hash
                 k f task now g) = None ->
    status (ai_security_file_permission hash_32 full_name_hash
              k f task now g) = 0.
Proof.
  intros k f task now g. unfold ai_security_file_permission.
  destruct (ai_sec_mgr g); [|reflexivity].
  destruct (ai_security_is_system_process (task_pid task)); [reflexivity|].
  match goal with
  | |- context [ai_security_get_profile hash_32 ?g1 (task_pid task)] =>
      destruct (ai_security_get_profile hash_32 g1 (task_pid task));
      [|reflexivity]
  end.
  match goal with
  | |- context [ai_security_create_event ?a ?b ?c ?d] =>
      destruct (ai_security_create_event a b c d) as [[rc [e0|]] g2];
      [|reflexivity]
  end.
  match goal with
  | |- context [ai_security_make_decision hash_32 ?e1 g2] =>
      destruct (ai_security_make_decision hash_32 e1 g2) as [[d e2] g3]
  end.
  discriminate.
Qed.

Lemma task_fix_setuid_not_submitted :
  forall k new_uid old_uid task now g,
    submitted (ai_security_task_fix_setuid hash_32
                 k new_uid old_uid task now g) = None ->
    status (ai_security_task_fix_setuid hash_32
              k new_uid old_uid task now g) = 0.
Proof.
  intros k new_uid old_uid task now g. unfold ai_security_task_fix_setuid.
  destruct (ai_sec_mgr g); [|reflexivity].
  destruct (ai_security_is_system_process (task_pid task)); [reflexivity|].
  destruct (new_uid =? old_uid); [reflexivity|].
  destruct (ai_security_get_profile hash_32 g (task_pid task));
    [|reflexivity].
  match goal with
  | |- context [ai_security_create_event ?a ?b ?c ?d] =>
      destruct (ai_security_create_event a b c d) as [[rc [e0|]] g2];
      [|reflexivity]
  end.
  match goal with
  | |- context [ai_security_make_decision hash_32 ?e1 g2] =>
      destruct (ai_security_make_decision hash_32 e1 g2) as [[d e2] g3]
  end.
  discriminate.
Qed.

Lemma denies_iff :
  forall g score,
    denies g score = true
    <-> ai_security_auto_response g = true
        /\ ai_security_threat_threshold g <= score.
Proof.
  intros g score. unfold denies. rewrite andb_true_iff, Z.geb_le.
  tauto.
Qed.

Lemma file_permission_refuses :
  forall k f task now g,
    let r := ai_security_file_permission hash_32 full_name_hash
               k f task now g in
    (status r = 0 \/ status r = - EACCES)
    /\ (status r = - EACCES <->
        exists e, submitted r = Some e
                  /\ denies g (Event.threat_score e) = true).
Proof.
  intros k f task now g r. subst r.
  destruct (submitted (ai_security_file_permission hash_32 full_name_hash
                         k f task now g)) as [e|] eqn:Hsub.
  - destruct (file_permission_submitted _ _ _ _ _ _ Hsub)
      as (g2 & e1 & p & _ & _ & _ & _ & _ & _ & _ & Hst).
    rewrite Hst. destruct (denies g (Event.threat_score e)) eqn:Hd.
    + split; [right; reflexivity|]. split; [|reflexivity].
      intros _. exists e. split; [reflexivity | exact Hd].
    + split; [left; reflexivity|]. split; [discriminate|].
      intros (e' & He' & Hd'). injection He' as <-. congruence.
  - rewrite (file_permission_not_submitted _ _ _ _ _ Hsub).
    split; [left; reflexivity|]. split; [discriminate|].
    intros (e & He & _). discriminate.
Qed.

Lemma task_fix_setuid_refuses :
  forall k new_uid old_uid task now g,
    let r := ai_security_task_fix_setuid hash_32
               k new_uid old_uid task now g in
    (status r = 0 \/ status r = - EPERM)
    /\ (status r = - EPERM <->
        exists e, submitted r = Some e
                  /\ denies g (Event.threat_score e) = true).
Proof.
  intros k new_uid old_uid task now g r. subst r.
  destruct (submitted (ai_security_task_fix_setuid hash_32
                         k new_uid old_uid task now g)) as [e|] eqn:Hsub.
  - destruct (task_fix_setuid_submitted _ _ _ _ _ _ _ Hsub)
      as (g2 & e1 & p & _ & _ & _ & _ & _ & _ & _ & _ & _ & Hst).
    rewrite Hst. destruct (denies g (Event.threat_score e)) eqn:Hd.
    + split; [right; reflexivity|]. split; [|reflexivity].
      intros _. exists e. split; [reflexivity | exact Hd].
    + split; [left; reflexivity|]. split; [discriminate|].
      intros (e' & He' & Hd'). injection He' as <-. congruence.
  - rewrite (task_fix_setuid_not_submitted _ _ _ _ _ _ Hsub).
    split; [left; reflexivity|]. split; [discriminate|].
    intros (e & He & _). discriminate.
Qed.

(** X3.  The file hook returns 0 or -EACCES and the setuid hook 0 or
    -EPERM.  Either refuses exactly when it built an event, automatic
    response is enabled and the event's score reaches the threshold; in
    every other case, also when no event could be built, the operation is
    allowed. *)
Theorem hooks_refuse_iff :
  forall k f new_uid old_uid task now g,
    let rf := ai_security_file_permission hash_32 full_name_hash
                k f task now g in
    let rs := ai_security_task_fix_setuid hash_32
                k new_uid old_uid task now g in
    (status rf = 0 \/ status rf = - EACCES)
    /\ (status rf = - EACCES <->
        exists e, submitted rf = Some e
                  /\ ai_security_auto_response g = true
                  /\ ai_security_threat_threshold g <= Event.threat_score e)
    /\ (status rs = 0 \/ status rs = - EPERM)
    /\ (status rs = - EPERM <->
        exists e, submitted rs = Some e
                  /\ ai_security_auto_response g = true
                  /\ ai_security_threat_threshold g <= Event.threat_score e).
Proof.
  intros k f new_uid old_uid task now g rf rs.
  destruct (file_permission_refuses k f task now g) as [Hf1 Hf2].
  destruct (task_fix_setuid_refuses k new_uid old_uid task now g)
    as [Hs1 Hs2].
  fold rf in Hf1, Hf2. fold rs in Hs1, Hs2.
  split; [exact Hf1|]. split.
  - rewrite Hf2. split; intros (e & He & Hd); exists e;
      (split; [exact He|]); apply denies_iff; exact Hd.
  - split; [exact Hs1|].
    rewrite Hs2. split; intros (e & He & Hd); exists e;
      (split; [exact He|]); apply denies_iff; exact Hd.
Qed.

Lemma formula_score_file_access :
  forall e p,
    Event.type e = AI_SECURITY_EVENT_FILE_ACCESS ->
    0 <= formula_score e p <= 65.
Proof.
  intros e p Hty. unfold formula_score, spec_adjustments.
  rewrite base_score_tests, Hty.
  destruct (file_access_suspicious e),
    (F32.ltb (Profile.trust_score p) f_0_3),
    (5 <? Profile.anomaly_count p); vm_compute; split; discriminate.
Qed.

(** X4.  An event built by the file hook never scores above 65 (30 for
    the sensitive pattern, 20 for low trust, 15 for anomaly history), so
    its level is at most Medium; with a threshold above 65 -- the default
    is 75 -- the file hook never refuses an access, whatever the profile. *)
Theorem file_permission_never_refuses_above_65 :
  forall k f task now g,
    let r := ai_security_file_permission hash_32 full_name_hash
               k f task now g in
    (forall e,
        submitted r = Some e ->
        0 <= Event.threat_score e <= 65
        /\ level_value (Event.threat_level e)
           <= level_value AI_SECURITY_THREAT_MEDIUM)
    /\ (65 < ai_security_threat_threshold g -> status r = 0).
Proof.
  intros k f task now g r. subst r.
  assert (Hscore :
    forall e,
      submitted (ai_security_file_permission hash_32 full_name_hash
                   k f task now g) = Some e ->
      0 <= Event.threat_score e <= 65
      /\ Event.threat_level e
         = ai_security_classify_threat (Event.threat_score e)).
  { intros e Hsub.
    destruct (file_permission_submitted _ _ _ _ _ _ Hsub)
      as (g2 & e1 & p & He & Hfresh & _ & Hty & Hpid & Hat & _ & _).
    rewrite <- Hpid in Hat. subst e.
    rewrite (assessed_found hash_32 g2 e1 p Hat), analyze_locked_level,
      (analyze_locked_score _ e1 p Hfresh).
    split; [apply formula_score_file_access; exact Hty | reflexivity]. }
  split.
  - intros e Hsub. destruct (Hscore e Hsub) as [Hr Hl].
    split; [exact Hr|]. rewrite Hl.
    apply (Z.le_trans _ (level_value (ai_security_classify_threat 65)));
      [apply classify_threat_monotone; lia | vm_compute; discriminate].
  - intros Hthr.
    destruct (file_permission_refuses k f task now g) as [[H0 | Hacc] Hiff];
      [exact H0|].
    apply Hiff in Hacc. destruct Hacc as (e & Hsub & Hd).
    apply denies_iff in Hd. destruct (Hscore e Hsub) as [Hr _]. lia.
Qed.


(** *** Hooks as sequences of elementary steps *)

Lemma fill_pristine :
  forall id type now pid ppid uid gid comm descr data size,
    pristine (Event.fill (new_event id type now)
                pid ppid uid gid comm descr data size).
Proof. intros. repeat split. Qed.

Lemma create_event_pristine :
  forall ok ty now g r e g' pid ppid uid gid comm descr data size,
    ai_security_create_event ok ty now g = (r, Some e, g') ->
    pristine (Event.fill e pid ppid uid gid comm descr data size).
Proof.
  intros ok ty now g r e g' pid ppid uid gid comm descr data size H.
  destruct (create_event_result _ _ _ _ _ _ _ H) as (-> & _).
  apply fill_pristine.
Qed.

Section Invariants.

Variable I : globals -> Prop.
Hypothesis I_invariant : invariant hash_32 full_name_hash I.

Let I_step := proj2 I_invariant.

Lemma file_permission_keeps :
  forall k f task now g,
    I g ->
    I (after (ai_security_file_permission hash_32 full_name_hash
                k f task now g)).
Proof.
  intros k f task now g Hg. unfold ai_security_file_permission.
  destruct (ai_sec_mgr g); [|exact Hg].
  destruct (ai_security_is_system_process (task_pid task)); [exact Hg|].
  set (g1 := match ai_security_get_profile hash_32 g (task_pid task) with
             | Some _ => g
             | None => snd (ai_security_create_profile hash_32 full_name_hash
                              k task now g)
             end).
  assert (H1 : I g1).
  { subst g1. destruct (ai_security_get_profile hash_32 g (task_pid task));
      [exact Hg|].
    exact (I_step _ _ (step_create_profile _ _ k task now g) Hg). }
  destruct (ai_security_get_profile hash_32 g1 (task_pid task));
    [|exact H1].
  pose proof (I_step _ _ (step_create_event hash_32 full_name_hash
                            (event_ok k) AI_SECURITY_EVENT_FILE_ACCESS
                            now g1) H1) as H2.
  destruct (ai_security_create_event (event_ok k)
              AI_SECURITY_EVENT_FILE_ACCESS now g1)
    as [[rc [e0|]] g2] eqn:Hce; cbn [snd] in H2; [|exact H2].
  set (e1 := Event.fill e0 (task_pid task) (real_parent_pid task)
               (cred_uid task) (cred_gid task)
               (take_chars (TASK_COMM_LEN - 1) (task_comm task))
               (fst (fst (file_access_details k f)))
               (snd (fst (file_access_details k f)))
               (snd (file_access_details k f))).
  assert (Hp : pristine e1) by (eapply create_event_pristine; exact Hce).
  pose proof (I_step _ _ (step_decide hash_32 full_name_hash e1 g2 Hp) H2)
    as H3.
  pose proof (make_decision_event hash_32 e1 g2) as He.
  destruct (ai_security_make_decision hash_32 e1 g2) as [[d e2] g3].
  cbn [fst snd] in H3, He. cbn [after].
  destruct (Z.gtb_spec (Event.threat_score e2) 20) as [Hgt|]; [|exact H3].
  subst e2.
  exact (I_step _ _ (step_retain hash_32 full_name_hash e1 g2 g3 Hp
                       ltac:(lia)) H3).
Qed.

Lemma task_create_keeps :
  forall k task now g,
    I g ->
    I (after (ai_security_task_create hash_32 k task now g)).
Proof.
  intros k task now g Hg. unfold ai_security_task_create.
  destruct (ai_sec_mgr g); [|exact Hg].
  destruct (ai_security_is_system_process (task_pid task)); [exact Hg|].
  destruct (ai_security_get_profile hash_32 g (task_pid task));
    [|exact Hg].
  pose proof (I_step _ _ (step_create_event hash_32 full_name_hash
                            (event_ok k) AI_SECURITY_EVENT_PROCESS_EXEC
                            now g) Hg) as H2.
  destruct (ai_security_create_event (event_ok k)
              AI_SECURITY_EVENT_PROCESS_EXEC now g)
    as [[rc [e0|]] g1] eqn:Hce; cbn [snd] in H2; [|exact H2].
  match goal with
  | |- context [ai_security_analyze_event hash_32 ?x g1] => set (e1 := x)
  end.
  assert (Hp : pristine e1) by (eapply create_event_pristine; exact Hce).
  pose proof (I_step _ _ (step_analyze hash_32 full_name_hash e1 g1 Hp) H2)
    as H3.
  destruct (ai_security_analyze_event hash_32 e1 g1) as [[r e2] g2].
  exact H3.
Qed.

Lemma task_fix_setuid_keeps :
  forall k new_uid old_uid task now g,
    I g ->
    I (after (ai_security_task_fix_setuid hash_32
                k new_uid old_uid task now g)).
Proof.
  intros k new_uid old_uid task now g Hg.
  unfold ai_security_task_fix_setuid.
  destruct (ai_sec_mgr g); [|exact Hg].
  destruct (ai_security_is_system_process (task_pid task)); [exact Hg|].
  destruct (new_uid =? old_uid); [exact Hg|].
  destruct (ai_security_get_profile hash_32 g (task_pid task));
    [|exact Hg].
  pose proof (I_step _ _ (step_create_event hash_32 full_name_hash
                            (event_ok k)
                            AI_SECURITY_EVENT_PRIVILEGE_ESCALATION
                            now g) Hg) as H2.
  destruct (ai_security_create_event (event_ok k)
              AI_SECURITY_EVENT_PRIVILEGE_ESCALATION now g)
    as [[rc [e0|]] g1] eqn:Hce; cbn [snd] in H2; [|exact H2].
  match goal with
  | |- context [ai_security_make_decision hash_32 ?x g1] => set (e1 := x)
  end.
  assert (Hp : pristine e1) by (eapply create_event_pristine; exact Hce).
  pose proof (I_step _ _ (step_decide hash_32 full_name_hash e1 g1 Hp) H2)
    as H3.
  pose proof (make_decision_event hash_32 e1 g1) as He.
  destruct (ai_security_make_decision hash_32 e1 g1) as [[d e2] g2].
  cbn [fst snd] in H3, He. cbn [after].
  destruct (Z.gtb_spec (Event.threat_score e2) 30) as [Hgt|]; [|exact H3].
  subst e2.
  exact (I_step _ _ (step_retain hash_32 full_name_hash e1 g1 g2 Hp
                       ltac:(lia)) H3).
Qed.

(** An invariant of the elementary steps holds in every reachable state. *)
Lemma reachable_invariant :
  forall g, reachable hash_32 full_name_hash g -> I g.
Proof.
  intros g H. induction H.
  - apply (proj1 I_invariant).
  - exact (I_step _ _ (step_create_profile _ _ k task now g) IHreachable).
  - apply file_permission_keeps; assumption.
  - apply task_create_keeps; assumption.
  - apply task_fix_setuid_keeps; assumption.
  - exact (I_step _ _ (step_learning hash_32 full_name_hash now g)
             IHreachable).
  - exact (I_step _ _ (step_parameters hash_32 full_name_hash
                         threshold auto_response learning g) IHreachable).
Qed.

End Invariants.


(** *** The records of a reachable state *)

Lemma Forall_list_set :
  forall (A : Type) (P : A -> Prop) (l : list A) (i : nat) (x : A),
    Forall P l -> P x -> Forall P (list_set l i x).
Proof.
  intros A P l. induction l as [|h t IH]; intros i x Hl Hx.
  - constructor.
  - inversion Hl; subst. destruct i; cbn [list_set]; constructor; auto.
Qed.

Lemma length_list_set :
  forall (A : Type) (l : list A) (i : nat) (x : A),
    List.length (list_set l i x) = List.length l.
Proof.
  intros A l. induction l as [|h t IH]; intros i x; [reflexivity|].
  destruct i; cbn [list_set List.length]; [reflexivity|].
  rewrite IH. reflexivity.
Qed.

Lemma level_value_inj :
  forall a b, level_value a = level_value b -> a = b.
Proof. intros [] [] H; (reflexivity || discriminate H). Qed.

Lemma max_level_classify :
  forall s1 s2,
    max_level (ai_security_classify_threat s1)
      (ai_security_classify_threat s2)
    = ai_security_classify_threat (max_u s1 s2).
Proof.
  intros s1 s2. unfold max_level, max_u.
  destruct (Z.gtb_spec s1 s2) as [Hgt | Hle].
  - pose proof (classify_threat_monotone s2 s1 ltac:(lia)) as Hmono.
    destruct (Z.gtb_spec (level_value (ai_security_classify_threat s1))
                (level_value (ai_security_classify_threat s2)));
      [reflexivity|].
    apply level_value_inj. lia.
  - pose proof (classify_threat_monotone s1 s2 Hle) as Hmono.
    destruct (Z.gtb_spec (level_value (ai_security_classify_threat s1))
                (level_value (ai_security_classify_threat s2)));
      [lia | reflexivity].
Qed.

Lemma pristine_fresh : forall e, pristine e -> fresh_event e.
Proof. intros e (H & _). exact H. Qed.

Lemma analyze_locked_threat_ok :
  forall threshold e p,
    pristine e ->
    profile_threat_ok p ->
    profile_threat_ok (snd (analyze_locked threshold e p)).
Proof.
  intros threshold e p He (Hr & Hc).
  pose proof (analyze_locked_score threshold e p (pristine_fresh e He))
    as Hs.
  pose proof (formula_score_range e p) as Hrange.
  rewrite <- Hs in Hrange.
  assert (Hts : Profile.threat_score (snd (analyze_locked threshold e p))
                = max_u (Profile.threat_score p)
                    (Event.threat_score (fst (analyze_locked threshold e p))))
    by reflexivity.
  assert (Hct : Profile.current_threat (snd (analyze_locked threshold e p))
                = max_level (Profile.current_threat p)
                    (ai_security_classify_threat
                       (Event.threat_score
                          (fst (analyze_locked threshold e p)))))
    by reflexivity.
  unfold profile_threat_ok.
  rewrite Hts, Hct, Hc, max_level_classify. split; [|reflexivity].
  unfold max_u.
  destruct (Z.gtb_spec (Profile.threat_score p)
              (Event.threat_score (fst (analyze_locked threshold e p))));
    lia.
Qed.

Lemma u64_succ :
  forall n, u64 (u64 (Z.of_nat n) + 1) = u64 (Z.of_nat (S n)).
Proof.
  intros n. unfold u64. rewrite Zplus_mod_idemp_l.
  f_equal. lia.
Qed.

Lemma create_profile_records_ok :
  forall k task now g,
    records_ok g ->
    records_ok
      (snd (ai_security_create_profile hash_32 full_name_hash k task now g)).
Proof.
  intros k task now g Hg. unfold ai_security_create_profile.
  destruct (ai_sec_mgr g) as [m|] eqn:Hm; [|exact Hg].
  destruct (ai_security_get_profile hash_32 g (task_pid task));
    [exact Hg|].
  destruct (profile_ok k); [|exact Hg].
  unfold records_ok in *. rewrite Hm in Hg. destruct Hg as (Hp & He & Hc).
  cbn [negb snd set_mgr ai_sec_mgr link_profile process_profiles
       recent_events processes_monitored].
  split; [|split].
  - apply Forall_app. split; [exact Hp|]. constructor; [|constructor].
    split; [cbn; lia | reflexivity].
  - exact He.
  - rewrite Hc, length_app. cbn [List.length].
    rewrite Nat.add_1_r. apply u64_succ.
Qed.

Lemma analyze_event_records_ok :
  forall e g,
    pristine e ->
    records_ok g ->
    records_ok (snd (ai_security_analyze_event hash_32 e g)).
Proof.
  intros e g He Hg. unfold ai_security_analyze_event.
  destruct (ai_sec_mgr g) as [m|] eqn:Hm; [|exact Hg].
  destruct (ai_security_get_profile hash_32 g (Event.pid e)) as [a|];
    [|exact Hg].
  destruct (nth_error (process_profiles m) a) as [p|] eqn:Hn; [|exact Hg].
  pose proof (analyze_locked_threat_ok (ai_security_threat_threshold g) e p
                He) as Hp'.
  destruct (analyze_locked (ai_security_threat_threshold g) e p)
    as [e' p'].
  unfold records_ok in *. rewrite Hm in Hg. destruct Hg as (Hp & Hev & Hc).
  cbn [snd set_mgr ai_sec_mgr set_profiles process_profiles recent_events
       processes_monitored] in *.
  split; [|split].
  - apply Forall_list_set; [exact Hp|]. apply Hp'.
    rewrite Forall_forall in Hp. apply Hp.
    eapply nth_error_In; exact Hn.
  - exact Hev.
  - rewrite length_list_set. exact Hc.
Qed.

Lemma make_decision_records_ok :
  forall e g,
    pristine e ->
    records_ok g ->
    records_ok (snd (ai_security_make_decision hash_32 e g)).
Proof.
  intros e g He Hg. unfold ai_security_make_decision.
  pose proof (analyze_event_records_ok e g He Hg) as H1.
  destruct (ai_security_analyze_event hash_32 e g) as [[r e'] g1].
  cbn [fst snd] in H1.
  destruct (ai_sec_mgr g1) as [m1|] eqn:Hm1; [|exact H1].
  unfold records_ok in *. rewrite Hm1 in H1. exact H1.
Qed.

(** An event a hook has had assessed and found above 20. *)
Lemma assessed_logged_event_ok :
  forall e g,
    pristine e ->
    20 < Event.threat_score (assessed hash_32 e g) ->
    logged_event_ok (assessed hash_32 e g).
Proof.
  intros e g He. pose proof He as (Hs & Hl & Hc).
  unfold assessed, ai_security_analyze_event.
  destruct (ai_sec_mgr g) as [m|]; [|cbn [fst snd]; lia].
  destruct (ai_security_get_profile hash_32 g (Event.pid e)) as [a|].
  - destruct (nth_error (process_profiles m) a) as [p|];
      [|cbn [fst snd]; lia].
    pose proof (analyze_locked_score (ai_security_threat_threshold g) e p
                  (pristine_fresh e He)) as Hsc.
    pose proof (formula_score_range e p) as Hrange.
    rewrite <- Hsc in Hrange.
    pose proof (analyze_locked_level (ai_security_threat_threshold g) e p)
      as Hlev.
    assert (Hconf : 0 <= Event.confidence
                           (fst (analyze_locked
                                   (ai_security_threat_threshold g) e p))
                    <= 100).
    { unfold analyze_locked. cbn [fst Event.assess Event.confidence].
      unfold min_u, F32.to_u32, u32.
      pose proof (Z.mod_pos_bound
                    (F32.trunc (F32.mul (Profile.behavior_score p) f_100))
                    (2 ^ 32) ltac:(lia)) as Hb.
      destruct (Z.ltb_spec
                  (F32.trunc (F32.mul (Profile.behavior_score p) f_100)
                   mod 2 ^ 32) 100); lia. }
    destruct (analyze_locked (ai_security_threat_threshold g) e p)
      as [e' p'].
    cbn [fst snd] in *. intros Hgt. repeat split; (lia || assumption).
  - cbn [fst snd Event.assess Event.threat_score Event.threat_level
         Event.confidence]. intros _. rewrite Hc.
    unfold logged_event_ok. cbn. repeat split; (lia || reflexivity).
Qed.

Lemma records_ok_invariant :
  invariant hash_32 full_name_hash records_ok.
Proof.
  split.
  - intros threshold auto_response learning.
    cbn. split; [constructor | split; [constructor | reflexivity]].
  - intros g g' Hstep Hg. destruct Hstep.
    + apply create_profile_records_ok; exact Hg.
    + unfold records_ok. rewrite create_event_mgr. exact Hg.
    + apply analyze_event_records_ok; assumption.
    + apply make_decision_records_ok; assumption.
    + unfold retain_event. destruct (ai_sec_mgr g) as [m|] eqn:Hm;
        [|exact Hg].
      unfold records_ok in *. rewrite Hm in Hg.
      destruct Hg as (Hp & Hev & Hc).
      cbn [set_mgr ai_sec_mgr set_recent_events process_profiles
           recent_events processes_monitored].
      split; [exact Hp | split; [|exact Hc]].
      apply Forall_app. split; [exact Hev|].
      constructor; [|constructor].
      apply assessed_logged_event_ok; assumption.
    + unfold ai_security_learning_work.
      destruct (ai_sec_mgr g) as [m|] eqn:Hm; [|exact Hg].
      destruct (ai_security_learning_enabled g); [|exact Hg].
      unfold records_ok in *. rewrite Hm in Hg.
      destruct Hg as (Hp & Hev & Hc).
      cbn [negb set_mgr ai_sec_mgr process_profiles
           recent_events processes_monitored].
      split; [|split].
      * apply Forall_map. eapply Forall_impl; [|exact Hp].
        intros p Hpp. exact Hpp.
      * rewrite Forall_forall in *. intros e Hin.
        apply filter_In in Hin. apply Hev. apply Hin.
      * rewrite length_map. exact Hc.
    + exact Hg.
Qed.


(** X5.  In every reachable state each profile's threat score lies in
    0..100, the range the header gives for the score of an event, and its
    threat level is the classification of that score: the two maxima the
    analysis keeps never drift apart. *)
Theorem reachable_profile_threat_consistent :
  forall g,
    reachable hash_32 full_name_hash g ->
    Forall (fun p =>
              0 <= Profile.threat_score p <= 100
              /\ Profile.current_threat p
                 = ai_security_classify_threat (Profile.threat_score p))
           (profile_list g).
Proof.
  intros g Hr.
  pose proof (reachable_invariant records_ok records_ok_invariant g Hr)
    as H.
  unfold records_ok in H. unfold profile_list.
  destruct (ai_sec_mgr g); [apply H | constructor].
Qed.

(** X6.  In every reachable state each event on the global log has a
    score above 20 and at most 100, a level that is the classification
    of its score, and a confidence of at most 100. *)
Theorem reachable_log_well_formed :
  forall g,
    reachable hash_32 full_name_hash g ->
    Forall (fun e =>
              20 < Event.threat_score e <= 100
              /\ Event.threat_level e
                 = ai_security_classify_threat (Event.threat_score e)
              /\ 0 <= Event.confidence e <= 100)
           (event_log g).
Proof.
  intros g Hr.
  pose proof (reachable_invariant records_ok records_ok_invariant g Hr)
    as H.
  unfold records_ok in H. unfold event_log.
  destruct (ai_sec_mgr g); [apply H | constructor].
Qed.

(** X7.  In every reachable state the [processes_monitored] statistic is
    the number of profiles on the global list (modulo 2^64): profiles are
    counted once when linked and are never unlinked or uncounted. *)
Theorem reachable_processes_monitored :
  forall g,
    reachable hash_32 full_name_hash g ->
    monitored g = u64 (live_profiles g).
Proof.
  intros g Hr.
  pose proof (reachable_invariant records_ok records_ok_invariant g Hr)
    as H.
  unfold records_ok in H. unfold monitored, live_profiles.
  destruct (ai_sec_mgr g); [apply H | reflexivity].
Qed.

(** *** The setuid hook's policy *)

Lemma profile_at_unique :
  forall g pid p p',
    profile_at hash_32 g pid p -> profile_at hash_32 g pid p' -> p = p'.
Proof.
  intros g pid p p' (m & a & Hm & Hl & Hn) (m' & a' & Hm' & Hl' & Hn').
  congruence.
Qed.

Lemma task_fix_setuid_builds :
  forall k new_uid old_uid task now g p,
    profile_at hash_32 g (task_pid task) p ->
    ai_security_is_system_process (task_pid task) = false ->
    new_uid <> old_uid ->
    event_ok k = true ->
    exists e,
      submitted (ai_security_task_fix_setuid hash_32
                   k new_uid old_uid task now g) = Some e.
Proof.
  intros k new_uid old_uid task now g p (m & a & Hm & Hl & Hn) Hsys Hneq Hok.
  unfold ai_security_task_fix_setuid.
  rewrite Hm, Hsys.
  destruct (Z.eqb_spec new_uid old_uid) as [|_]; [contradiction|].
  unfold ai_security_get_profile. rewrite Hm, Hl.
  unfold ai_security_create_event. rewrite Hok. cbn [negb].
  match goal with
  | |- context [ai_security_make_decision hash_32 ?x ?y] =>
      destruct (ai_security_make_decision hash_32 x y) as [[d e2] g2]
  end.
  eexists. reflexivity.
Qed.

Lemma formula_score_privilege :
  forall e p,
    Event.type e = AI_SECURITY_EVENT_PRIVILEGE_ESCALATION ->
    formula_score e p
    = 60 + (if F32.ltb (Profile.trust_score p) f_0_3 then 20 else 0)
         + (if 5 <? Profile.anomaly_count p then 15 else 0).
Proof.
  intros e p Hty. unfold formula_score, spec_adjustments.
  rewrite base_score_tests, Hty.
  destruct (F32.ltb (Profile.trust_score p) f_0_3),
    (5 <? Profile.anomaly_count p); reflexivity.
Qed.

(** X8.  A change of uid by a monitored subject always yields an event,
    scored 60 plus 20 for trust below 0.3 plus 15 for more than five
    anomalies, so 60, 75, 80 or 95.  Under the default policy (threshold
    75, automatic response on) the setuid hook therefore refuses exactly
    the subjects with low trust or an anomaly history, and allows every
    other escalation. *)
Theorem task_fix_setuid_default_policy :
  forall k new_uid old_uid task now g p,
    profile_at hash_32 g (task_pid task) p ->
    ai_security_is_system_process (task_pid task) = false ->
    new_uid <> old_uid ->
    event_ok k = true ->
    let r := ai_security_task_fix_setuid hash_32
               k new_uid old_uid task now g in
    exists e,
      submitted r = Some e
      /\ Event.threat_score e
         = 60 + (if F32.ltb (Profile.trust_score p) f_0_3 then 20 else 0)
              + (if 5 <? Profile.anomaly_count p then 15 else 0)
      /\ (ai_security_threat_threshold g = AI_SECURITY_THREAT_SCORE_THRESHOLD ->
          ai_security_auto_response g = true ->
          (status r = - EPERM <->
           F32.ltb (Profile.trust_score p) f_0_3 = true
           \/ 5 < Profile.anomaly_count p)).
Proof.
  intros k new_uid old_uid task now g p Hat Hsys Hneq Hok r. subst r.
  destruct (task_fix_setuid_builds k new_uid old_uid task now g p
              Hat Hsys Hneq Hok) as [e Hsub].
  exists e. split; [exact Hsub|].
  destruct (task_fix_setuid_submitted _ _ _ _ _ _ _ Hsub)
    as (g1 & e1 & p' & He & Hfresh & _ & Hty & Hpid & Hat0 & Hat1 & Hpar
        & _ & Hst).
  assert (p' = p) by exact (profile_at_unique g _ p' p Hat0 Hat).
  subst p'.
  rewrite <- Hpid in Hat1.
  assert (Hscore : Event.threat_score e
                   = 60 + (if F32.ltb (Profile.trust_score p) f_0_3
                           then 20 else 0)
                        + (if 5 <? Profile.anomaly_count p then 15 else 0)).
  { rewrite He, (assessed_found hash_32 g1 e1 p Hat1),
      (analyze_locked_score _ e1 p Hfresh).
    apply formula_score_privilege. exact Hty. }
  split; [exact Hscore|].
  intros Hthr Hauto. rewrite Hst.
  unfold denies. rewrite Hauto, Hthr, Hscore. cbn [andb].
  unfold AI_SECURITY_THREAT_SCORE_THRESHOLD, EPERM.
  destruct (F32.ltb (Profile.trust_score p) f_0_3);
    destruct (Z.ltb_spec 5 (Profile.anomaly_count p)) as [Hac | Hac]; cbn.
  - split; [intros _; left; reflexivity | reflexivity].
  - split; [intros _; left; reflexivity | reflexivity].
  - split; [intros _; right; exact Hac | reflexivity].
  - split; [intros H; discriminate H|].
    intros [H | H]; [discriminate H | lia].
Qed.

(** *** Calls the hooks pass over *)

Lemma is_system_process_lt_2 :
  forall pid, ai_security_is_system_process pid = true <-> pid < 2.
Proof.
  intros pid. unfold ai_security_is_system_process.
  rewrite orb_true_iff, Z.ltb_lt, Z.eqb_eq. lia.
Qed.

(** X9.  Before initialisation (no manager) and for the subjects the
    module treats as system processes -- every pid below 2, the test
    [pid == 1] adding nothing -- each of the three hooks returns 0, builds
    no event and leaves the whole state as it was. *)
Theorem hooks_skip_system_processes :
  forall k f new_uid old_uid task now g,
    ai_sec_mgr g = None \/ task_pid task < 2 ->
    ai_security_file_permission hash_32 full_name_hash k f task now g
    = hook_return 0 g
    /\ ai_security_task_create hash_32 k task now g = hook_return 0 g
    /\ ai_security_task_fix_setuid hash_32 k new_uid old_uid task now g
       = hook_return 0 g.
Proof.
  intros k f new_uid old_uid task now g H.
  unfold ai_security_file_permission, ai_security_task_create,
    ai_security_task_fix_setuid.
  destruct (ai_sec_mgr g) as [m|]; [|repeat split].
  destruct H as [H | H]; [discriminate H|].
  apply is_system_process_lt_2 in H. rewrite H. repeat split.
Qed.

(** X10.  Only the file hook creates profiles.  For a subject that has
    no profile the process-creation hook and the setuid hook return 0,
    build no event and change nothing, so a change of uid by a subject
    that has not yet accessed a file is never scored, counted or refused;
    a setuid call that keeps the uid is passed over in the same way. *)
Theorem hooks_pass_over_unprofiled :
  forall k new_uid old_uid task now g,
    ai_security_get_profile hash_32 g (task_pid task) = None
    \/ new_uid = old_uid ->
    ai_security_task_fix_setuid hash_32 k new_uid old_uid task now g
    = hook_return 0 g
    /\ (ai_security_get_profile hash_32 g (task_pid task) = None ->
        ai_security_task_create hash_32 k task now g = hook_return 0 g).
Proof.
  intros k new_uid old_uid task now g H.
  unfold ai_security_task_fix_setuid, ai_security_task_create.
  destruct (ai_sec_mgr g) as [m|]; [|split; reflexivity].
  destruct (ai_security_is_system_process (task_pid task));
    [split; reflexivity|].
  split.
  - destruct (Z.eqb_spec new_uid old_uid) as [|Hneq]; [reflexivity|].
    destruct H as [H | H]; [rewrite H; reflexivity | contradiction].
  - intros Hnone. rewrite Hnone. reflexivity.
Qed.

(** *** The process-creation hook *)

Lemma analyze_event_counters :
  forall e g,
    counters (snd (ai_security_analyze_event hash_32 e g)) = counters g.
Proof.
  intros e g. unfold ai_security_analyze_event, counters.
  destruct (ai_sec_mgr g) as [m|] eqn:Hm; cbn [snd]; [|rewrite Hm; reflexivity].
  destruct (ai_security_get_profile hash_32 g (Event.pid e)) as [a|];
    cbn [snd]; [|rewrite Hm; reflexivity].
  destruct (nth_error (process_profiles m) a) as [p|];
    cbn [snd]; [|rewrite Hm; reflexivity].
  destruct (analyze_locked (ai_security_threat_threshold g) e p)
    as [e' p'].
  reflexivity.
Qed.

Lemma analyze_event_parameters :
  forall e g,
    parameters (snd (ai_security_analyze_event hash_32 e g)) = parameters g.
Proof.
  intros e g. unfold ai_security_analyze_event.
  destruct (ai_sec_mgr g) as [m|]; [|reflexivity].
  destruct (ai_security_get_profile hash_32 g (Event.pid e)) as [a|];
    [|reflexivity].
  destruct (nth_error (process_profiles m) a) as [p|]; [|reflexivity].
  destruct (analyze_locked (ai_security_threat_threshold g) e p)
    as [e' p'].
  reflexivity.
Qed.

Lemma create_event_counters :
  forall ok ty now g,
    counters (snd (ai_security_create_event ok ty now g)) = counters g.
Proof.
  intros ok ty now g. unfold counters. rewrite create_event_mgr.
  reflexivity.
Qed.

Lemma formula_score_payload_free_exec :
  forall e p,
    Event.type e = AI_SECURITY_EVENT_PROCESS_EXEC ->
    Event.event_data e = None ->
    formula_score e p
    = (if F32.ltb (Profile.trust_score p) f_0_3 then 20 else 0)
      + (if 5 <? Profile.anomaly_count p then 15 else 0).
Proof.
  intros e p Hty Hdata.
  unfold formula_score, spec_adjustments.
  rewrite base_score_tests. unfold exec_from_temp.
  rewrite Hty, Hdata.
  destruct (F32.ltb (Profile.trust_score p) f_0_3),
    (5 <? Profile.anomaly_count p); reflexivity.
Qed.

(** How the process-creation hook proceeds when it builds an event. *)
Lemma task_create_submitted :
  forall k task now g e,
    submitted (ai_security_task_create hash_32 k task now g) = Some e ->
    exists g1 e1 p,
      e = assessed hash_32 e1 g1
      /\ fresh_event e1
      /\ Event.type e1 = AI_SECURITY_EVENT_PROCESS_EXEC
      /\ Event.event_data e1 = None
      /\ Event.pid e1 = task_pid task
      /\ profile_at hash_32 g (task_pid task) p
      /\ profile_at hash_32 g1 (task_pid task) p.
Proof.
  intros k task now g e. unfold ai_security_task_create.
  destruct (ai_sec_mgr g) as [m|] eqn:Hm; [|discriminate].
  destruct (ai_security_is_system_process (task_pid task)); [discriminate|].
  destruct (ai_security_get_profile hash_32 g (task_pid task)) as [a|] eqn:Hg;
    [|discriminate].
  destruct (get_profile_some hash_32 g _ a Hg) as [p Hat0].
  destruct (ai_security_create_event (event_ok k)
              AI_SECURITY_EVENT_PROCESS_EXEC now g)
    as [[rc [e0|]] g1] eqn:Hce; [|discriminate].
  destruct (create_event_result _ _ _ _ _ _ _ Hce) as (He0 & Hmgr & _).
  pose proof (profile_at_same_mgr hash_32 g g1 _ p Hmgr Hat0) as Hat.
  match goal with
  | |- context [ai_security_analyze_event hash_32 ?x g1] => set (e1 := x)
  end.
  assert (He : snd (fst (ai_security_analyze_event hash_32 e1 g1))
               = assessed hash_32 e1 g1) by reflexivity.
  destruct (ai_security_analyze_event hash_32 e1 g1) as [[r e2] g2].
  cbn [fst snd] in He. cbn [submitted].
  intros Hsub. injection Hsub as <-.
  exists g1, e1, p.
  split; [exact He|]. split; [subst e0; reflexivity|].
  split; [subst e0; reflexivity|]. split; [subst e0; reflexivity|].
  split; [reflexivity|]. split; [exact Hat0 | exact Hat].
Qed.

Lemma task_create_status :
  forall k task now g,
    status (ai_security_task_create hash_32 k task now g) = 0.
Proof.
  intros k task now g. unfold ai_security_task_create.
  destruct (ai_sec_mgr g); [|reflexivity].
  destruct (ai_security_is_system_process (task_pid task)); [reflexivity|].
  destruct (ai_security_get_profile hash_32 g (task_pid task));
    [|reflexivity].
  destruct (ai_security_create_event (event_ok k)
              AI_SECURITY_EVENT_PROCESS_EXEC now g) as [[rc [e0|]] g1];
    [|reflexivity].
  match goal with
  | |- context [ai_security_analyze_event hash_32 ?e1 g1] =>
      destruct (ai_security_analyze_event hash_32 e1 g1) as [[r e2] g2]
  end.
  reflexivity.
Qed.

Lemma task_create_counters :
  forall k task now g,
    counters (after (ai_security_task_create hash_32 k task now g))
    = counters g
    /\ parameters (after (ai_security_task_create hash_32 k task now g))
       = parameters g.
Proof.
  intros k task now g. unfold ai_security_task_create.
  destruct (ai_sec_mgr g); [|split; reflexivity].
  destruct (ai_security_is_system_process (task_pid task));
    [split; reflexivity|].
  destruct (ai_security_get_profile hash_32 g (task_pid task));
    [|split; reflexivity].
  pose proof (create_event_counters (event_ok k)
                AI_SECURITY_EVENT_PROCESS_EXEC now g) as Hc.
  pose proof (create_event_parameters (event_ok k)
                AI_SECURITY_EVENT_PROCESS_EXEC now g) as Hp.
  destruct (ai_security_create_event (event_ok k)
              AI_SECURITY_EVENT_PROCESS_EXEC now g) as [[rc [e0|]] g1];
    cbn [snd] in Hc, Hp; [|split; assumption].
  match goal with
  | |- context [ai_security_analyze_event hash_32 ?e1 g1] =>
      pose proof (analyze_event_counters e1 g1) as Hc';
      pose proof (analyze_event_parameters e1 g1) as Hp';
      destruct (ai_security_analyze_event hash_32 e1 g1) as [[r e2] g2]
  end.
  cbn [snd] in Hc', Hp'. cbn [after]. split; congruence.
Qed.

(** X11.  The process-creation hook never refuses and leaves no trace in
    the log, the statistics or the parameters.  Its event carries no
    payload, so the 40 points for executing from a temporary directory
    are never given there: the score is 0, 15, 20 or 35, made of the two
    profile adjustments alone. *)
Theorem task_create_leaves_no_trace :
  forall k task now g,
    let r := ai_security_task_create hash_32 k task now g in
    status r = 0
    /\ event_log (after r) = event_log g
    /\ counters (after r) = counters g
    /\ parameters (after r) = parameters g
    /\ (forall e, submitted r = Some e ->
          exists p,
            profile_at hash_32 g (task_pid task) p
            /\ Event.threat_score e
               = (if F32.ltb (Profile.trust_score p) f_0_3 then 20 else 0)
                 + (if 5 <? Profile.anomaly_count p then 15 else 0)).
Proof.
  intros k task now g r. subst r.
  split; [apply task_create_status|].
  split; [apply task_create_never_logs|].
  destruct (task_create_counters k task now g) as [Hc Hp].
  split; [exact Hc|]. split; [exact Hp|].
  intros e Hsub.
  destruct (task_create_submitted _ _ _ _ _ Hsub)
    as (g1 & e1 & p & He & Hfresh & Hty & Hdata & Hpid & Hat0 & Hat1).
  exists p. split; [exact Hat0|].
  rewrite <- Hpid in Hat1.
  rewrite He, (assessed_found hash_32 g1 e1 p Hat1),
    (analyze_locked_score _ e1 p Hfresh).
  apply formula_score_payload_free_exec; assumption.
Qed.

(** *** The learning pass and the event log *)

Lemma ktime_to_ms_within_hour :
  forall ns, (ktime_to_ms ns >? 3600000) = false <-> ns < 3600001000000.
Proof.
  intros ns. unfold ktime_to_ms.
  destruct (Z.gtb_spec (Z.quot ns 1000000) 3600000) as [Hgt | Hle];
    split; intros H; try reflexivity; try discriminate H.
  - pose proof (Z.quot_rem' ns 1000000) as Heq.
    destruct (Z.le_gt_cases 0 ns) as [Hpos | Hneg].
    + pose proof (Z.rem_bound_pos ns 1000000 Hpos ltac:(lia)). lia.
    + pose proof (Z.quot_opp_l (- ns) 1000000 ltac:(lia)) as Hopp.
      rewrite Z.opp_involutive in Hopp.
      pose proof (Z.quot_pos (- ns) 1000000 ltac:(lia) ltac:(lia)). lia.
  - pose proof (Z.quot_rem' ns 1000000) as Heq.
    destruct (Z.le_gt_cases 0 ns) as [Hpos | Hneg].
    + pose proof (Z.rem_bound_pos ns 1000000 Hpos ltac:(lia)). lia.
    + lia.
Qed.

(** X12.  With learning enabled, a learning pass at clock reading [now]
    keeps on the log, in their order, exactly the events younger than one
    hour and one millisecond ([now - timestamp < 3 600 001 000 000] ns:
    the age is truncated to milliseconds before the comparison, and an
    event stamped after [now] is kept); it changes no statistic and no
    parameter, unlinks no profile, and records [now] as the time of the
    last learning update.  With learning disabled the pass changes
    nothing at all. *)
Theorem learning_work_prunes_log :
  forall now g,
    let g' := ai_security_learning_work now g in
    (ai_security_learning_enabled g = false -> g' = g)
    /\ (ai_security_learning_enabled g = true ->
        event_log g'
        = filter (fun e => now - Event.timestamp e <? 3600001000000)
                 (event_log g)
        /\ counters g' = counters g
        /\ parameters g' = parameters g
        /\ map Profile.pid (profile_list g') = map Profile.pid (profile_list g)
        /\ (forall m', ai_sec_mgr g' = Some m' ->
                       last_learning_update m' = now)).
Proof.
  intros now g g'. subst g'. unfold ai_security_learning_work.
  split.
  - intros Hoff. rewrite Hoff. destruct (ai_sec_mgr g); reflexivity.
  - intros Hon. rewrite Hon. unfold event_log, counters, profile_list.
    destruct (ai_sec_mgr g) as [m|] eqn:Hm.
    + cbn [negb set_mgr ai_sec_mgr recent_events process_profiles statistics
           total_events_processed threats_detected false_positives
           threats_blocked processes_monitored].
      split; [|split; [reflexivity|split; [reflexivity|split]]].
      * apply filter_ext. intros e.
        destruct (Z.ltb_spec (now - Event.timestamp e) 3600001000000)
          as [Hlt | Hge].
        -- apply ktime_to_ms_within_hour in Hlt. rewrite Hlt. reflexivity.
        -- destruct (ktime_to_ms (now - Event.timestamp e) >? 3600000)
             eqn:Hk; [reflexivity|].
           apply ktime_to_ms_within_hour in Hk. lia.
      * rewrite map_map. apply map_ext. intros p. reflexivity.
      * intros m' Hm'. injection Hm' as <-. reflexivity.
    + rewrite Hm. repeat split. intros m' Hm'. discriminate Hm'.
Qed.

(** *** What an analysis touches *)

Lemma nth_error_list_set_other :
  forall (A : Type) (l : list A) (a b : nat) (x : A),
    a <> b -> nth_error (list_set l a x) b = nth_error l b.
Proof.
  intros A l. induction l as [|h t IH]; intros a b x Hab.
  - reflexivity.
  - destruct a, b; cbn [list_set nth_error]; try reflexivity.
    + contradiction.
    + apply IH. intros ->. apply Hab. reflexivity.
Qed.

Lemma find_ext_eq :
  forall (A : Type) (f g : A -> bool) (l : list A),
    (forall x, f x = g x) -> find f l = find g l.
Proof.
  intros A f g l H. induction l as [|h t IH]; [reflexivity|].
  cbn [find]. rewrite H, IH. reflexivity.
Qed.

Lemma lookup_same_pids :
  forall m m' pid,
    profile_hash m' = profile_hash m ->
    map Profile.pid (process_profiles m')
    = map Profile.pid (process_profiles m) ->
    ai_security_profile_lookup hash_32 m' pid
    = ai_security_profile_lookup hash_32 m pid.
Proof.
  intros m m' pid Hh Hp. unfold ai_security_profile_lookup. rewrite Hh.
  apply find_ext_eq. intros a.
  assert (H : option_map Profile.pid (nth_error (process_profiles m') a)
              = option_map Profile.pid (nth_error (process_profiles m) a)).
  { rewrite <- !nth_error_map, Hp. reflexivity. }
  destruct (nth_error (process_profiles m') a),
    (nth_error (process_profiles m) a); cbn in H;
    try discriminate H; [|reflexivity].
  injection H as ->. reflexivity.
Qed.

Lemma analyze_locked_pid :
  forall threshold e p,
    Profile.pid (snd (analyze_locked threshold e p)) = Profile.pid p.
Proof. reflexivity. Qed.

Lemma analyze_event_other_profiles :
  forall e g pid,
    pid <> Event.pid e ->
    profile_of hash_32 (snd (ai_security_analyze_event hash_32 e g)) pid
    = profile_of hash_32 g pid.
Proof.
  intros e g pid Hpid. unfold ai_security_analyze_event.
  destruct (ai_sec_mgr g) as [m|] eqn:Hm; [|reflexivity].
  unfold ai_security_get_profile. rewrite Hm.
  destruct (ai_security_profile_lookup hash_32 m (Event.pid e)) as [a|] eqn:Hl;
    [|reflexivity].
  destruct (nth_error (process_profiles m) a) as [p|] eqn:Hn; [|reflexivity].
  pose proof (analyze_locked_pid (ai_security_threat_threshold g) e p) as Hp'.
  destruct (analyze_locked (ai_security_threat_threshold g) e p)
    as [e' p'].
  cbn [snd] in *. unfold profile_of.
  cbn [set_mgr ai_sec_mgr]. rewrite Hm.
  rewrite (lookup_same_pids m
             (set_profiles m (list_set (process_profiles m) a p')) pid
             eq_refl
             (list_set_same_pid (process_profiles m) a p p' Hn Hp')).
  destruct (ai_security_profile_lookup hash_32 m pid) as [b|] eqn:Hb;
    [|reflexivity].
  cbn [set_profiles process_profiles].
  apply nth_error_list_set_other. intros ->.
  destruct (lookup_some hash_32 m _ _ Hl) as (q & Hq & Hqpid).
  destruct (lookup_some hash_32 m _ _ Hb) as (q' & Hq' & Hq'pid).
  congruence.
Qed.

Lemma make_decision_profiles :
  forall e g pid,
    profile_of hash_32 (snd (ai_security_make_decision hash_32 e g)) pid
    = profile_of hash_32 (snd (ai_security_analyze_event hash_32 e g)) pid.
Proof.
  intros e g pid. unfold ai_security_make_decision.
  destruct (ai_security_analyze_event hash_32 e g) as [[r e'] g1].
  cbn [snd]. unfold profile_of.
  destruct (ai_sec_mgr g1) as [m1|] eqn:Hm1; cbn [snd]; [|rewrite Hm1; reflexivity].
  reflexivity.
Qed.

Lemma analyze_event_pids :
  forall e g,
    map Profile.pid
      (profile_list (snd (ai_security_analyze_event hash_32 e g)))
    = map Profile.pid (profile_list g).
Proof.
  intros e g. unfold ai_security_analyze_event, profile_list.
  destruct (ai_sec_mgr g) as [m|] eqn:Hm; cbn [snd];
    [|rewrite Hm; reflexivity].
  destruct (ai_security_get_profile hash_32 g (Event.pid e)) as [a|];
    cbn [snd]; [|rewrite Hm; reflexivity].
  destruct (nth_error (process_profiles m) a) as [p|] eqn:Hn;
    cbn [snd]; [|rewrite Hm; reflexivity].
  pose proof (analyze_locked_pid (ai_security_threat_threshold g) e p) as Hp'.
  destruct (analyze_locked (ai_security_threat_threshold g) e p)
    as [e' p'].
  cbn [snd set_mgr ai_sec_mgr set_profiles process_profiles] in *.
  apply (list_set_same_pid _ a p p' Hn Hp').
Qed.

(** X13.  Analysing or deciding on an event touches one profile only:
    the profile found for any other pid is the same object with the same
    contents afterwards, and the sequence of pids on the global list is
    unchanged (no profile is created, removed or re-keyed). *)
Theorem analysis_touches_one_profile :
  forall e g pid,
    pid <> Event.pid e ->
    profile_of hash_32 (snd (ai_security_analyze_event hash_32 e g)) pid
    = profile_of hash_32 g pid
    /\ profile_of hash_32 (snd (ai_security_make_decision hash_32 e g)) pid
       = profile_of hash_32 g pid
    /\ map Profile.pid
         (profile_list (snd (ai_security_analyze_event hash_32 e g)))
       = map Profile.pid (profile_list g).
Proof.
  intros e g pid Hpid.
  split; [apply analyze_event_other_profiles; exact Hpid|].
  split; [|apply analyze_event_pids].
  rewrite make_decision_profiles.
  apply analyze_event_other_profiles; exact Hpid.
Qed.

(** *** Events of subjects without a profile *)

(** X14.  An event whose subject has no profile is given the fixed
    assessment score 25, level Low, action Warn, with its confidence left
    as it was, and is never denied -- not even under a threshold of 25 or
    less with automatic response on, because Warn never denies.  The
    decision counts it as processed, and as neither detected nor blocked;
    profiles and log stay as they were. *)
Theorem make_decision_unknown_subject :
  forall g m e,
    ai_sec_mgr g = Some m ->
    ai_security_get_profile hash_32 g (Event.pid e) = None ->
    let r := ai_security_make_decision hash_32 e g in
    fst (fst r) = 0
    /\ snd (fst r)
       = Event.assess e AI_SECURITY_THREAT_LOW 25 AI_SECURITY_ACTION_WARN
           (Event.confidence e)
    /\ profile_list (snd r) = profile_list g
    /\ event_log (snd r) = event_log g
    /\ counters (snd r)
       = [ u64 (total_events_processed m + 1); threats_detected m;
           false_positives m; threats_blocked m; processes_monitored m ]
    /\ parameters (snd r) = parameters g.
Proof.
  intros g m e Hm Hnone r. subst r.
  unfold ai_security_make_decision, ai_security_analyze_event.
  rewrite Hm, Hnone. rewrite Hm.
  cbn [Event.assess Event.threat_score Event.recommended_action fst snd].
  unfold profile_list, event_log, counters, parameters.
  cbn [set_mgr ai_sec_mgr process_profiles recent_events statistics
       total_events_processed threats_detected false_positives
       threats_blocked processes_monitored ai_security_threat_threshold
       ai_security_auto_response ai_security_learning_enabled].
  rewrite Hm.
  destruct (25 >=? ai_security_threat_threshold g);
    destruct (ai_security_auto_response g); repeat split.
Qed.

(** *** The events the hooks build *)

Lemma take_chars_length :
  forall n s, (String.length (take_chars n s) <= n)%nat.
Proof.
  induction n as [|n IH]; intros s; [destruct s; cbn; lia|].
  destruct s as [|c rest]; cbn [take_chars String.length]; [lia|].
  specialize (IH rest). lia.
Qed.

Lemma assessed_hook_event :
  forall task e g,
    hook_event task e -> hook_event task (assessed hash_32 e g).
Proof.
  intros task e g H. unfold assessed, ai_security_analyze_event.
  destruct (ai_sec_mgr g) as [m|]; [|exact H].
  destruct (ai_security_get_profile hash_32 g (Event.pid e)) as [a|];
    [|exact H].
  destruct (nth_error (process_profiles m) a) as [p|]; [|exact H].
  exact H.
Qed.

Lemma not_system_process :
  forall pid, ai_security_is_system_process pid = false -> 2 <= pid.
Proof.
  intros pid H. destruct (Z.lt_ge_cases pid 2) as [Hlt | Hge]; [|exact Hge].
  apply is_system_process_lt_2 in Hlt. congruence.
Qed.

Lemma file_permission_hook_event :
  forall k f task now g e,
    submitted (ai_security_file_permission hash_32 full_name_hash
                 k f task now g) = Some e ->
    hook_event task e /\ 2 <= task_pid task.
Proof.
  intros k f task now g e. unfold ai_security_file_permission.
  destruct (ai_sec_mgr g); [|discriminate].
  destruct (ai_security_is_system_process (task_pid task)) eqn:Hsys;
    [discriminate|].
  match goal with
  | |- context [ai_security_get_profile hash_32 ?g1 (task_pid task)] =>
      destruct (ai_security_get_profile hash_32 g1 (task_pid task));
      [|discriminate]
  end.
  match goal with
  | |- context [ai_security_create_event ?a ?b ?c ?d] =>
      destruct (ai_security_create_event a b c d) as [[rc [e0|]] g2];
      [|discriminate]
  end.
  match goal with
  | |- context [ai_security_make_decision hash_32 ?x g2] =>
      pose proof (make_decision_event hash_32 x g2) as He;
      assert (Hh : hook_event task x)
        by (split; [reflexivity | split; [reflexivity |
              exact (file_access_details_defined k f)]]);
      destruct (ai_security_make_decision hash_32 x g2) as [[d e2] g3]
  end.
  cbn [fst snd] in He. cbn [submitted]. intros Hsub. injection Hsub as <-.
  split; [|apply not_system_process; exact Hsys].
  rewrite He. apply assessed_hook_event. exact Hh.
Qed.

Lemma task_create_hook_event :
  forall k task now g e,
    submitted (ai_security_task_create hash_32 k task now g) = Some e ->
    hook_event task e /\ 2 <= task_pid task.
Proof.
  intros k task now g e. unfold ai_security_task_create.
  destruct (ai_sec_mgr g); [|discriminate].
  destruct (ai_security_is_system_process (task_pid task)) eqn:Hsys;
    [discriminate|].
  destruct (ai_security_get_profile hash_32 g (task_pid task));
    [|discriminate].
  destruct (ai_security_create_event (event_ok k)
              AI_SECURITY_EVENT_PROCESS_EXEC now g)
    as [[rc [e0|]] g1] eqn:Hce; [|discriminate].
  destruct (create_event_result _ _ _ _ _ _ _ Hce) as (He0 & _).
  match goal with
  | |- context [ai_security_analyze_event hash_32 ?x g1] =>
      assert (He : snd (fst (ai_security_analyze_event hash_32 x g1))
                   = assessed hash_32 x g1) by reflexivity;
      assert (Hh : hook_event task x)
        by (split; [reflexivity | split; [reflexivity |
              intros H; exfalso; apply H; subst e0; reflexivity]]);
      destruct (ai_security_analyze_event hash_32 x g1) as [[r e2] g2]
  end.
  cbn [fst snd] in He. cbn [submitted]. intros Hsub. injection Hsub as <-.
  split; [|apply not_system_process; exact Hsys].
  rewrite He. apply assessed_hook_event. exact Hh.
Qed.

Lemma task_fix_setuid_hook_event :
  forall k new_uid old_uid task now g e,
    submitted (ai_security_task_fix_setuid hash_32
                 k new_uid old_uid task now g) = Some e ->
    hook_event task e /\ 2 <= task_pid task.
Proof.
  intros k new_uid old_uid task now g e. unfold ai_security_task_fix_setuid.
  destruct (ai_sec_mgr g); [|discriminate].
  destruct (ai_security_is_system_process (task_pid task)) eqn:Hsys;
    [discriminate|].
  destruct (new_uid =? old_uid); [discriminate|].
  destruct (ai_security_get_profile hash_32 g (task_pid task));
    [|discriminate].
  destruct (ai_security_create_event (event_ok k)
              AI_SECURITY_EVENT_PRIVILEGE_ESCALATION now g)
    as [[rc [e0|]] g1] eqn:Hce; [|discriminate].
  destruct (create_event_result _ _ _ _ _ _ _ Hce) as (He0 & _).
  match goal with
  | |- context [ai_security_make_decision hash_32 ?x g1] =>
      pose proof (make_decision_event hash_32 x g1) as He;
      assert (Hh : hook_event task x)
        by (split; [reflexivity | split; [reflexivity |
              intros H; exfalso; apply H; subst e0; reflexivity]]);
      destruct (ai_security_make_decision hash_32 x g1) as [[d e2] g2]
  end.
  cbn [fst snd] in He. cbn [submitted]. intros Hsub. injection Hsub as <-.
  split; [|apply not_system_process; exact Hsys].
  rewrite He. apply assessed_hook_event. exact Hh.
Qed.

(** X15.  Every event a hook builds and has assessed belongs to a subject
    with pid 2 or more, carries that pid, carries the task's command name
    cut to at most 15 characters, and has a description whenever it has a
    payload -- so the [strstr] on the description in the file-access case
    of the analysis is never reached with a NULL description. *)
Theorem hook_events_well_formed :
  forall k f new_uid old_uid task now g e,
    submitted (ai_security_file_permission hash_32 full_name_hash
                 k f task now g) = Some e
    \/ submitted (ai_security_task_create hash_32 k task now g) = Some e
    \/ submitted (ai_security_task_fix_setuid hash_32
                    k new_uid old_uid task now g) = Some e ->
    Event.pid e = task_pid task
    /\ 2 <= Event.pid e
    /\ (String.length (Event.comm e) <= 15)%nat
    /\ (Event.event_data e <> None -> Event.description e <> None).
Proof.
  intros k f new_uid old_uid task now g e H.
  assert (Hh : hook_event task e /\ 2 <= task_pid task).
  { destruct H as [H | [H | H]].
    - eapply file_permission_hook_event; exact H.
    - eapply task_create_hook_event; exact H.
    - eapply task_fix_setuid_hook_event; exact H. }
  destruct Hh as ((Hpid & Hcomm & Hdef) & Hge).
  split; [exact Hpid|]. split; [rewrite Hpid; exact Hge|].
  split; [|exact Hdef].
  rewrite Hcomm. apply (take_chars_length (TASK_COMM_LEN - 1)).
Qed.

(** *** Ranges of the floating-point scores *)

Lemma ulps_compare :
  forall m1 e1 m2 e2,
    canonical_mantissa 24 128 m1 e1 = true ->
    canonical_mantissa 24 128 m2 e2 = true ->
    SFcompare (S754_finite false m1 e1) (S754_finite false m2 e2)
    = Some (ulps (Zpos m1) e1 ?= ulps (Zpos m2) e2).
Proof.
  intros m1 e1 m2 e2 H1 H2.
  destruct (canonical_facts m1 e1 H1) as (Ha1 & Hb1 & Hc1).
  destruct (canonical_facts m2 e2 H2) as (Ha2 & Hb2 & Hc2).
  cbn [SFcompare]. f_equal. unfold ulps.
  destruct (Z.compare_spec e1 e2) as [Heq | Hlt | Hgt].
  - subst e2. rewrite compare_cont_Eq.
    change (Pos.compare m1 m2) with (Zpos m1 ?= Zpos m2).
    pose proof (pow2_pos (e1 + 149) ltac:(lia)) as HP.
    destruct (Z.compare_spec (Zpos m1) (Zpos m2));
      destruct (Z.compare_spec (Z.pos m1 * 2 ^ (e1 + 149))
                  (Z.pos m2 * 2 ^ (e1 + 149)));
      try reflexivity; nia.
  - symmetry. apply Z.compare_lt_iff.
    specialize (Hc2 ltac:(lia)).
    pose proof (pow2_pos (e1 + 149) ltac:(lia)) as HP.
    assert (Hpow : 2 * 2 ^ (e1 + 149) <= 2 ^ (e2 + 149)).
    { replace (2 * 2 ^ (e1 + 149)) with (2 ^ (e1 + 149 + 1))
        by (rewrite (pow2_split (e1 + 149) 1) by lia; lia).
      apply Z.pow_le_mono_r; lia. }
    change (2 ^ 24) with 16777216 in *. change (2 ^ 23) with 8388608 in *.
    nia.
  - symmetry. apply Z.compare_gt_iff.
    specialize (Hc1 ltac:(lia)).
    pose proof (pow2_pos (e2 + 149) ltac:(lia)) as HP.
    assert (Hpow : 2 * 2 ^ (e2 + 149) <= 2 ^ (e1 + 149)).
    { replace (2 * 2 ^ (e2 + 149)) with (2 ^ (e2 + 149 + 1))
        by (rewrite (pow2_split (e2 + 149) 1) by lia; lia).
      apply Z.pow_le_mono_r; lia. }
    change (2 ^ 24) with 16777216 in *. change (2 ^ 23) with 8388608 in *.
    nia.
Qed.

(** Rounding never passes a point of the grid of the target exponent. *)
Lemma binary_round_aux_between :
  forall s mx ex,
    ex <= fexp32 (Zpos (digits2_pos mx) + ex) ->
    let e1 := fexp32 (Zpos (digits2_pos mx) + ex) in
    (binary_round_aux 24 128 s (Zpos mx) ex loc_Exact = S754_zero s
     /\ forall n, n * 2 ^ (e1 - ex) <= Zpos mx -> n <= 0)
    \/ exists mf ef,
         binary_round_aux 24 128 s (Zpos mx) ex loc_Exact
         = (if ef <=? 104 then S754_finite s mf ef else S754_infinity s)
         /\ canonical_mantissa 24 128 mf ef = true
         /\ e1 <= ef
         /\ (forall n, Zpos mx <= n * 2 ^ (e1 - ex) ->
                       Zpos mf * 2 ^ (ef - e1) <= n)
         /\ (forall n, n * 2 ^ (e1 - ex) <= Zpos mx ->
                       n <= Zpos mf * 2 ^ (ef - e1)).
Proof.
  intros s mx ex Hsh e1. subst e1. unfold binary_round_aux.
  pose proof (digits2_bounds mx) as Hd.
  set (d := Zpos (digits2_pos mx)) in *.
  destruct (shr_fexp_spec (Zpos mx) ex ltac:(lia)) as (rec1 & E1 & I1).
  cbn [Zdigits2] in E1, I1. fold d in E1, I1.
  replace (Z.max 0 (fexp32 (d + ex) - ex)) with (fexp32 (d + ex) - ex) in *
    by lia.
  set (k := fexp32 (d + ex) - ex) in *.
  assert (Hk : 0 <= k) by lia.
  rewrite E1. clear E1.
  destruct (round_nearest_even_bounds rec1) as (Hm2 & Hup & _).
  set (m2 := round_nearest_even (shr_m rec1) (loc_of_shr_record rec1)) in *.
  destruct I1 as (Hm1 & Hb1 & Hr1 & _).
  set (m1 := shr_m rec1) in *.
  destruct (shifted_mantissa_bounds _ d k m1 Hd Hk Hm1 Hb1) as [Hnz Hz].
  pose proof (pow2_pos k Hk) as HP.
  assert (Hgrid : forall n, Zpos mx <= n * 2 ^ k -> m2 <= n).
  { intros n Hn. destruct (Z.eq_dec m2 (m1 + 1)) as [E|E].
    - specialize (Hr1 (Hup E)). nia.
    - assert (m2 = m1) by lia. nia. }
  assert (Hfloor : forall n, n * 2 ^ k <= Zpos mx -> n <= m2).
  { intros n Hn. assert (n < m1 + 1) by nia. lia. }
  destruct (shr_fexp_spec m2 (ex + k) ltac:(lia)) as (rec2 & E2 & I2).
  rewrite E2. clear E2.
  set (k2 := Z.max 0 (fexp32 (Zdigits2 m2 + (ex + k)) - (ex + k))) in *.
  assert (He1 : ex + k = fexp32 (d + ex)) by (subst k; lia).
  destruct (Z.eq_dec m2 0) as [Hm20 | Hm20].
  - assert (Hk2 : k2 = 0).
    { subst k2. rewrite Hm20. cbn [Zdigits2]. unfold fexp32 in *. lia. }
    rewrite Hk2 in I2. rewrite (shr_inv_0 _ _ I2), Hm20. left.
    split; [reflexivity|]. intros n Hn.
    replace (fexp32 (d + ex) - ex) with k by lia.
    rewrite <- Hm20. apply Hfloor.
    replace (fexp32 (d + ex) - ex) with k in Hn by lia. exact Hn.
  - assert (Hpos : 0 < m2) by lia.
    pose proof (Zdigits2_bounds m2 Hpos) as Hd2.
    set (d2 := Zdigits2 m2) in *.
    assert (Hd2' :
      (k < d /\ (d2 = d - k \/ (d2 = d - k + 1 /\ m2 = 2 ^ (d - k))))
      \/ (d <= k /\ d2 = 1)).
    { destruct (Z_lt_le_dec k d) as [Hkd | Hkd]; [left | right].
      - split; [exact Hkd|]. specialize (Hnz Hkd).
        destruct (Z.eq_dec m2 (2 ^ (d - k))) as [E | E].
        + right. split; [|exact E]. subst d2.
          apply Zdigits2_unique; [exact Hpos|].
          replace (d - k + 1 - 1) with (d - k) by lia.
          rewrite (pow2_split (d - k) 1) by lia. change (2 ^ 1) with 2.
          pose proof (pow2_pos (d - k) ltac:(lia)). lia.
        + left. subst d2. apply Zdigits2_unique; [exact Hpos|]. lia.
      - split; [exact Hkd|]. specialize (Hz Hkd).
        subst d2. apply Zdigits2_unique; [exact Hpos|].
        change (2 ^ (1 - 1)) with 1. change (2 ^ 1) with 2. lia. }
    assert (Hk2 : (k2 = 0 /\ fexp32 (d2 + (ex + k)) = ex + k)
                  \/ (k2 = 1 /\ k < d /\ d2 = d - k + 1
                      /\ m2 = 2 ^ (d - k) /\ d - k = 24)).
    { subst k2. unfold fexp32 in *. lia. }
    destruct Hk2 as [[Hk20 Hcan] | (Hk21 & Hkd & Hd21 & Hm2p & HD)].
    + rewrite Hk20 in *. rewrite (shr_inv_0 _ _ I2).
      destruct m2 as [|mf|mf]; try lia.
      replace (ex + k + 0) with (ex + k) by lia.
      right. exists mf, (ex + k). split; [reflexivity|]. split.
      * unfold canonical_mantissa. rewrite fexp32_eq.
        change (Z.pos (digits2_pos mf)) with d2.
        rewrite Hcan. apply Z.eqb_refl.
      * split; [lia|].
        replace (ex + k - fexp32 (d + ex)) with 0 by lia.
        change (2 ^ 0) with 1. rewrite Z.mul_1_r.
        split; intros n Hn; [apply Hgrid | apply Hfloor]; exact Hn.
    + rewrite Hk21 in *. destruct I2 as (Hf0 & Hfb & _).
      change (2 ^ 1) with 2 in Hfb.
      assert (Hmf : shr_m rec2 = 2 ^ 23).
      { rewrite Hm2p, HD in Hfb. change (2 ^ 24) with (2 * 2 ^ 23) in Hfb.
        lia. }
      rewrite Hmf. change (2 ^ 23) with (Zpos 8388608).
      cbv iota beta.
      right. exists 8388608%positive, (ex + k + 1). split; [reflexivity|].
      split.
      * unfold canonical_mantissa. rewrite fexp32_eq.
        change (Z.pos (digits2_pos 8388608)) with 24.
        apply Z.eqb_eq. unfold fexp32 in *. lia.
      * split; [lia|].
        replace (ex + k + 1 - fexp32 (d + ex)) with 1 by lia.
        change (2 ^ 1) with 2. change (Z.pos 8388608) with 8388608.
        rewrite Hm2p, HD in Hgrid, Hfloor.
        change (2 ^ 24) with 16777216 in Hgrid, Hfloor.
        split; intros n Hn;
          [specialize (Hgrid n Hn) | specialize (Hfloor n Hn)]; lia.
Qed.

(** Rounding a value that is at most a representable bound gives a
    number that is at most that bound. *)
Lemma binary_round_le :
  forall s mx ex mB eB,
    -149 <= ex ->
    canonical_mantissa 24 128 mB eB = true ->
    eB <= 104 ->
    ulps (Zpos mx) ex <= ulps (Zpos mB) eB ->
    binary_round 24 128 s mx ex = S754_zero s
    \/ exists mf ef,
         binary_round 24 128 s mx ex = S754_finite s mf ef
         /\ canonical_mantissa 24 128 mf ef = true
         /\ ef <= 104
         /\ ulps (Zpos mf) ef <= ulps (Zpos mB) eB.
Proof.
  intros s mx ex mB eB Hex HcB HeB Hle.
  unfold binary_round. rewrite fexp32_eq.
  destruct (shl_align_spec mx ex (fexp32 (Zpos (digits2_pos mx) + ex)))
    as [Hez Hmz].
  destruct (shl_align mx ex (fexp32 (Z.pos (digits2_pos mx) + ex)))
    as [mz ez]. cbn [fst snd] in Hez, Hmz.
  pose proof (digits2_bounds mx) as Hd.
  set (d := Zpos (digits2_pos mx)) in *.
  assert (Hdz : Zpos (digits2_pos mz) = d + (ex - ez))
    by (apply digits2_shift; [lia | rewrite Hmz; f_equal; f_equal; lia]).
  assert (Hpre : ez <= fexp32 (Zpos (digits2_pos mz) + ez)).
  { rewrite Hdz. replace (d + (ex - ez) + ez) with (d + ex) by lia. lia. }
  destruct (binary_round_aux_between s mz ez Hpre)
    as [[Hzero _] | (mf & ef & Hres & Hcan & Hge & Hgrid & _)];
    [left; exact Hzero|].
  rewrite Hdz in Hge, Hgrid.
  replace (d + (ex - ez) + ez) with (d + ex) in Hge, Hgrid by lia.
  assert (Hez149 : -149 <= ez) by (unfold fexp32 in Hez; lia).
  assert (He1lo : -149 <= fexp32 (d + ex)) by (unfold fexp32; lia).
  set (e1 := fexp32 (d + ex)) in *.
  assert (He1 : ez <= e1) by lia.
  (* the bound lies on the grid of [e1] *)
  destruct (canonical_facts mB eB HcB) as (HaB & HbB & HcB').
  pose proof (digits2_bounds mB) as HdB.
  set (dB := Zpos (digits2_pos mB)) in *.
  assert (HeBcan : eB = fexp32 (dB + eB)).
  { unfold canonical_mantissa in HcB. rewrite fexp32_eq in HcB.
    apply Z.eqb_eq in HcB. fold dB in HcB. lia. }
  assert (Hdig : d + ex <= dB + eB).
  { unfold ulps in Hle.
    destruct (Z_le_gt_dec (d + ex) (dB + eB)) as [H | H]; [exact H|].
    exfalso.
    assert (H1 : 2 ^ (d - 1) * 2 ^ (ex + 149) <= Zpos mx * 2 ^ (ex + 149))
      by (apply Z.mul_le_mono_nonneg_r; [apply Z.lt_le_incl, pow2_pos|]; lia).
    assert (H2 : Zpos mB * 2 ^ (eB + 149) < 2 ^ dB * 2 ^ (eB + 149))
      by (apply Z.mul_lt_mono_pos_r; [apply pow2_pos|]; lia).
    assert (Hd1 : 1 <= d) by (subst d; lia).
    assert (HdB1 : 1 <= dB) by (subst dB; lia).
    rewrite <- (pow2_split (d - 1) (ex + 149)) in H1 by lia.
    rewrite <- (pow2_split dB (eB + 149)) in H2 by lia.
    assert (2 ^ (dB + (eB + 149)) <= 2 ^ (d - 1 + (ex + 149)))
      by (apply Z.pow_le_mono_r; lia).
    lia. }
  assert (He1B : e1 <= eB) by (subst e1; unfold fexp32 in *; lia).
  clearbody e1.
  set (n := Zpos mB * 2 ^ (eB - e1)).
  assert (Hn : Zpos mz <= n * 2 ^ (e1 - ez)).
  { unfold ulps in Hle. rewrite Hmz. rewrite <- Hez. subst n.
    pose proof (pow2_pos (ez + 149) ltac:(lia)) as HA.
    replace (ex + 149) with ((ex - ez) + (ez + 149)) in Hle by lia.
    rewrite (pow2_split (ex - ez) (ez + 149)) in Hle by lia.
    replace (eB + 149) with ((eB - e1) + ((e1 - ez) + (ez + 149))) in Hle
      by lia.
    rewrite (pow2_split (eB - e1) ((e1 - ez) + (ez + 149))) in Hle by lia.
    rewrite (pow2_split (e1 - ez) (ez + 149)) in Hle by lia.
    set (A := 2 ^ (ez + 149)) in *.
    set (X := Zpos mx * 2 ^ (ex - ez)) in *.
    set (Y := Zpos mB * 2 ^ (eB - e1) * 2 ^ (e1 - ez)) in *.
    assert (X * A <= Y * A) by (subst X Y; lia).
    apply Z.mul_le_mono_pos_r in H; [exact H | exact HA]. }
  specialize (Hgrid n Hn).
  assert (Hul : ulps (Zpos mf) ef <= ulps (Zpos mB) eB).
  { unfold ulps. subst n.
    replace (ef + 149) with ((ef - e1) + (e1 + 149)) by lia.
    rewrite (pow2_split (ef - e1) (e1 + 149)) by lia.
    replace (eB + 149) with ((eB - e1) + (e1 + 149)) by lia.
    rewrite (pow2_split (eB - e1) (e1 + 149)) by lia.
    pose proof (pow2_pos (e1 + 149) ltac:(lia)) as HA.
    set (A := 2 ^ (e1 + 149)) in *.
    rewrite !Z.mul_assoc.
    apply Z.mul_le_mono_nonneg_r; [lia | exact Hgrid]. }
  assert (Hef : ef <= eB).
  { destruct (Z_le_gt_dec ef eB) as [H | H]; [exact H|]. exfalso.
    destruct (canonical_facts mf ef Hcan) as (Haf & Hbf & Hcf).
    specialize (Hcf ltac:(lia)).
    unfold ulps in Hul.
    pose proof (pow2_pos (eB + 149) ltac:(lia)) as HP.
    assert (Hpow : 2 * 2 ^ (eB + 149) <= 2 ^ (ef + 149)).
    { replace (2 * 2 ^ (eB + 149)) with (2 ^ (eB + 149 + 1))
        by (rewrite (pow2_split (eB + 149) 1) by lia; lia).
      apply Z.pow_le_mono_r; lia. }
    change (2 ^ 24) with 16777216 in *. change (2 ^ 23) with 8388608 in *.
    nia. }
  right. exists mf, ef.
  replace (ef <=? 104) with true in Hres by (symmetry; apply Z.leb_le; lia).
  split; [exact Hres|]. split; [exact Hcan|]. split; [lia | exact Hul].
Qed.

Lemma nonneg_finite :
  forall s m e,
    nonneg (S754_finite s m e) = true ->
    s = false /\ canonical_mantissa 24 128 m e = true /\ e <= 104.
Proof.
  intros s m e H. destruct s; [discriminate H|].
  cbn [nonneg valid_binary] in H. unfold bounded in H.
  apply andb_true_iff in H. destruct H as [Hc He].
  apply Z.leb_le in He. repeat split; [exact Hc | exact He].
Qed.

Lemma finite_nonneg :
  forall m e,
    canonical_mantissa 24 128 m e = true -> e <= 104 ->
    nonneg (S754_finite false m e) = true.
Proof.
  intros m e Hc He. cbn [nonneg valid_binary]. unfold bounded.
  rewrite Hc. apply Z.leb_le in He. exact He.
Qed.

Lemma leb_ulps :
  forall m1 e1 m2 e2,
    canonical_mantissa 24 128 m1 e1 = true ->
    canonical_mantissa 24 128 m2 e2 = true ->
    (F32.leb (S754_finite false m1 e1) (S754_finite false m2 e2) = true
     <-> ulps (Zpos m1) e1 <= ulps (Zpos m2) e2).
Proof.
  intros m1 e1 m2 e2 H1 H2. unfold F32.leb, SFleb.
  rewrite (ulps_compare m1 e1 m2 e2 H1 H2).
  destruct (Z.compare_spec (ulps (Zpos m1) e1) (ulps (Zpos m2) e2));
    split; intros H'; try reflexivity; try discriminate H'; lia.
Qed.

Lemma ltb_ulps :
  forall m1 e1 m2 e2,
    canonical_mantissa 24 128 m1 e1 = true ->
    canonical_mantissa 24 128 m2 e2 = true ->
    (F32.ltb (S754_finite false m1 e1) (S754_finite false m2 e2) = true
     <-> ulps (Zpos m1) e1 < ulps (Zpos m2) e2).
Proof.
  intros m1 e1 m2 e2 H1 H2. unfold F32.ltb, SFltb.
  rewrite (ulps_compare m1 e1 m2 e2 H1 H2).
  destruct (Z.compare_spec (ulps (Zpos m1) e1) (ulps (Zpos m2) e2));
    split; intros H'; try reflexivity; try discriminate H'; lia.
Qed.

Lemma aligned_ulps :
  forall mx ex ez,
    -149 <= ez -> ez <= ex ->
    Zpos (fst (shl_align mx ex ez)) * 2 ^ (ez + 149) = ulps (Zpos mx) ex.
Proof.
  intros mx ex ez Hez Hle.
  destruct (shl_align_spec mx ex ez) as [_ Hm]. rewrite Hm.
  replace (Z.min ex ez) with ez by lia. unfold ulps.
  replace (ex + 149) with ((ex - ez) + (ez + 149)) by lia.
  rewrite (pow2_split (ex - ez) (ez + 149)) by lia. lia.
Qed.

(** [max(0.0f, x - y)] for non-negative [x <= b] and non-negative [y]. *)
Lemma sub_max_in_range :
  forall x y mB eB,
    canonical_mantissa 24 128 mB eB = true ->
    eB <= 104 ->
    nonneg x = true ->
    F32.leb x (S754_finite false mB eB) = true ->
    nonneg y = true ->
    nonneg (F32.max f_0_0 (F32.sub x y)) = true
    /\ F32.leb (F32.max f_0_0 (F32.sub x y)) (S754_finite false mB eB) = true.
Proof.
  intros x y mB eB HcB HeB Hx HxB Hy.
  destruct x as [sx | sx | | sx mx ex]; try discriminate Hx;
    destruct y as [sy | sy | | sy my ey]; try discriminate Hy.
  - destruct sx, sy; split; reflexivity.
  - apply nonneg_finite in Hy. destruct Hy as (-> & _). split; reflexivity.
  - pose proof Hx as Hx'. apply nonneg_finite in Hx'.
    destruct Hx' as (-> & _). split; [exact Hx | exact HxB].
  - pose proof (nonneg_finite _ _ _ Hx) as (-> & Hcx & Hex).
    pose proof (nonneg_finite _ _ _ Hy) as (-> & Hcy & Hey).
    destruct (canonical_facts mx ex Hcx) as (Hax & _).
    destruct (canonical_facts my ey Hcy) as (Hay & _).
    apply (leb_ulps mx ex mB eB Hcx HcB) in HxB.
    unfold F32.sub, SFsub, F32.prec, F32.emax. cbn [cond_Zopp].
    set (ez := Z.min ex ey).
    pose proof (aligned_ulps mx ex ez ltac:(lia) ltac:(lia)) as HX.
    pose proof (aligned_ulps my ey ez ltac:(lia) ltac:(lia)) as HY.
    set (X := Zpos (fst (shl_align mx ex ez))) in *.
    set (Y := Zpos (fst (shl_align my ey ez))) in *.
    unfold binary_normalize.
    destruct (X - Y) as [|m|m] eqn:HM.
    + split; reflexivity.
    + assert (Hm : ulps (Zpos m) ez <= ulps (Zpos mB) eB).
      { unfold ulps at 1. rewrite <- HM.
        pose proof (pow2_pos (ez + 149) ltac:(lia)) as HP.
        assert (0 <= ulps (Zpos my) ey)
          by (unfold ulps; apply Z.mul_nonneg_nonneg;
              [lia | apply Z.lt_le_incl, pow2_pos; lia]).
        nia. }
      destruct (binary_round_le false m ez mB eB ltac:(lia) HcB HeB Hm)
        as [Hz | (mf & ef & Hres & Hcan & Hef & Hul)].
      * rewrite Hz. split; reflexivity.
      * rewrite Hres. unfold F32.max, F32.gtb, F32.ltb, SFltb, f_0_0, F32.zero.
        cbn [SFcompare].
        split; [apply finite_nonneg; assumption|].
        apply leb_ulps; assumption.
    + destruct (binary_round_spec true m ez ltac:(lia))
        as [Hz | (mf & ef & Hres & _)].
      * rewrite Hz. split; reflexivity.
      * rewrite Hres. destruct (ef <=? 104); split; reflexivity.
Qed.

(** The sum of two non-negative numbers is non-negative or overflows. *)
Lemma add_nonneg :
  forall x y,
    nonneg x = true -> nonneg y = true ->
    F32.add x y = S754_infinity false \/ nonneg (F32.add x y) = true.
Proof.
  intros x y Hx Hy.
  destruct x as [sx | sx | | sx mx ex]; try discriminate Hx;
    destruct y as [sy | sy | | sy my ey]; try discriminate Hy.
  - right. destruct sx, sy; reflexivity.
  - right. exact Hy.
  - right. exact Hx.
  - pose proof (nonneg_finite _ _ _ Hx) as (-> & Hcx & Hex).
    pose proof (nonneg_finite _ _ _ Hy) as (-> & Hcy & Hey).
    destruct (canonical_facts mx ex Hcx) as (Hax & _).
    destruct (canonical_facts my ey Hcy) as (Hay & _).
    unfold F32.add, SFadd, F32.prec, F32.emax.
    cbn [cond_Zopp Z.add binary_normalize].
    destruct (binary_round_spec false
                (fst (shl_align mx ex (Z.min ex ey))
                 + fst (shl_align my ey (Z.min ex ey)))%positive
                (Z.min ex ey) ltac:(lia))
      as [Hz | (mf & ef & Hres & Hcan & _)].
    + right. rewrite Hz. reflexivity.
    + rewrite Hres. destruct (Z.leb_spec ef 104) as [Hle | Hgt].
      * right. apply finite_nonneg; assumption.
      * left. reflexivity.
Qed.

(** [min(b, x + y)] for non-negative [x] and [y]. *)
Lemma add_min_in_range :
  forall x y mB eB,
    canonical_mantissa 24 128 mB eB = true ->
    eB <= 104 ->
    nonneg x = true -> nonneg y = true ->
    nonneg (F32.min (S754_finite false mB eB) (F32.add x y)) = true
    /\ F32.leb (F32.min (S754_finite false mB eB) (F32.add x y))
         (S754_finite false mB eB) = true.
Proof.
  intros x y mB eB HcB HeB Hx Hy.
  assert (HB : nonneg (S754_finite false mB eB) = true)
    by (apply finite_nonneg; assumption).
  assert (HBB : F32.leb (S754_finite false mB eB) (S754_finite false mB eB)
                = true) by (apply leb_ulps; [assumption | assumption | lia]).
  destruct (add_nonneg x y Hx Hy) as [Hinf | Hr].
  - rewrite Hinf. unfold F32.min, F32.ltb, SFltb. cbn [SFcompare].
    split; assumption.
  - unfold F32.min.
    destruct (F32.ltb (S754_finite false mB eB) (F32.add x y)) eqn:Hlt;
      [split; assumption|].
    split; [exact Hr|].
    destruct (F32.add x y) as [s | s | | s m e]; try discriminate Hr.
    + reflexivity.
    + pose proof (nonneg_finite _ _ _ Hr) as (-> & Hc & He).
      apply leb_ulps; [assumption | assumption|].
      destruct (Z_le_gt_dec (ulps (Zpos m) e) (ulps (Zpos mB) eB))
        as [H | H]; [exact H|].
      assert (F32.ltb (S754_finite false mB eB) (S754_finite false m e) = true)
        by (apply ltb_ulps; [assumption | assumption | lia]).
      congruence.
Qed.

Lemma f_1_0_value : f_1_0 = S754_finite false 8388608 (-23).
Proof. vm_compute. reflexivity. Qed.

Lemma nonneg_valid : forall x, nonneg x = true -> F32.valid x = true.
Proof.
  intros [s | s | | s m e] H; try discriminate H; [reflexivity|].
  destruct s; [discriminate H | exact H].
Qed.

Lemma nonneg_within :
  forall x mB eB,
    nonneg x = true ->
    F32.leb x (S754_finite false mB eB) = true ->
    within (S754_finite false mB eB) x.
Proof.
  intros x mB eB Hn Hl. split; [apply nonneg_valid; exact Hn|].
  split; [|exact Hl].
  destruct x as [s | s | | s m e]; try discriminate Hn; [reflexivity|].
  destruct s; [discriminate Hn | reflexivity].
Qed.

Lemma leb_trans_finite :
  forall x m1 e1 m2 e2,
    canonical_mantissa 24 128 m1 e1 = true ->
    canonical_mantissa 24 128 m2 e2 = true ->
    nonneg x = true ->
    F32.leb x (S754_finite false m1 e1) = true ->
    ulps (Zpos m1) e1 <= ulps (Zpos m2) e2 ->
    F32.leb x (S754_finite false m2 e2) = true.
Proof.
  intros x m1 e1 m2 e2 H1 H2 Hn Hl Hle.
  destruct x as [s | s | | s m e]; try discriminate Hn; [reflexivity|].
  pose proof (nonneg_finite _ _ _ Hn) as (-> & Hc & He).
  apply leb_ulps; [assumption | assumption|].
  apply (leb_ulps m e m1 e1 Hc H1) in Hl. lia.
Qed.

(** The three score decrements and increments of the analysis, for every
    score from 0 to 100. *)
Lemma deltas_nonneg :
  forall score,
    0 <= score <= 100 ->
    nonneg (F32.div (F32.of_Z score) f_200) = true
    /\ nonneg (F32.div (F32.of_Z score) f_500) = true
    /\ nonneg (F32.div (F32.of_Z score) f_1000) = true.
Proof.
  intros score Hs.
  assert (Hall : forallb
                   (fun n =>
                      nonneg (F32.div (F32.of_Z (Z.of_nat n)) f_200)
                      && nonneg (F32.div (F32.of_Z (Z.of_nat n)) f_500)
                      && nonneg (F32.div (F32.of_Z (Z.of_nat n)) f_1000))
                   (seq 0 101) = true) by (vm_compute; reflexivity).
  rewrite forallb_forall in Hall.
  specialize (Hall (Z.to_nat score)).
  rewrite Z2Nat.id in Hall by lia.
  assert (Hin : In (Z.to_nat score) (seq 0 101)) by (apply in_seq; lia).
  specialize (Hall Hin).
  apply andb_true_iff in Hall. destruct Hall as [Hall H3].
  apply andb_true_iff in Hall. destruct Hall as [H1 H2].
  repeat split; assumption.
Qed.

Lemma new_profile_scores_ok :
  forall hash b task now, scores_ok (new_profile hash b task now).
Proof.
  intros hash b task now. unfold scores_ok, new_profile.
  cbn [Profile.trust_score Profile.risk_score Profile.behavior_score].
  repeat split; vm_compute; reflexivity.
Qed.

Lemma analyze_locked_scores_ok :
  forall threshold e p,
    pristine e ->
    scores_ok p ->
    scores_ok (snd (analyze_locked threshold e p)).
Proof.
  intros threshold e p He ((Ht & Htb) & (Hr & Hrb) & (Hb & Hbb)).
  pose proof (analyze_locked_score threshold e p (proj1 He)) as Hs.
  pose proof (formula_score_range e p) as Hrange.
  rewrite <- Hs in Hrange.
  destruct (deltas_nonneg _ Hrange) as (H200 & H500 & H1000).
  assert (Hbeh : Profile.behavior_score (snd (analyze_locked threshold e p))
                 = F32.max f_0_0
                     (F32.sub (Profile.behavior_score p)
                        (F32.div
                           (F32.of_Z (Event.threat_score
                                        (fst (analyze_locked threshold e p))))
                           f_200))) by reflexivity.
  assert (Hrisk : Profile.risk_score (snd (analyze_locked threshold e p))
                  = F32.min f_1_0
                      (F32.add (Profile.risk_score p)
                         (F32.div
                            (F32.of_Z (Event.threat_score
                                         (fst (analyze_locked threshold e p))))
                            f_1000))) by reflexivity.
  assert (Htru : Profile.trust_score (snd (analyze_locked threshold e p))
                 = F32.max f_0_0
                     (F32.sub (Profile.trust_score p)
                        (F32.div
                           (F32.of_Z (Event.threat_score
                                        (fst (analyze_locked threshold e p))))
                           f_500))) by reflexivity.
  unfold scores_ok. rewrite Hbeh, Hrisk, Htru.
  rewrite f_0_81_value, f_1_0_value, f_0_8_value in *.
  split; [|split].
  - apply sub_max_in_range; try assumption; [reflexivity | lia].
  - apply add_min_in_range; try assumption; [reflexivity | lia].
  - apply sub_max_in_range; try assumption; [reflexivity | lia].
Qed.

Lemma f_0_005_nonneg : nonneg f_0_005 = true.
Proof. vm_compute. reflexivity. Qed.

Lemma f_0_01_nonneg : nonneg f_0_01 = true.
Proof. vm_compute. reflexivity. Qed.

Lemma learn_profile_scores_ok :
  forall now p, scores_ok p -> scores_ok (learn_profile now p).
Proof.
  intros now p ((Ht & Htb) & (Hr & Hrb) & (Hb & Hbb)).
  unfold scores_ok, learn_profile.
  cbn [Profile.trust_score Profile.risk_score Profile.behavior_score].
  destruct ((Profile.anomaly_count p =? 0)
            && F32.ltb (Profile.trust_score p) f_0_8) eqn:Hres;
    [|repeat split; assumption].
  apply andb_true_iff in Hres. destruct Hres as [_ Hlt].
  split; [|split; [|split; assumption]].
  - destruct (add_0_01_below_0_8 (Profile.trust_score p)
                (nonneg_valid _ Ht) Hlt) as [_ Hle].
    split; [|exact Hle].
    destruct (add_nonneg _ _ Ht f_0_01_nonneg) as [Hinf | Hn];
      [|exact Hn].
    rewrite Hinf in Hle. discriminate Hle.
  - rewrite f_1_0_value in *.
    apply sub_max_in_range; try assumption;
      [reflexivity | lia | exact f_0_005_nonneg].
Qed.

Section ProfileInvariant.

Variable P : ai_security_profile -> Prop.
Hypothesis P_new : forall b task now, P (new_profile full_name_hash b task now).
Hypothesis P_analyze :
  forall threshold e p,
    pristine e -> P p -> P (snd (analyze_locked threshold e p)).
Hypothesis P_learn : forall now p, P p -> P (learn_profile now p).

(** A property of profiles that creation establishes and analysis and
    learning keep holds of every profile along the elementary steps. *)
Lemma profiles_invariant :
  invariant hash_32 full_name_hash (fun g => Forall P (profile_list g)).
Proof.
  split.
  - intros threshold auto_response learning. constructor.
  - intros g g' Hstep Hg. unfold profile_list in *. destruct Hstep.
    + unfold ai_security_create_profile.
      destruct (ai_sec_mgr g) as [m|] eqn:Hm; cbn [snd];
        [|rewrite Hm; constructor].
      destruct (ai_security_get_profile hash_32 g (task_pid task));
        cbn [snd]; [rewrite Hm; exact Hg|].
      destruct (profile_ok k); cbn [negb snd]; [|rewrite Hm; exact Hg].
      cbn [set_mgr ai_sec_mgr link_profile process_profiles].
      apply Forall_app. split; [exact Hg|].
      constructor; [apply P_new | constructor].
    + rewrite create_event_mgr. exact Hg.
    + unfold ai_security_analyze_event.
      destruct (ai_sec_mgr g) as [m|] eqn:Hm; cbn [snd];
        [|rewrite Hm; constructor].
      destruct (ai_security_get_profile hash_32 g (Event.pid e)) as [a|];
        cbn [snd]; [|rewrite Hm; exact Hg].
      destruct (nth_error (process_profiles m) a) as [p|] eqn:Hn;
        cbn [snd]; [|rewrite Hm; exact Hg].
      pose proof (P_analyze (ai_security_threat_threshold g) e p H) as Hp'.
      destruct (analyze_locked (ai_security_threat_threshold g) e p)
        as [e' p'].
      cbn [snd set_mgr ai_sec_mgr set_profiles process_profiles] in *.
      apply Forall_list_set; [exact Hg|]. apply Hp'.
      rewrite Forall_forall in Hg. apply Hg.
      eapply nth_error_In; exact Hn.
    + assert (Ha : Forall P
                     (profile_list
                        (snd (ai_security_analyze_event hash_32 e g)))).
      { unfold profile_list, ai_security_analyze_event.
        destruct (ai_sec_mgr g) as [m|] eqn:Hm; cbn [snd];
          [|rewrite Hm; constructor].
        destruct (ai_security_get_profile hash_32 g (Event.pid e)) as [a|];
          cbn [snd]; [|rewrite Hm; exact Hg].
        destruct (nth_error (process_profiles m) a) as [p|] eqn:Hn;
          cbn [snd]; [|rewrite Hm; exact Hg].
        pose proof (P_analyze (ai_security_threat_threshold g) e p H) as Hp'.
        destruct (analyze_locked (ai_security_threat_threshold g) e p)
          as [e' p'].
        cbn [snd set_mgr ai_sec_mgr set_profiles process_profiles] in *.
        apply Forall_list_set; [exact Hg|]. apply Hp'.
        rewrite Forall_forall in Hg. apply Hg.
        eapply nth_error_In; exact Hn. }
      unfold profile_list in Ha. unfold ai_security_make_decision.
      destruct (ai_security_analyze_event hash_32 e g) as [[r e'] g1].
      cbn [snd] in Ha.
      destruct (ai_sec_mgr g1) as [m1|] eqn:Hm1; cbn [snd];
        [|rewrite Hm1; constructor].
      exact Ha.
    + unfold retain_event.
      destruct (ai_sec_mgr g) as [m|] eqn:Hm; [|rewrite Hm; constructor].
      exact Hg.
    + unfold ai_security_learning_work.
      destruct (ai_sec_mgr g) as [m|] eqn:Hm; [|rewrite Hm; constructor].
      destruct (ai_security_learning_enabled g); cbn [negb];
        [|rewrite Hm; exact Hg].
      cbn [set_mgr ai_sec_mgr process_profiles].
      apply Forall_map. eapply Forall_impl; [|exact Hg].
      intros p Hp. apply P_learn. exact Hp.
    + exact Hg.
Qed.

End ProfileInvariant.

(** X16.  In every reachable state the three floating-point scores of
    every profile are numbers (no NaN, no infinity) within the range
    0.0-1.0 that the header documents; more precisely trust stays within
    [0, 0.81], risk within [0, 1] and behaviour within [0, 0.8], whatever
    events arrive and however often the learning pass runs. *)
Theorem reachable_scores_in_range :
  forall g,
    reachable hash_32 full_name_hash g ->
    Forall (fun p =>
              within f_0_81 (Profile.trust_score p)
              /\ within f_1_0 (Profile.risk_score p)
              /\ within f_0_8 (Profile.behavior_score p)
              /\ F32.leb (Profile.trust_score p) f_1_0 = true
              /\ F32.leb (Profile.behavior_score p) f_1_0 = true)
           (profile_list g).
Proof.
  intros g Hr.
  pose proof (reachable_invariant _
                (profiles_invariant scores_ok
                   (new_profile_scores_ok full_name_hash)
                   analyze_locked_scores_ok learn_profile_scores_ok)
                g Hr) as H.
  cbv beta in H. eapply Forall_impl; [|exact H].
  intros p ((Ht & Htb) & (Hr' & Hrb) & (Hb & Hbb)).
  rewrite f_0_81_value, f_1_0_value, f_0_8_value in *.
  split; [apply nonneg_within; assumption|].
  split; [apply nonneg_within; assumption|].
  split; [apply nonneg_within; assumption|].
  split.
  - apply (leb_trans_finite _ 13589545 (-24) 8388608 (-23));
      try assumption; try reflexivity. vm_compute. discriminate.
  - apply (leb_trans_finite _ 13421773 (-24) 8388608 (-23));
      try assumption; try reflexivity. vm_compute. discriminate.
Qed.

(** *** Scores move one way *)

(** Rounding a value that is at least a representable bound gives a
    number that is at least that bound. *)
Lemma binary_round_ge :
  forall mx ex mB eB,
    -149 <= ex ->
    canonical_mantissa 24 128 mB eB = true ->
    ulps (Zpos mB) eB <= ulps (Zpos mx) ex ->
    exists mf ef,
      binary_round 24 128 false mx ex
      = (if ef <=? 104 then S754_finite false mf ef
         else S754_infinity false)
      /\ canonical_mantissa 24 128 mf ef = true
      /\ ulps (Zpos mB) eB <= ulps (Zpos mf) ef.
Proof.
  intros mx ex mB eB Hex HcB Hle.
  unfold binary_round. rewrite fexp32_eq.
  destruct (shl_align_spec mx ex (fexp32 (Zpos (digits2_pos mx) + ex)))
    as [Hez Hmz].
  destruct (shl_align mx ex (fexp32 (Z.pos (digits2_pos mx) + ex)))
    as [mz ez]. cbn [fst snd] in Hez, Hmz.
  pose proof (digits2_bounds mx) as Hd.
  set (d := Zpos (digits2_pos mx)) in *.
  assert (Hd1 : 1 <= d) by (subst d; lia).
  assert (Hdz : Zpos (digits2_pos mz) = d + (ex - ez))
    by (apply digits2_shift; [lia | rewrite Hmz; f_equal; f_equal; lia]).
  assert (Hpre : ez <= fexp32 (Zpos (digits2_pos mz) + ez)).
  { rewrite Hdz. replace (d + (ex - ez) + ez) with (d + ex) by lia. lia. }
  pose proof (digits2_bounds mz) as Hbz. rewrite Hdz in Hbz.
  assert (Hez149 : -149 <= ez) by (unfold fexp32 in Hez; lia).
  assert (He1lo : -149 <= fexp32 (d + ex)) by (unfold fexp32; lia).
  assert (He1hi : fexp32 (d + ex) <= d + ex - 1) by (unfold fexp32; lia).
  assert (He1or : fexp32 (d + ex) = d + ex - 24 \/ fexp32 (d + ex) = -149)
    by (unfold fexp32; lia).
  destruct (binary_round_aux_between false mz ez Hpre)
    as [[_ Hzero] | (mf & ef & Hres & Hcan & Hge & _ & Hfloor)];
    rewrite Hdz in *;
    replace (d + (ex - ez) + ez) with (d + ex) in * by lia;
    set (e1 := fexp32 (d + ex)) in *; clearbody e1.
  - exfalso. specialize (Hzero 1).
    assert (2 ^ (e1 - ez) <= 2 ^ (d + (ex - ez) - 1))
      by (apply Z.pow_le_mono_r; lia).
    lia.
  - exists mf, ef. split; [exact Hres|]. split; [exact Hcan|].
    destruct (canonical_facts mB eB HcB) as (HaB & HbB & _).
    pose proof (pow2_pos (e1 + 149) ltac:(lia)) as HA.
    assert (Hrew : ulps (Zpos mf) ef
                   = Zpos mf * 2 ^ (ef - e1) * 2 ^ (e1 + 149)).
    { unfold ulps. replace (ef + 149) with ((ef - e1) + (e1 + 149)) by lia.
      rewrite (pow2_split (ef - e1) (e1 + 149)) by lia. lia. }
    assert (Hval : ulps (Zpos mx) ex = Zpos mz * 2 ^ (ez + 149)).
    { unfold ulps. rewrite Hmz, <- Hez.
      replace (ex + 149) with ((ex - ez) + (ez + 149)) by lia.
      rewrite (pow2_split (ex - ez) (ez + 149)) by lia. lia. }
    rewrite Hrew. rewrite Hval in Hle.
    destruct (Z_le_gt_dec e1 eB) as [HeB | HeB].
    + set (n := Zpos mB * 2 ^ (eB - e1)).
      assert (Hn : n * 2 ^ (e1 - ez) <= Zpos mz).
      { unfold ulps in Hle. subst n.
        pose proof (pow2_pos (ez + 149) ltac:(lia)) as HP.
        replace (eB + 149) with ((eB - e1) + ((e1 - ez) + (ez + 149)))
          in Hle by lia.
        rewrite (pow2_split (eB - e1) ((e1 - ez) + (ez + 149))) in Hle
          by lia.
        rewrite (pow2_split (e1 - ez) (ez + 149)) in Hle by lia.
        set (A := 2 ^ (ez + 149)) in *.
        set (Y := Zpos mB * 2 ^ (eB - e1) * 2 ^ (e1 - ez)) in *.
        assert (Y * A <= Zpos mz * A) by (subst Y; lia).
        apply Z.mul_le_mono_pos_r in H; [exact H | exact HP]. }
      specialize (Hfloor n Hn). unfold ulps. subst n.
      replace (eB + 149) with ((eB - e1) + (e1 + 149)) by lia.
      rewrite (pow2_split (eB - e1) (e1 + 149)) by lia.
      rewrite Z.mul_assoc.
      apply Z.mul_le_mono_nonneg_r; [lia | exact Hfloor].
    + assert (He1 : e1 = d + ex - 24) by lia.
      set (n := 2 ^ (d + ex - 1 - e1)).
      assert (Hn : n * 2 ^ (e1 - ez) <= Zpos mz).
      { subst n. rewrite <- (pow2_split (d + ex - 1 - e1) (e1 - ez)) by lia.
        replace (d + ex - 1 - e1 + (e1 - ez)) with (d + (ex - ez) - 1)
          by lia.
        lia. }
      specialize (Hfloor n Hn). subst n.
      assert (Hlow : 2 ^ (d + ex - 1 - e1) * 2 ^ (e1 + 149)
                     <= Zpos mf * 2 ^ (ef - e1) * 2 ^ (e1 + 149))
        by (apply Z.mul_le_mono_nonneg_r; [lia | exact Hfloor]).
      rewrite <- (pow2_split (d + ex - 1 - e1) (e1 + 149)) in Hlow by lia.
      unfold ulps.
      assert (Hpow : 2 ^ 24 * 2 ^ (eB + 149)
                     <= 2 ^ (d + ex - 1 - e1 + (e1 + 149))).
      { rewrite <- (pow2_split 24 (eB + 149)) by lia.
        apply Z.pow_le_mono_r; lia. }
      pose proof (pow2_pos (eB + 149) ltac:(lia)) as HPB.
      nia.
Qed.

(** A sum of non-negative numbers is not below its first operand. *)
Lemma add_ge_left :
  forall x y,
    nonneg x = true -> nonneg y = true ->
    F32.add x y = S754_infinity false
    \/ (nonneg (F32.add x y) = true /\ F32.leb x (F32.add x y) = true).
Proof.
  intros x y Hx Hy.
  destruct x as [sx | sx | | sx mx ex]; try discriminate Hx;
    destruct y as [sy | sy | | sy my ey]; try discriminate Hy.
  - right. destruct sx, sy; split; reflexivity.
  - right. split; [exact Hy|].
    apply nonneg_finite in Hy. destruct Hy as (-> & _). reflexivity.
  - right. split; [exact Hx|].
    pose proof (nonneg_finite _ _ _ Hx) as (-> & Hc & _).
    apply leb_ulps; [assumption | assumption | lia].
  - pose proof (nonneg_finite _ _ _ Hx) as (-> & Hcx & Hex).
    pose proof (nonneg_finite _ _ _ Hy) as (-> & Hcy & Hey).
    destruct (canonical_facts mx ex Hcx) as (Hax & _).
    destruct (canonical_facts my ey Hcy) as (Hay & _).
    unfold F32.add, SFadd, F32.prec, F32.emax.
    cbn [cond_Zopp Z.add binary_normalize].
    set (ez := Z.min ex ey).
    pose proof (aligned_ulps mx ex ez ltac:(lia) ltac:(lia)) as HX.
    set (X := fst (shl_align mx ex ez)) in *.
    set (Y := fst (shl_align my ey ez)) in *.
    assert (Hle : ulps (Zpos mx) ex <= ulps (Zpos (X + Y)) ez).
    { rewrite <- HX. unfold ulps. rewrite Pos2Z.inj_add.
      pose proof (pow2_pos (ez + 149) ltac:(lia)). nia. }
    destruct (binary_round_ge (X + Y) ez mx ex ltac:(lia) Hcx Hle)
      as (mf & ef & Hres & Hcan & Hul).
    rewrite Hres. destruct (Z.leb_spec ef 104) as [H104 | H104].
    + right. split; [apply finite_nonneg; assumption|].
      apply leb_ulps; assumption.
    + left. reflexivity.
Qed.

Lemma leb_refl_nonneg :
  forall x, nonneg x = true -> F32.leb x x = true.
Proof.
  intros [s | s | | s m e] H; try discriminate H; [reflexivity|].
  pose proof (nonneg_finite _ _ _ H) as (-> & Hc & _).
  apply leb_ulps; [assumption | assumption | lia].
Qed.

Lemma add_min_ge_left :
  forall x y mB eB,
    nonneg x = true ->
    F32.leb x (S754_finite false mB eB) = true ->
    nonneg y = true ->
    F32.leb x (F32.min (S754_finite false mB eB) (F32.add x y)) = true.
Proof.
  intros x y mB eB Hx HxB Hy. unfold F32.min.
  destruct (add_ge_left x y Hx Hy) as [Hinf | [_ Hle]].
  - rewrite Hinf. unfold F32.ltb, SFltb. cbn [SFcompare]. exact HxB.
  - destruct (F32.ltb (S754_finite false mB eB) (F32.add x y));
      assumption.
Qed.

(** *** An analysis never raises trust *)

Lemma sub_max_le_self :
  forall x y,
    nonneg x = true -> nonneg y = true ->
    F32.leb (F32.max f_0_0 (F32.sub x y)) x = true.
Proof.
  intros x y Hx Hy.
  destruct x as [sx | sx | | sx mx ex] eqn:Ex; try discriminate Hx.
  - destruct y as [sy | sy | | sy my ey]; try discriminate Hy.
    + destruct sx, sy; reflexivity.
    + apply nonneg_finite in Hy. destruct Hy as (-> & _). reflexivity.
  - pose proof (nonneg_finite _ _ _ Hx) as (-> & Hc & He).
    apply sub_max_in_range; try assumption.
    apply leb_ulps; [assumption | assumption | lia].
Qed.

Lemma nth_error_list_set_same :
  forall (A : Type) (l : list A) (a : nat) (x y : A),
    nth_error l a = Some y -> nth_error (list_set l a x) a = Some x.
Proof.
  intros A l. induction l as [|h t IH]; intros a x y H.
  - destruct a; discriminate H.
  - destruct a; cbn [list_set nth_error] in *; [reflexivity|].
    eapply IH; exact H.
Qed.

Lemma analyze_event_profile_at :
  forall g e p,
    profile_at hash_32 g (Event.pid e) p ->
    profile_at hash_32 (snd (ai_security_analyze_event hash_32 e g))
      (Event.pid e)
      (snd (analyze_locked (ai_security_threat_threshold g) e p)).
Proof.
  intros g e p (m & a & Hm & Hl & Hn).
  rewrite (analyze_event_found hash_32 g m a p e Hm Hl Hn). cbn [snd].
  set (p' := snd (analyze_locked (ai_security_threat_threshold g) e p)).
  set (m' := set_profiles m (list_set (process_profiles m) a p')).
  exists m', a.
  split; [reflexivity|]. split.
  - rewrite (lookup_same_pids m m' (Event.pid e) eq_refl
               (list_set_same_pid (process_profiles m) a p p' Hn
                  (analyze_locked_pid _ e p))).
    exact Hl.
  - cbn [set_profiles process_profiles].
    eapply nth_error_list_set_same; exact Hn.
Qed.

Lemma reachable_scores_ok :
  forall g,
    reachable hash_32 full_name_hash g ->
    Forall scores_ok (profile_list g).
Proof.
  intros g Hr.
  exact (reachable_invariant _
           (profiles_invariant scores_ok
              (new_profile_scores_ok full_name_hash)
              analyze_locked_scores_ok learn_profile_scores_ok)
           g Hr).
Qed.

Lemma profile_at_in :
  forall g pid p, profile_at hash_32 g pid p -> In p (profile_list g).
Proof.
  intros g pid p (m & a & Hm & _ & Hn). unfold profile_list. rewrite Hm.
  eapply nth_error_In; exact Hn.
Qed.

(** X17.  In a reachable state, analysing a newly built event of a
    subject with a profile never raises the subject's trust score or
    behaviour score and never lowers its risk score; it counts the event,
    and it raises the anomaly count by one exactly when the event scores
    above 30.  Trust once lost comes back only through the learning
    pass. *)
Theorem analysis_never_raises_trust :
  forall g e p,
    reachable hash_32 full_name_hash g ->
    profile_at hash_32 g (Event.pid e) p ->
    fresh_event e ->
    exists p',
      profile_at hash_32 (snd (ai_security_analyze_event hash_32 e g))
        (Event.pid e) p'
      /\ F32.leb (Profile.trust_score p') (Profile.trust_score p) = true
      /\ F32.leb (Profile.behavior_score p') (Profile.behavior_score p) = true
      /\ F32.leb (Profile.risk_score p) (Profile.risk_score p') = true
      /\ Profile.anomaly_count p'
         = (if Event.threat_score (assessed hash_32 e g) >? 30
            then u32 (Profile.anomaly_count p + 1)
            else Profile.anomaly_count p)
      /\ Profile.event_count p' = u32 (Profile.event_count p + 1).
Proof.
  intros g e p Hr Hat Hfresh.
  exists (snd (analyze_locked (ai_security_threat_threshold g) e p)).
  split; [apply analyze_event_profile_at; exact Hat|].
  pose proof (reachable_scores_ok g Hr) as Hall.
  rewrite Forall_forall in Hall.
  destruct (Hall p (profile_at_in _ _ _ Hat))
    as ((Ht & _) & (Hrk & Hrkb) & (Hb & _)).
  pose proof (analyze_locked_score (ai_security_threat_threshold g) e p
                Hfresh) as Hs.
  pose proof (formula_score_range e p) as Hrange.
  rewrite <- Hs in Hrange.
  destruct (deltas_nonneg _ Hrange) as (H200 & H500 & H1000).
  rewrite (assessed_found hash_32 g e p Hat).
  split; [exact (sub_max_le_self _ _ Ht H500)|].
  split; [exact (sub_max_le_self _ _ Hb H200)|].
  split; [|split; reflexivity].
  rewrite f_1_0_value in Hrkb.
  assert (Hrisk : Profile.risk_score
                    (snd (analyze_locked (ai_security_threat_threshold g)
                            e p))
                  = F32.min f_1_0
                      (F32.add (Profile.risk_score p)
                         (F32.div
                            (F32.of_Z
                               (Event.threat_score
                                  (fst (analyze_locked
                                          (ai_security_threat_threshold g)
                                          e p))))
                            f_1000))) by reflexivity.
  rewrite Hrisk, f_1_0_value.
  apply add_min_ge_left; assumption.
Qed.

(** *** The confidence of an assessment *)

Lemma f_100_value : f_100 = S754_finite false 13107200 (-17).
Proof. apply literal_values. Qed.

Lemma below_0_8_exponent :
  forall m e,
    canonical_mantissa 24 128 m e = true ->
    ulps (Zpos m) e <= 13421773 * 2 ^ 125 ->
    e <= -24 /\ Zpos m <= 13421773 * 2 ^ (- e - 24).
Proof.
  intros m e Hc Hle. destruct (canonical_facts m e Hc) as (Ha & Hb & Hn).
  unfold ulps in Hle.
  assert (He : e <= -24).
  { destruct (Z_le_gt_dec e (-24)) as [H | H]; [exact H|]. exfalso.
    specialize (Hn ltac:(lia)).
    assert (2 ^ 126 <= 2 ^ (e + 149)) by (apply Z.pow_le_mono_r; lia).
    change (2 ^ 23) with 8388608 in Hn.
    assert (8388608 * 2 ^ 126 <= Zpos m * 2 ^ (e + 149)) by nia.
    change (2 ^ 126) with (2 * 2 ^ 125) in *.
    pose proof (pow2_pos 125 ltac:(lia)). lia. }
  split; [exact He|].
  replace 125 with ((e + 149) + (- e - 24)) in Hle by lia.
  rewrite (pow2_split (e + 149) (- e - 24)) in Hle by lia.
  pose proof (pow2_pos (e + 149) ltac:(lia)) as HP.
  set (A := 2 ^ (e + 149)) in *. set (B := 2 ^ (- e - 24)) in *.
  assert (Zpos m * A <= (13421773 * B) * A) by lia.
  apply Z.mul_le_mono_pos_r in H; [exact H | exact HP].
Qed.

(** [behavior_score * 100] for a behaviour score within [0, 0.8]: the
    cast to [u32] is defined and gives at most 80. *)
Lemma mul_100_bound :
  forall b,
    nonneg b = true ->
    F32.leb b f_0_8 = true ->
    F32.u32_convertible (F32.mul b f_100) = true
    /\ 0 <= F32.trunc (F32.mul b f_100) <= 80.
Proof.
  intros b Hb Hle. rewrite f_100_value.
  destruct b as [s | s | | s mx ex]; try discriminate Hb.
  - cbn. split; [reflexivity | lia].
  - pose proof (nonneg_finite _ _ _ Hb) as (-> & Hc & He104).
    rewrite f_0_8_value in Hle.
    apply (leb_ulps mx ex 13421773 (-24) Hc eq_refl) in Hle.
    change (ulps 13421773 (-24)) with (13421773 * 2 ^ 125) in Hle.
    destruct (below_0_8_exponent mx ex Hc Hle) as (Hex & Hmx).
    destruct (canonical_facts mx ex Hc) as (Hex149 & _).
    unfold F32.mul, SFmul, F32.prec, F32.emax. cbn [xorb].
    set (mp := (mx * 13107200)%positive).
    set (ep := ex + -17).
    pose proof (digits2_bounds mp) as Hd.
    set (d := Zpos (digits2_pos mp)) in *.
    pose proof (pow2_pos (- ex - 24) ltac:(lia)) as HP.
    assert (Hmp : Zpos mp <= 10485761 * 2 ^ (- ex)).
    { subst mp. rewrite Pos2Z.inj_mul.
      replace (- ex) with (24 + (- ex - 24)) by lia.
      rewrite (pow2_split 24 (- ex - 24)) by lia.
      change (2 ^ 24) with 16777216.
      change (Z.pos 13107200) with 13107200. nia. }
    assert (Hd24 : 24 <= d).
    { destruct (Z_le_gt_dec 24 d) as [H | H]; [exact H|]. exfalso.
      assert (Hd0 : 0 <= d) by (subst d; lia).
      assert (2 ^ d <= 2 ^ 23) by (apply Z.pow_le_mono_r; lia).
      change (2 ^ 23) with 8388608 in *.
      subst mp. rewrite Pos2Z.inj_mul in Hd.
      change (Z.pos 13107200) with 13107200 in Hd. nia. }
    assert (Hdhi : d + ex <= 24).
    { destruct (Z_le_gt_dec (d + ex) 24) as [H | H]; [exact H|]. exfalso.
      assert (2 ^ (24 - ex) <= 2 ^ (d - 1)) by (apply Z.pow_le_mono_r; lia).
      replace (24 - ex) with (24 + (- ex)) in * by lia.
      rewrite (pow2_split 24 (- ex)) in * by lia.
      change (2 ^ 24) with 16777216 in *.
      pose proof (pow2_pos (- ex) ltac:(lia)). nia. }
    assert (Hpre : ep <= fexp32 (d + ep)) by (unfold fexp32; lia).
    destruct (binary_round_aux_between false mp ep Hpre)
      as [[Hz _] | (mf & ef & Hres & Hcan & Hge & Hgrid & _)].
    + rewrite Hz. cbn. split; [reflexivity | lia].
    + fold d in Hge, Hgrid.
      assert (He1 : fexp32 (d + ep) <= -17) by (unfold fexp32; lia).
      assert (He1lo : -149 <= fexp32 (d + ep)) by (unfold fexp32; lia).
      set (e1 := fexp32 (d + ep)) in *. clearbody e1.
      assert (Hn : Zpos mp <= (10485761 * 2 ^ (-17 - e1)) * 2 ^ (e1 - ep)).
      { rewrite <- Z.mul_assoc.
        rewrite <- (pow2_split (-17 - e1) (e1 - ep)) by lia.
        replace (-17 - e1 + (e1 - ep)) with (- ex) by lia. exact Hmp. }
      specialize (Hgrid _ Hn).
      assert (Hef : ef < 7).
      { destruct (Z_lt_ge_dec ef 7) as [H | H]; [exact H|]. exfalso.
        assert (2 ^ (7 - e1) <= 2 ^ (ef - e1))
          by (apply Z.pow_le_mono_r; lia).
        replace (7 - e1) with (24 + (-17 - e1)) in * by lia.
        rewrite (pow2_split 24 (-17 - e1)) in * by lia.
        change (2 ^ 24) with 16777216 in *.
        pose proof (pow2_pos (-17 - e1) ltac:(lia)).
        assert (1 <= Zpos mf) by lia. nia. }
      replace (ef <=? 104) with true in Hres
        by (symmetry; apply Z.leb_le; lia).
      rewrite Hres.
      assert (Htr : 0 <= F32.trunc (S754_finite false mf ef) <= 80).
      { cbn [F32.trunc].
        destruct (Z.leb_spec 0 ef) as [Hpos | Hneg].
        - rewrite Z.shiftl_mul_pow2 by lia.
          pose proof (pow2_pos ef Hpos) as HPe.
          split; [nia|].
          (* mf * 2^ef * 2^17 <= 10485761 *)
          replace (ef - e1) with (ef + 17 + (-17 - e1)) in Hgrid by lia.
          rewrite (pow2_split (ef + 17) (-17 - e1)) in Hgrid by lia.
          rewrite (pow2_split ef 17) in Hgrid by lia.
          change (2 ^ 17) with 131072 in Hgrid.
          pose proof (pow2_pos (-17 - e1) ltac:(lia)) as HPt.
          set (T := 2 ^ (-17 - e1)) in *. set (E := 2 ^ ef) in *.
          assert (Zpos mf * E * 131072 * T <= 10485761 * T) by lia.
          apply Z.mul_le_mono_pos_r in H; [lia | exact HPt].
        - rewrite Z.shiftr_div_pow2 by lia.
          pose proof (pow2_pos (- ef) ltac:(lia)) as HPe.
          split; [apply Z.div_pos; lia|].
          assert (Zpos mf / 2 ^ (- ef) < 81); [|lia].
          apply Z.div_lt_upper_bound; [exact HPe|].
          (* mf * 2^17 <= 10485761 * 2^(-ef) *)
          pose proof (pow2_pos (ef - e1) ltac:(lia)) as HPj.
          assert (Hid : 2 ^ (ef - e1) * 2 ^ (- ef) = 2 ^ (-17 - e1) * 131072).
          { rewrite <- (pow2_split (ef - e1) (- ef)) by lia.
            change 131072 with (2 ^ 17).
            rewrite <- (pow2_split (-17 - e1) 17) by lia.
            f_equal. lia. }
          set (J := 2 ^ (ef - e1)) in *. set (T := 2 ^ (-17 - e1)) in *.
          set (E := 2 ^ (- ef)) in *.
          assert (H1 : Zpos mf * J * 131072 <= 10485761 * (J * E)).
          { rewrite Hid. 
            assert (Zpos mf * J * 131072 <= 10485761 * T * 131072) by lia.
            lia. }
          assert (H2 : Zpos mf * 131072 * J <= (10485761 * E) * J) by lia.
          apply Z.mul_le_mono_pos_r in H2; [lia | exact HPj]. }
      split; [|exact Htr].
      cbn [F32.u32_convertible]. apply andb_true_iff. split.
      * apply Z.leb_le. lia.
      * apply Z.ltb_lt. change (2 ^ 32) with 4294967296. lia.
Qed.

(** X18.  In a reachable state the product [behavior_score * 100] of any
    profile is a number whose truncation lies in 0..80, so the cast to
    [u32] in the analysis is always defined, the confidence given to an
    event of a subject with a profile is that truncation and never
    exceeds 80, and the cap of the confidence at 100 never takes
    effect. *)
Theorem reachable_confidence_at_most_80 :
  forall g e p,
    reachable hash_32 full_name_hash g ->
    profile_at hash_32 g (Event.pid e) p ->
    F32.u32_convertible (F32.mul (Profile.behavior_score p) f_100) = true
    /\ Event.confidence (assessed hash_32 e g)
       = F32.trunc (F32.mul (Profile.behavior_score p) f_100)
    /\ 0 <= Event.confidence (assessed hash_32 e g) <= 80.
Proof.
  intros g e p Hr Hat.
  pose proof (reachable_scores_ok g Hr) as Hall.
  rewrite Forall_forall in Hall.
  destruct (Hall p (profile_at_in _ _ _ Hat)) as (_ & _ & (Hb & Hbb)).
  destruct (mul_100_bound _ Hb Hbb) as (Hconv & Htr).
  split; [exact Hconv|].
  rewrite (assessed_found hash_32 g e p Hat).
  assert (Hc : Event.confidence
                 (fst (analyze_locked (ai_security_threat_threshold g) e p))
               = min_u (F32.to_u32
                          (F32.mul (Profile.behavior_score p) f_100)) 100)
    by reflexivity.
  rewrite Hc. destruct (to_u32_convertible _ Hconv) as [Heq _].
  rewrite Heq. unfold min_u.
  destruct (Z.ltb_spec
              (F32.trunc (F32.mul (Profile.behavior_score p) f_100)) 100);
    [split; [reflexivity | exact Htr] | lia].
Qed.

(** *** What a decision logs *)

Lemma classify_threat_levels :
  forall s,
    (level_value (ai_security_classify_threat s)
     >=? level_value AI_SECURITY_THREAT_MEDIUM) = (s >=? 50)
    /\ (level_value (ai_security_classify_threat s)
        >=? level_value AI_SECURITY_THREAT_HIGH) = (s >=? 70).
Proof.
  intros s. unfold ai_security_classify_threat.
  destruct (Z.geb_spec s 90); [destruct (Z.geb_spec s 50), (Z.geb_spec s 70);
                                cbn; split; (reflexivity || lia)|].
  destruct (Z.geb_spec s 70); [destruct (Z.geb_spec s 50);
                                cbn; split; (reflexivity || lia)|].
  destruct (Z.geb_spec s 50); [cbn; split; reflexivity|].
  destruct (Z.geb_spec s 25); cbn; split; reflexivity.
Qed.

Lemma analyze_event_keeps_manager :
  forall e g m,
    ai_sec_mgr g = Some m ->
    ai_sec_mgr (snd (ai_security_analyze_event hash_32 e g)) <> None.
Proof.
  intros e g m Hm. unfold ai_security_analyze_event. rewrite Hm.
  destruct (ai_security_get_profile hash_32 g (Event.pid e)) as [a|];
    [|cbn [snd]; congruence].
  destruct (nth_error (process_profiles m) a) as [p|];
    [|cbn [snd]; congruence].
  destruct (analyze_locked (ai_security_threat_threshold g) e p)
    as [e' p'].
  cbn. discriminate.
Qed.

(** X19.  What [ai_security_make_decision] has logged for an event of a
    subject with a profile depends on the score alone: nothing below 50;
    from 50 on a kernel warning, provided the explanation buffer could be
    allocated; from 70 on also an audit record with the event's pid, uid,
    score and action, whether or not the warning could be built.  Hence,
    with a threshold of at least 70 (the default is 75), every denied
    operation leaves an audit record. *)
Theorem decisions_logged_by_score :
  forall alloc_ok g e p,
    profile_at hash_32 g (Event.pid e) p ->
    let r := ai_security_make_decision hash_32 e g in
    let e' := snd (fst r) in
    let log :=
      ai_security_log_threat alloc_ok
        (snd (ai_security_analyze_event hash_32 e g)) (Some e') in
    (Event.threat_score e' < 50 -> log = [])
    /\ ((exists text, In (pr_warn text) log)
        <-> alloc_ok = true /\ 50 <= Event.threat_score e')
    /\ (In (audit_log (Event.pid e') (Event.uid e')
              (Event.threat_score e') (Event.recommended_action e')) log
        <-> 70 <= Event.threat_score e')
    /\ (fst (fst r) = 1 -> 70 <= ai_security_threat_threshold g ->
        In (audit_log (Event.pid e') (Event.uid e')
              (Event.threat_score e') (Event.recommended_action e')) log).
Proof.
  intros alloc_ok g e p Hat r e' log.
  assert (He' : e' = assessed hash_32 e g)
    by (subst e' r; apply make_decision_event).
  assert (Hd : fst (fst r)
               = (if denies g (Event.threat_score e') then 1 else 0))
    by (subst r; rewrite He'; apply (make_decision_profile g e p Hat)).
  assert (Hlev : Event.threat_level e'
                 = ai_security_classify_threat (Event.threat_score e'))
    by (rewrite He', (assessed_found hash_32 g e p Hat);
        apply analyze_locked_level).
  destruct Hat as (m & a & Hm & _).
  pose proof (analyze_event_keeps_manager e g m Hm) as Hmgr.
  subst log. unfold ai_security_log_threat.
  destruct (ai_sec_mgr (snd (ai_security_analyze_event hash_32 e g)))
    as [m1|]; [clear Hmgr | contradiction Hmgr; reflexivity].
  rewrite Hlev.
  destruct (classify_threat_levels (Event.threat_score e')) as [-> ->].
  assert (Hex : (alloc_ok = true
                 /\ exists x,
                      ai_security_explain_decision alloc_ok (Some e') = Some x)
                \/ (alloc_ok = false
                    /\ ai_security_explain_decision alloc_ok (Some e') = None)).
  { unfold ai_security_explain_decision. destruct alloc_ok;
      [left; split; [reflexivity | eexists; reflexivity]
      | right; split; reflexivity]. }
  clearbody e' r.
  assert (Hdeny : fst (fst r) = 1 -> 70 <= ai_security_threat_threshold g ->
                  70 <= Event.threat_score e').
  { intros H1 Hthr. rewrite Hd in H1.
    destruct (denies g (Event.threat_score e')) eqn:Hden;
      [|discriminate H1].
    apply denies_iff in Hden. lia. }
  destruct (Z.geb_spec (Event.threat_score e') 50) as [H50 | H50];
    [|split; [reflexivity|];
      split; [split; [intros (text & []) | intros [_ H]; lia]|];
      split; [split; [intros [] | intros; lia]|];
      intros H1 Hthr; specialize (Hdeny H1 Hthr); lia].
  destruct (Z.geb_spec (Event.threat_score e') 70) as [H70 | H70];
    destruct Hex as [(-> & x & ->) | (-> & ->)]; cbn [app].
  - split; [intros; lia|]. split; [|split].
    + split; [intros _; split; [reflexivity | exact H50]|].
      intros _. eexists. left. reflexivity.
    + split; [intros _; exact H70 | intros _; right; left; reflexivity].
    + intros _ _. right. left. reflexivity.
  - split; [intros; lia|]. split; [|split].
    + split; [|intros [Hf _]; discriminate Hf].
      intros (text & [Hin | []]). discriminate Hin.
    + split; [intros _; exact H70 | intros _; left; reflexivity].
    + intros _ _. left. reflexivity.
  - split; [intros; lia|]. split; [|split].
    + split; [intros _; split; [reflexivity | exact H50]|].
      intros _. eexists. left. reflexivity.
    + split; [|intros; lia]. intros [Hin | []]. discriminate Hin.
    + intros H1 Hthr. specialize (Hdeny H1 Hthr). lia.
  - split; [intros; lia|]. split; [|split].
    + split; [intros (text & []) | intros [Hf _]; discriminate Hf].
    + split; [intros [] | intros; lia].
    + intros H1 Hthr. specialize (Hdeny H1 Hthr). lia.
Qed.

(** *** Module life cycle *)

Lemma remove_proc_entry_absent :
  forall name entries,
    ~ In name entries -> remove_proc_entry name entries = entries.
Proof.
  intros name entries. induction entries as [|n t IH]; intros Hn;
    [reflexivity|].
  cbn [remove_proc_entry filter].
  destruct (String.eqb_spec n name) as [-> | Hne].
  - exfalso. apply Hn. left. reflexivity.
  - cbn [negb]. f_equal. apply IH. intros Hin. apply Hn. right. exact Hin.
Qed.

Lemma remove_proc_entry_app :
  forall name l1 l2,
    remove_proc_entry name (l1 ++ l2)
    = remove_proc_entry name l1 ++ remove_proc_entry name l2.
Proof. intros name l1 l2. apply filter_app. Qed.

Lemma remove_proc_entry_one :
  forall name n,
    remove_proc_entry name [n] = if String.eqb n name then [] else [n].
Proof.
  intros name n. cbn [remove_proc_entry filter].
  destruct (String.eqb n name); reflexivity.
Qed.

Lemma entry_names_distinct :
  String.eqb dir_entry stats_entry = false
  /\ String.eqb dir_entry profiles_entry = false
  /\ String.eqb stats_entry dir_entry = false
  /\ String.eqb stats_entry profiles_entry = false
  /\ String.eqb profiles_entry dir_entry = false
  /\ String.eqb profiles_entry stats_entry = false.
Proof. repeat split. Qed.

Ltac remove_entries :=
  destruct entry_names_distinct as (Eds & Edp & Esd & Esp & Epd & Eps);
  repeat first
    [ rewrite remove_proc_entry_app
    | rewrite remove_proc_entry_one
    | match goal with
      | H : ~ In ?n ?l |- context [remove_proc_entry ?n ?l] =>
          rewrite (remove_proc_entry_absent n l H)
      end
    | rewrite String.eqb_refl
    | rewrite Eds | rewrite Edp | rewrite Esd
    | rewrite Esp | rewrite Epd | rewrite Eps
    | rewrite app_nil_r
    | progress cbn [app] ].

Lemma proc_init_result :
  forall o s m,
    mgr_ptr s = mgr_live m ->
    names_free (proc_entries s) ->
    exists ret s',
      ai_security_proc_init o s = Some (ret, s')
      /\ (ret = 0 <->
          proc_dir_ok o = true /\ proc_stats_ok o = true
          /\ proc_profiles_ok o = true)
      /\ (ret = 0 ->
          proc_entries s'
          = proc_entries s ++ [dir_entry; stats_entry; profiles_entry]
          /\ exists s'',
               ai_security_proc_cleanup s' = Some s''
               /\ proc_entries s'' = proc_entries s)
      /\ (ret <> 0 -> ret = - ENOMEM /\ proc_entries s' = proc_entries s).
Proof.
  intros o s m Hm (Hd & Hs & Hp). unfold ai_security_proc_init.
  rewrite Hm.
  destruct (proc_dir_ok o); cbn [negb].
  2:{ eexists _, _. split; [reflexivity|].
      split; [split; [discriminate | intros (H & _); discriminate H]|].
      split; [discriminate|]. intros _. split; reflexivity. }
  destruct (proc_stats_ok o); cbn [negb].
  2:{ eexists _, _. split; [reflexivity|].
      split; [split; [discriminate | intros (_ & H & _); discriminate H]|].
      split; [discriminate|]. intros _. split; [reflexivity|].
      cbn [with_proc proc_entries]. remove_entries. reflexivity. }
  destruct (proc_profiles_ok o); cbn [negb].
  2:{ eexists _, _. split; [reflexivity|].
      split; [split; [discriminate | intros (_ & _ & H); discriminate H]|].
      split; [discriminate|]. intros _. split; [reflexivity|].
      cbn [with_proc proc_entries]. remove_entries. reflexivity. }
  eexists _, _. split; [reflexivity|].
  split; [split; [intros _; repeat split | reflexivity]|].
  split; [|intros H; contradiction H; reflexivity].
  intros _. cbn [with_proc proc_entries]. split.
  - rewrite <- !app_assoc. reflexivity.
  - unfold ai_security_proc_cleanup.
    cbn [with_proc mgr_ptr proc_dir proc_stats proc_profiles proc_entries].
    rewrite Hm. eexists. split; [reflexivity|].
    cbn [with_proc proc_entries]. remove_entries. reflexivity.
Qed.

(** X20.  [ai_security_proc_init] creates all three procfs entries or
    none: it returns 0 exactly when the three creations succeed, and then
    the directory and its two files have been added; on any failure it
    returns -ENOMEM having removed what it had created, so /proc is as
    before.  After a success, [ai_security_proc_cleanup] removes exactly
    the three entries. *)
Theorem proc_init_all_or_nothing :
  forall o s m,
    mgr_ptr s = mgr_live m ->
    names_free (proc_entries s) ->
    exists ret s',
      ai_security_proc_init o s = Some (ret, s')
      /\ (ret = 0 <->
          proc_dir_ok o = true /\ proc_stats_ok o = true
          /\ proc_profiles_ok o = true)
      /\ (ret = 0 ->
          proc_entries s'
          = proc_entries s ++ [dir_entry; stats_entry; profiles_entry]
          /\ exists s'',
               ai_security_proc_cleanup s' = Some s''
               /\ proc_entries s'' = proc_entries s)
      /\ (ret <> 0 -> ret = - ENOMEM /\ proc_entries s' = proc_entries s).
Proof. exact proc_init_result. Qed.

Ltac life_cycle_step :=
  cbn [manager_ok proc_dir_ok proc_stats_ok proc_profiles_ok negb
       mgr_ptr proc_dir proc_stats proc_profiles proc_entries
       learning_timer lsm_hooks with_proc unloaded].

(** X21.  Loading the module into a kernel where its procfs names are
    free: [ai_security_init] returns 0 exactly when the manager and the
    three procfs entries could all be allocated, and then [ai_sec_mgr]
    points to the empty manager, the hooks are registered, the three
    entries exist and the learning timer is pending exactly when learning
    is enabled.  Otherwise it returns -ENOMEM with no hook registered and
    /proc unchanged; if it was the manager that could not be allocated
    [ai_sec_mgr] is NULL, but if a procfs entry failed [ai_sec_mgr] is
    left holding the address of the freed manager and the learning timer,
    when enabled, stays pending. *)
Theorem init_succeeds_or_reports :
  forall o learning entries,
    names_free entries ->
    exists ret s',
      ai_security_init o learning (unloaded entries) = Some (ret, s')
      /\ (ret = 0 <->
          manager_ok o = true /\ proc_dir_ok o = true
          /\ proc_stats_ok o = true /\ proc_profiles_ok o = true)
      /\ (ret = 0 ->
          mgr_ptr s' = mgr_live initial_manager
          /\ lsm_hooks s' = true
          /\ learning_timer s' = learning
          /\ proc_entries s'
             = entries ++ [dir_entry; stats_entry; profiles_entry])
      /\ (ret <> 0 ->
          ret = - ENOMEM
          /\ lsm_hooks s' = false
          /\ proc_entries s' = entries
          /\ (manager_ok o = false ->
              mgr_ptr s' = mgr_null /\ learning_timer s' = false)
          /\ (manager_ok o = true ->
              mgr_ptr s' = mgr_freed /\ learning_timer s' = learning)).
Proof.
  intros o learning entries Hfree. unfold ai_security_init.
  destruct (manager_ok o) eqn:Hmo; cbn [negb].
  2:{ eexists _, _. split; [reflexivity|].
      split; [split; [discriminate | intros (H & _); discriminate H]|].
      split; [discriminate|]. intros _. life_cycle_step.
      repeat split; (reflexivity || discriminate). }
  match goal with
  | |- context [ai_security_proc_init o ?s1] =>
      destruct (proc_init_result o s1 initial_manager eq_refl Hfree)
        as (ret & s2 & Hinit & Hiff & Hok & Hfail);
      rewrite Hinit
  end.
  destruct (Z.eqb_spec ret 0) as [Hret | Hret].
  - eexists _, _. split; [reflexivity|].
    split; [split; [intros _; split; [reflexivity | apply Hiff; exact Hret]
                   | reflexivity]|].
    split; [|intros H; contradiction H; reflexivity].
    intros _. destruct (Hok Hret) as (Hent & _).
    life_cycle_step. split.
    + unfold ai_security_proc_init in Hinit. life_cycle_step.
      cbn [mgr_ptr] in Hinit.
      destruct (proc_dir_ok o), (proc_stats_ok o), (proc_profiles_ok o);
        cbn [negb] in Hinit; injection Hinit as <- <-; reflexivity.
    + split; [reflexivity|]. split.
      * unfold ai_security_proc_init in Hinit. cbn [mgr_ptr] in Hinit.
        destruct (proc_dir_ok o), (proc_stats_ok o), (proc_profiles_ok o);
          cbn [negb] in Hinit; injection Hinit as <- <-;
          destruct learning; reflexivity.
      * exact Hent.
  - eexists _, _. split; [reflexivity|].
    split; [split; [intros H; contradiction
                   | intros (_ & H); apply Hiff in H; contradiction]|].
    split; [intros H; contradiction|].
    intros _. destruct (Hfail Hret) as (Hcode & Hent).
    life_cycle_step.
    split; [exact Hcode|]. split.
    + unfold ai_security_proc_init in Hinit. cbn [mgr_ptr] in Hinit.
      destruct (proc_dir_ok o), (proc_stats_ok o), (proc_profiles_ok o);
        cbn [negb] in Hinit; injection Hinit as <- <-; reflexivity.
    + split; [exact Hent|]. split; [discriminate|].
      intros _. split; [reflexivity|].
      unfold ai_security_proc_init in Hinit. cbn [mgr_ptr] in Hinit.
      destruct (proc_dir_ok o), (proc_stats_ok o), (proc_profiles_ok o);
        cbn [negb] in Hinit; injection Hinit as <- <-;
        destruct learning; reflexivity.
Qed.

(** X22.  Unloading after a successful load: [ai_security_exit] cancels
    the learning timer, removes exactly the three procfs entries the load
    created, so that /proc is as it was before the load, and resets
    [ai_sec_mgr] to NULL.  The LSM hooks are not unregistered; they stay
    installed and (the manager being NULL) pass every call over. *)
Theorem exit_undoes_init :
  forall o learning entries s,
    names_free entries ->
    ai_security_init o learning (unloaded entries) = Some (0, s) ->
    exists s',
      ai_security_exit s = Some s'
      /\ mgr_ptr s' = mgr_null
      /\ learning_timer s' = false
      /\ proc_entries s' = entries
      /\ lsm_hooks s' = true.
Proof.
  intros o learning entries s Hfree. unfold ai_security_init.
  destruct (manager_ok o); cbn [negb]; [|intros H; discriminate H].
  match goal with
  | |- context [ai_security_proc_init o ?s1] =>
      destruct (proc_init_result o s1 initial_manager eq_refl Hfree)
        as (ret & s2 & Hinit & Hiff & Hok & Hfail);
      rewrite Hinit
  end.
  destruct (Z.eqb_spec ret 0) as [Hret | Hret];
    [|intros H; injection H as H _; contradiction].
  intros H. injection H as <-.
  destruct (Hok Hret) as (_ & s'' & Hclean & Hent).
  assert (Hptr : mgr_ptr s2 = mgr_live initial_manager).
  { unfold ai_security_proc_init in Hinit. cbn [mgr_ptr] in Hinit.
    destruct (proc_dir_ok o), (proc_stats_ok o), (proc_profiles_ok o);
      cbn [negb] in Hinit; injection Hinit as <- <-; reflexivity. }
  unfold ai_security_exit, ai_security_proc_cleanup in *.
  life_cycle_step. rewrite Hptr in *.
  injection Hclean as <-.
  cbn [mgr_ptr proc_dir proc_stats proc_profiles proc_entries
       learning_timer lsm_hooks with_proc] in *.
  eexists. split; [reflexivity|]. life_cycle_step.
  split; [reflexivity|]. split; [reflexivity|].
  split; [exact Hent | reflexivity].
Qed.

(** *** The first file access of a subject *)

Lemma analyze_event_get_profile :
  forall e g pid,
    ai_security_get_profile hash_32
      (snd (ai_security_analyze_event hash_32 e g)) pid
    = ai_security_get_profile hash_32 g pid.
Proof.
  intros e g pid. unfold ai_security_analyze_event.
  destruct (ai_sec_mgr g) as [m|] eqn:Hm; [|reflexivity].
  destruct (ai_security_get_profile hash_32 g (Event.pid e)) as [a|];
    [|reflexivity].
  destruct (nth_error (process_profiles m) a) as [p|] eqn:Hn; [|reflexivity].
  pose proof (analyze_locked_pid (ai_security_threat_threshold g) e p) as Hp'.
  destruct (analyze_locked (ai_security_threat_threshold g) e p)
    as [e' p'].
  cbn [snd] in *. unfold ai_security_get_profile.
  cbn [set_mgr ai_sec_mgr]. rewrite Hm.
  apply lookup_same_pids; [reflexivity|].
  apply (list_set_same_pid _ a p p' Hn Hp').
Qed.

Lemma make_decision_get_profile :
  forall e g pid,
    ai_security_get_profile hash_32
      (snd (ai_security_make_decision hash_32 e g)) pid
    = ai_security_get_profile hash_32 g pid.
Proof.
  intros e g pid. rewrite <- (analyze_event_get_profile e g pid).
  unfold ai_security_make_decision.
  destruct (ai_security_analyze_event hash_32 e g) as [[r e'] g1].
  cbn [snd]. unfold ai_security_get_profile.
  destruct (ai_sec_mgr g1) as [m1|] eqn:Hm1; cbn [snd];
    [|rewrite Hm1; reflexivity].
  reflexivity.
Qed.

Lemma retain_event_get_profile :
  forall e g pid,
    ai_security_get_profile hash_32 (retain_event e g) pid
    = ai_security_get_profile hash_32 g pid.
Proof.
  intros e g pid. unfold retain_event, ai_security_get_profile.
  destruct (ai_sec_mgr g) as [m|] eqn:Hm; [|rewrite Hm; reflexivity].
  reflexivity.
Qed.

(** X23.  The file hook is where subjects get their profiles.  After a
    file access by a subject with pid 2 or more, the subject has a
    profile, provided it had one before or the profile could be
    allocated.  If the subject had none and the allocation fails, the
    access is allowed, no event is built and the state is unchanged. *)
Theorem file_permission_profiles_subject :
  forall k f task now g m,
    ai_sec_mgr g = Some m ->
    2 <= task_pid task ->
    let r := ai_security_file_permission hash_32 full_name_hash
               k f task now g in
    (profile_ok k = true
     \/ ai_security_get_profile hash_32 g (task_pid task) <> None ->
     ai_security_get_profile hash_32 (after r) (task_pid task) <> None)
    /\ (profile_ok k = false ->
        ai_security_get_profile hash_32 g (task_pid task) = None ->
        r = hook_return 0 g).
Proof.
  intros k f task now g m Hm Hpid r. subst r.
  assert (Hsys : ai_security_is_system_process (task_pid task) = false).
  { destruct (ai_security_is_system_process (task_pid task)) eqn:E;
      [|reflexivity].
    apply is_system_process_lt_2 in E. lia. }
  unfold ai_security_file_permission. rewrite Hm, Hsys.
  split.
  - intros Hhas.
    set (g1 := match ai_security_get_profile hash_32 g (task_pid task) with
               | Some _ => g
               | None => snd (ai_security_create_profile hash_32
                                full_name_hash k task now g)
               end).
    assert (H1 : ai_security_get_profile hash_32 g1 (task_pid task) <> None).
    { subst g1.
      destruct (ai_security_get_profile hash_32 g (task_pid task)) as [a|]
        eqn:Hg; [rewrite Hg; discriminate|].
      destruct Hhas as [Hok | Hne]; [|contradiction Hne; reflexivity].
      destruct (create_profile_links hash_32 full_name_hash k task now g m
                  Hm Hg Hok) as (_ & m' & a' & Hm' & Hl' & _).
      unfold ai_security_get_profile. rewrite Hm', Hl'. discriminate. }
    destruct (ai_security_get_profile hash_32 g1 (task_pid task)) as [a|]
      eqn:Hg1; [clear H1 | contradiction H1; reflexivity].
    pose proof (create_event_mgr (event_ok k) AI_SECURITY_EVENT_FILE_ACCESS
                  now g1) as Hmgr.
    destruct (ai_security_create_event (event_ok k)
                AI_SECURITY_EVENT_FILE_ACCESS now g1)
      as [[rc [e0|]] g2]; cbn [snd] in Hmgr.
    + match goal with
      | |- context [ai_security_make_decision hash_32 ?x g2] =>
          pose proof (make_decision_get_profile x g2 (task_pid task)) as Hd;
          destruct (ai_security_make_decision hash_32 x g2) as [[d e2] g3]
      end.
      cbn [snd] in Hd. cbn [after].
      assert (H3 : ai_security_get_profile hash_32 g3 (task_pid task)
                   = Some a)
        by (rewrite Hd, (get_profile_same_mgr g1 g2 _ Hmgr); exact Hg1).
      destruct (Event.threat_score e2 >? 20);
        [rewrite retain_event_get_profile|]; rewrite H3; discriminate.
    + cbn [hook_return after].
      rewrite (get_profile_same_mgr g1 g2 _ Hmgr), Hg1. discriminate.
  - intros Hno Hnone. rewrite Hnone.
    unfold ai_security_create_profile. rewrite Hm, Hnone, Hno.
    cbn [negb snd]. rewrite Hnone. reflexivity.
Qed.

(** *** The pattern test of the file hook *)

Lemma description_window :
  forall name,
    strstr (take_chars 255 ("File access: " ++ name)) "sensitive"
    = strstr (take_chars 242 name) "sensitive".
Proof. intros name. reflexivity. Qed.

Lemma file_access_details_flagged :
  forall k f e0 pid ppid uid gid comm,
    file_access_suspicious
      (Event.fill e0 pid ppid uid gid comm
         (fst (fst (file_access_details k f)))
         (snd (fst (file_access_details k f)))
         (snd (file_access_details k f)))
    = flagged k f.
Proof.
  intros k f e0 pid ppid uid gid comm.
  unfold file_access_suspicious, file_access_details, flagged.
  cbn [Event.fill Event.event_data Event.description].
  destruct (d_name f) as [name|]; [|reflexivity].
  destruct (description_ok k); cbn [fst snd andb]; [|reflexivity].
  destruct (data_ok k); cbn [andb]; [|reflexivity].
  apply description_window.
Qed.

Lemma formula_score_file :
  forall e p,
    Event.type e = AI_SECURITY_EVENT_FILE_ACCESS ->
    formula_score e p
    = (if file_access_suspicious e then 30 else 0)
      + (if F32.ltb (Profile.trust_score p) f_0_3 then 20 else 0)
      + (if 5 <? Profile.anomaly_count p then 15 else 0).
Proof.
  intros e p Hty. unfold formula_score, spec_adjustments.
  rewrite base_score_tests, Hty.
  destruct (file_access_suspicious e),
    (F32.ltb (Profile.trust_score p) f_0_3),
    (5 <? Profile.anomaly_count p); reflexivity.
Qed.

(** X25.  The file hook gives the 30 points for a suspicious access
    exactly when the file has a name, the description and the payload
    could be allocated, and "sensitive" occurs within the first 242
    characters of the name: the test reads the description, which holds
    "File access: " and what fits after it in 255 characters.  An
    occurrence further back in a long name, or any name when an
    allocation fails, is scored like an ordinary access. *)
Theorem file_permission_pattern_window :
  forall k f task now g e,
    submitted (ai_security_file_permission hash_32 full_name_hash
                 k f task now g) = Some e ->
    exists p,
      (profile_at hash_32 g (task_pid task) p
       \/ (ai_security_get_profile hash_32 g (task_pid task) = None
           /\ p = new_profile full_name_hash (exe_path_ok k) task now))
      /\ Event.threat_score e
         = (if flagged k f then 30 else 0)
           + (if F32.ltb (Profile.trust_score p) f_0_3 then 20 else 0)
           + (if 5 <? Profile.anomaly_count p then 15 else 0).
Proof.
  intros k f task now g e. unfold ai_security_file_permission.
  destruct (ai_sec_mgr g) as [m|] eqn:Hm; [|discriminate].
  destruct (ai_security_is_system_process (task_pid task)); [discriminate|].
  set (g1 := match ai_security_get_profile hash_32 g (task_pid task) with
             | Some _ => g
             | None => snd (ai_security_create_profile hash_32 full_name_hash
                              k task now g)
             end).
  destruct (ai_security_get_profile hash_32 g1 (task_pid task)) as [a|] eqn:Hg1;
    [|discriminate].
  destruct (get_profile_some hash_32 g1 _ a Hg1) as [p Hat1].
  assert (Hwhich :
    profile_at hash_32 g (task_pid task) p
    \/ (ai_security_get_profile hash_32 g (task_pid task) = None
        /\ p = new_profile full_name_hash (exe_path_ok k) task now)).
  { subst g1.
    destruct (ai_security_get_profile hash_32 g (task_pid task)) as [a0|]
      eqn:Hg; [left; exact Hat1 | right].
    split; [reflexivity|].
    destruct (profile_ok k) eqn:Hok.
    - destruct (create_profile_links hash_32 full_name_hash k task now g m
                  Hm Hg Hok) as (_ & Hnew).
      exact (profile_at_unique _ _ _ _ Hat1 Hnew).
    - exfalso. unfold ai_security_create_profile in Hg1.
      rewrite Hm, Hg, Hok in Hg1. cbn [negb snd] in Hg1. congruence. }
  destruct (ai_security_create_event (event_ok k)
              AI_SECURITY_EVENT_FILE_ACCESS now g1)
    as [[rc [e0|]] g2] eqn:Hce; [|discriminate].
  destruct (create_event_result _ _ _ _ _ _ _ Hce) as (He0 & Hmgr & _).
  pose proof (profile_at_same_mgr hash_32 g1 g2 _ p Hmgr Hat1) as Hat.
  set (e1 := Event.fill e0 (task_pid task) (real_parent_pid task)
               (cred_uid task) (cred_gid task)
               (take_chars (TASK_COMM_LEN - 1) (task_comm task))
               (fst (fst (file_access_details k f)))
               (snd (fst (file_access_details k f)))
               (snd (file_access_details k f))).
  assert (Hpid : Event.pid e1 = task_pid task) by reflexivity.
  rewrite <- Hpid in Hat.
  pose proof (make_decision_event hash_32 e1 g2) as He.
  destruct (ai_security_make_decision hash_32 e1 g2) as [[d e2] g3].
  cbn [fst snd] in He. cbn [submitted].
  intros Hsub. injection Hsub as <-.
  exists p. split; [exact Hwhich|].
  rewrite He, (assessed_found hash_32 g2 e1 p Hat).
  rewrite (analyze_locked_score _ e1 p) by (subst e1 e0; reflexivity).
  rewrite (formula_score_file e1 p) by (subst e1 e0; reflexivity).
  subst e1. rewrite file_access_details_flagged. reflexivity.
Qed.

(** *** The learning pass moves scores one way *)

Lemma learn_profile_directions :
  forall now p,
    scores_ok p ->
    F32.leb (Profile.trust_score p)
      (Profile.trust_score (learn_profile now p)) = true
    /\ F32.leb (Profile.risk_score (learn_profile now p))
         (Profile.risk_score p) = true.
Proof.
  intros now p ((Ht & Htb) & (Hr & Hrb) & _).
  unfold learn_profile.
  cbn [Profile.trust_score Profile.risk_score].
  destruct ((Profile.anomaly_count p =? 0)
            && F32.ltb (Profile.trust_score p) f_0_8) eqn:Hres;
    [|split; apply leb_refl_nonneg; assumption].
  apply andb_true_iff in Hres. destruct Hres as [_ Hlt].
  split; [|apply sub_max_le_self; [exact Hr | exact f_0_005_nonneg]].
  destruct (add_0_01_below_0_8 (Profile.trust_score p)
              (nonneg_valid _ Ht) Hlt) as [_ Hle].
  destruct (add_ge_left _ _ Ht f_0_01_nonneg) as [Hinf | [_ Hge]];
    [|exact Hge].
  rewrite Hinf in Hle. discriminate Hle.
Qed.

Lemma learning_work_profile_at :
  forall now g pid p,
    profile_at hash_32 g pid p ->
    ai_security_learning_enabled g = true ->
    profile_at hash_32 (ai_security_learning_work now g) pid
      (learn_profile now p).
Proof.
  intros now g pid p (m & a & Hm & Hl & Hn) Hon.
  unfold ai_security_learning_work. rewrite Hm, Hon. cbn [negb].
  eexists _, a. split; [reflexivity|]. split.
  - rewrite <- Hl. apply lookup_same_pids; [reflexivity|].
    cbn [process_profiles]. rewrite map_map. apply map_ext.
    intros q. reflexivity.
  - cbn [process_profiles]. apply map_nth_error. exact Hn.
Qed.

(** X26.  In a reachable state a learning pass moves the scores of a
    profile one way only: trust is not lowered, risk is not raised, and
    the behaviour score, the anomaly count, the threat score and the
    threat level are left as they were; the time of last activity becomes
    the time of the pass. *)
Theorem learning_moves_scores_one_way :
  forall now g pid p,
    reachable hash_32 full_name_hash g ->
    profile_at hash_32 g pid p ->
    ai_security_learning_enabled g = true ->
    exists p',
      profile_at hash_32 (ai_security_learning_work now g) pid p'
      /\ F32.leb (Profile.trust_score p) (Profile.trust_score p') = true
      /\ F32.leb (Profile.risk_score p') (Profile.risk_score p) = true
      /\ Profile.behavior_score p' = Profile.behavior_score p
      /\ Profile.anomaly_count p' = Profile.anomaly_count p
      /\ Profile.threat_score p' = Profile.threat_score p
      /\ Profile.current_threat p' = Profile.current_threat p
      /\ Profile.last_activity p' = now.
Proof.
  intros now g pid p Hr Hat Hon.
  exists (learn_profile now p).
  split; [apply learning_work_profile_at; assumption|].
  pose proof (reachable_scores_ok g Hr) as Hall.
  rewrite Forall_forall in Hall.
  destruct (learn_profile_directions now p
              (Hall p (profile_at_in _ _ _ Hat))) as [Ht Hrk].
  split; [exact Ht|]. split; [exact Hrk|]. repeat split.
Qed.

(** *** Two creations for one subject *)

(** Run on one and the same state, the two parts are
    [ai_security_create_profile]. *)
Lemma create_profile_in_two_parts :
  forall k task now g,
    create_profile_finish hash_32 full_name_hash k task now
      (create_profile_lookup hash_32 task g) g
    = Some (ai_security_create_profile hash_32 full_name_hash k task now g).
Proof.
  intros k task now g.
  unfold ai_security_create_profile, create_profile_finish,
    create_profile_lookup, create_profile_insert.
  destruct (ai_sec_mgr g) as [m|]; [|reflexivity].
  destruct (ai_security_get_profile hash_32 g (task_pid task));
    [reflexivity|].
  destruct (profile_ok k); reflexivity.
Qed.



End Decisions.

(** *** The event hash table *)

Section Event_Hash_Properties.

Variable hash_64 : Z -> Z.

(** X24.  An event added to the event hash table is what a lookup of its
    id returns, also when an older event with the same id is on the
    chain; lookups of every other id are unaffected, whether or not the
    ids share a bucket. *)
Theorem event_lookup_after_add :
  forall tbl e id,
    ai_security_event_lookup hash_64
      (ai_security_event_add_to_hash hash_64 tbl e) (Event.event_id e)
    = Some e
    /\ (id <> Event.event_id e ->
        ai_security_event_lookup hash_64
          (ai_security_event_add_to_hash hash_64 tbl e) id
        = ai_security_event_lookup hash_64 tbl id).
Proof.
  intros tbl e id.
  unfold ai_security_event_lookup, ai_security_event_add_to_hash. split.
  - rewrite Z.eqb_refl. cbn [find]. rewrite Z.eqb_refl. reflexivity.
  - intros Hne.
    destruct (Z.eqb_spec (hash_64 id) (hash_64 (Event.event_id e)));
      [|reflexivity].
    cbn [find].
    destruct (Z.eqb_spec (Event.event_id e) id) as [Heq | _];
      [congruence | reflexivity].
Qed.

End Event_Hash_Properties.

(** *** Worked examples of the further properties *)

Lemma g_logged_reachable : reachable bucket_of name_hash g_logged.
Proof.
  unfold g_logged, sensitive_access.
  apply reach_file_permission.
  exact (reach_init bucket_of name_hash
           AI_SECURITY_THREAT_SCORE_THRESHOLD true true).
Qed.

Lemma g_logged_contents :
  live_profiles g_logged = 1
  /\ map Event.threat_score (event_log g_logged) = [30].
Proof. vm_compute. split; reflexivity. Qed.

Lemma reachable_profile_threat_consistent_witness :
  reachable bucket_of name_hash g_logged
  /\ Forall (fun p =>
               0 <= Profile.threat_score p <= 100
               /\ Profile.current_threat p
                  = ai_security_classify_threat (Profile.threat_score p))
            (profile_list g_logged).
Proof.
  split; [exact g_logged_reachable|].
  exact (reachable_profile_threat_consistent bucket_of name_hash g_logged
           g_logged_reachable).
Defined.

Lemma reachable_log_well_formed_witness :
  reachable bucket_of name_hash g_logged
  /\ Forall (fun e =>
               20 < Event.threat_score e <= 100
               /\ Event.threat_level e
                  = ai_security_classify_threat (Event.threat_score e)
               /\ 0 <= Event.confidence e <= 100)
            (event_log g_logged).
Proof.
  split; [exact g_logged_reachable|].
  exact (reachable_log_well_formed bucket_of name_hash g_logged
           g_logged_reachable).
Defined.

Lemma reachable_processes_monitored_witness :
  reachable bucket_of name_hash g_logged
  /\ monitored g_logged = u64 (live_profiles g_logged).
Proof.
  split; [exact g_logged_reachable|].
  exact (reachable_processes_monitored bucket_of name_hash g_logged
           g_logged_reachable).
Defined.

(** The escalation of the subject with trust 0.2 is scored 80 and, at the
    default threshold with automatic response on, denied and counted. *)
Lemma make_decision_denies_iff_witness :
  fst (fst (ai_security_make_decision bucket_of e_privilege g_low_trust)) = 1.
Proof.
  pose proof (make_decision_denies_iff bucket_of g_low_trust e_privilege
                p_low_trust (profile_at_g_with p_low_trust)) as H.
  cbv zeta in H. destruct H as (_ & Hiff & _).
  apply Hiff. split; [reflexivity|].
  vm_compute. intro Hc. discriminate Hc.
Defined.

Lemma make_decision_counts_witness :
  exists m',
    ai_sec_mgr (snd (ai_security_make_decision bucket_of e_privilege
                       g_low_trust)) = Some m'
    /\ total_events_processed m' = 1
    /\ threats_detected m' = 1
    /\ threats_blocked m' = 1.
Proof.
  pose proof (make_decision_counts bucket_of g_low_trust
                (link_profile bucket_of initial_manager p_low_trust)
                e_privilege p_low_trust eq_refl
                (profile_at_g_with p_low_trust)) as H.
  cbv zeta in H. destruct H as (m' & H1 & H2 & H3 & H4 & _).
  exists m'. split; [exact H1|].
  rewrite H2, H3, H4. vm_compute. repeat split.
Defined.

(** The subject with trust 0.2 changing its uid under the default policy
    is refused. *)
Lemma task_fix_setuid_default_policy_witness :
  status (ai_security_task_fix_setuid bucket_of all_ok 0 1000
            (task_of 100) 0 g_low_trust) = - EPERM.
Proof.
  pose proof (task_fix_setuid_default_policy bucket_of all_ok 0 1000
                (task_of 100) 0 g_low_trust p_low_trust
                (profile_at_g_with p_low_trust) eq_refl
                ltac:(intro H; discriminate H) eq_refl) as H.
  cbv zeta in H. destruct H as (e & _ & _ & Hiff).
  apply (Hiff eq_refl eq_refl). left. vm_compute. reflexivity.
Defined.

(** Pid 1 is passed over by the file hook. *)
Lemma hooks_skip_system_processes_witness :
  ai_security_file_permission bucket_of name_hash all_ok sensitive_file
    (task_of 1) 0 g_init
  = hook_return 0 g_init.
Proof.
  exact (proj1 (hooks_skip_system_processes bucket_of name_hash all_ok
                  sensitive_file 0 1000 (task_of 1) 0 g_init
                  (or_intror eq_refl))).
Defined.

(** Right after initialisation pid 100 has no profile: its change of uid
    is passed over. *)
Lemma hooks_pass_over_unprofiled_witness :
  ai_security_task_fix_setuid bucket_of all_ok 0 1000 (task_of 100) 0 g_init
  = hook_return 0 g_init.
Proof.
  exact (proj1 (hooks_pass_over_unprofiled bucket_of all_ok 0 1000
                  (task_of 100) 0 g_init (or_introl eq_refl))).
Defined.

(** Analysing an escalation of pid 100 leaves the profile of pid 200 as it
    was. *)
Lemma analysis_touches_one_profile_witness :
  profile_of bucket_of
    (snd (ai_security_analyze_event bucket_of e_privilege g_two)) 200
  = profile_of bucket_of g_two 200.
Proof.
  exact (proj1 (analysis_touches_one_profile bucket_of e_privilege g_two 200
                  ltac:(intro H; discriminate H))).
Defined.

(** Right after initialisation an escalation event of pid 100 is the event
    of an unknown subject: allowed. *)
Lemma make_decision_unknown_subject_witness :
  fst (fst (ai_security_make_decision bucket_of e_privilege g_init)) = 0.
Proof.
  pose proof (make_decision_unknown_subject bucket_of g_init initial_manager
                e_privilege eq_refl eq_refl) as H.
  cbv zeta in H. exact (proj1 H).
Defined.

(** The event of the access to the sensitive file. *)
Lemma hook_events_well_formed_witness :
  exists e,
    submitted (sensitive_access g_init) = Some e
    /\ Event.pid e = 100
    /\ (Event.event_data e <> None -> Event.description e <> None).
Proof.
  destruct (submitted (sensitive_access g_init)) as [e|] eqn:Hsub.
  - exists e. split; [reflexivity|].
    destruct (hook_events_well_formed bucket_of name_hash all_ok
                sensitive_file 0 1000 (task_of 100) 0 g_init e
                (or_introl Hsub)) as (Hpid & _ & _ & Hdef).
    split; [exact Hpid | exact Hdef].
  - vm_compute in Hsub. discriminate Hsub.
Defined.

Lemma reachable_scores_in_range_witness :
  reachable bucket_of name_hash g_logged
  /\ Forall (fun p =>
               within f_0_81 (Profile.trust_score p)
               /\ within f_1_0 (Profile.risk_score p)
               /\ within f_0_8 (Profile.behavior_score p)
               /\ F32.leb (Profile.trust_score p) f_1_0 = true
               /\ F32.leb (Profile.behavior_score p) f_1_0 = true)
            (profile_list g_logged).
Proof.
  split; [exact g_logged_reachable|].
  exact (reachable_scores_in_range bucket_of name_hash g_logged
           g_logged_reachable).
Defined.

Lemma g_one_reachable : reachable bucket_of name_hash g_one.
Proof.
  unfold g_one. apply reach_create_profile.
  exact (reach_init bucket_of name_hash
           AI_SECURITY_THREAT_SCORE_THRESHOLD true true).
Qed.

Lemma profile_at_g_one :
  profile_at bucket_of g_one 100 (new_profile name_hash true (task_of 100) 0).
Proof.
  exists (link_profile bucket_of initial_manager
            (new_profile name_hash true (task_of 100) 0)), 0%nat.
  split; [reflexivity|]. split; [vm_compute; reflexivity | reflexivity].
Qed.

(** An escalation of the newly profiled pid 100 takes its trust from 0.7
    down and counts one anomaly. *)
Lemma analysis_never_raises_trust_witness :
  exists p',
    profile_at bucket_of (snd (ai_security_analyze_event bucket_of
                                 e_privilege g_one)) 100 p'
    /\ F32.leb (Profile.trust_score p') f_0_7 = true
    /\ Profile.anomaly_count p' = 1.
Proof.
  destruct (analysis_never_raises_trust bucket_of name_hash g_one e_privilege
              (new_profile name_hash true (task_of 100) 0)
              g_one_reachable profile_at_g_one eq_refl)
    as (p' & Hat & Ht & _ & _ & Hac & _).
  exists p'. split; [exact Hat|]. split; [exact Ht|].
  rewrite Hac. vm_compute. reflexivity.
Defined.

(** A newly profiled subject (behaviour 0.8) is assessed with confidence
    80. *)
Lemma reachable_confidence_at_most_80_witness :
  Event.confidence (assessed bucket_of e_privilege g_one) = 80.
Proof.
  destruct (reachable_confidence_at_most_80 bucket_of name_hash g_one
              e_privilege (new_profile name_hash true (task_of 100) 0)
              g_one_reachable profile_at_g_one) as (_ & Heq & _).
  rewrite Heq. vm_compute. reflexivity.
Defined.

(** The escalation scored 80 is audited. *)
Lemma decisions_logged_by_score_witness :
  In (audit_log 100 1000 80 AI_SECURITY_ACTION_BLOCK)
     (ai_security_log_threat true
        (snd (ai_security_analyze_event bucket_of e_privilege g_low_trust))
        (Some (snd (fst (ai_security_make_decision bucket_of e_privilege
                           g_low_trust))))).
Proof.
  pose proof (decisions_logged_by_score bucket_of true g_low_trust
                e_privilege p_low_trust (profile_at_g_with p_low_trust))
    as H.
  cbv zeta in H. destruct H as (_ & _ & Haudit & _).
  apply Haudit. vm_compute. intro Hc. discriminate Hc.
Defined.

Lemma names_free_nil : names_free [].
Proof. repeat split; intros []. Qed.

Lemma proc_init_all_or_nothing_witness :
  exists ret s',
    ai_security_proc_init all_allocated manager_allocated = Some (ret, s')
    /\ ret = 0.
Proof.
  destruct (proc_init_all_or_nothing all_allocated manager_allocated
              initial_manager eq_refl names_free_nil)
    as (ret & s' & H & Hiff & _).
  exists ret, s'. split; [exact H|]. apply Hiff. repeat split.
Defined.

Lemma init_succeeds_or_reports_witness :
  exists ret s',
    ai_security_init all_allocated true (unloaded []) = Some (ret, s')
    /\ ret = 0.
Proof.
  destruct (init_succeeds_or_reports all_allocated true [] names_free_nil)
    as (ret & s' & H & Hiff & _).
  exists ret, s'. split; [exact H|]. apply Hiff. repeat split.
Defined.

Lemma exit_undoes_init_witness :
  exists s',
    ai_security_exit loaded = Some s'
    /\ mgr_ptr s' = mgr_null
    /\ learning_timer s' = false
    /\ proc_entries s' = []
    /\ lsm_hooks s' = true.
Proof.
  exact (exit_undoes_init all_allocated true [] loaded names_free_nil
           eq_refl).
Defined.

(** After its first file access pid 100 has a profile. *)
Lemma file_permission_profiles_subject_witness :
  ai_security_get_profile bucket_of (after (sensitive_access g_init)) 100
  <> None.
Proof.
  pose proof (file_permission_profiles_subject bucket_of name_hash all_ok
                sensitive_file (task_of 100) 0 g_init initial_manager
                eq_refl ltac:(intro H; discriminate H)) as H.
  cbv zeta in H. exact (proj1 H (or_introl eq_refl)).
Defined.

(** A name that carries the pattern after 242 other characters is not
    flagged, though it contains the pattern. *)
Lemma file_permission_pattern_window_witness :
  strstr padded_name "sensitive" = true
  /\ exists e,
       submitted (ai_security_file_permission bucket_of name_hash all_ok
                    {| d_name := Some padded_name |} (task_of 100) 0 g_init)
       = Some e
       /\ Event.threat_score e = 0.
Proof.
  split; [vm_compute; reflexivity|].
  destruct (submitted (ai_security_file_permission bucket_of name_hash all_ok
                         {| d_name := Some padded_name |} (task_of 100) 0
                         g_init)) as [e|] eqn:Hsub.
  - destruct (file_permission_pattern_window bucket_of name_hash all_ok
                {| d_name := Some padded_name |} (task_of 100) 0 g_init e
                Hsub) as (p & Hp & Hscore).
    exists e. split; [reflexivity|].
    rewrite Hscore.
    replace (flagged all_ok {| d_name := Some padded_name |}) with false
      by (vm_compute; reflexivity).
    destruct Hp as [(m & a & Hm & Hl & _) | (_ & ->)].
    + injection Hm as <-. vm_compute in Hl. discriminate Hl.
    + vm_compute. reflexivity.
  - vm_compute in Hsub. discriminate Hsub.
Defined.

(** A learning pass over the newly profiled pid 100 does not lower its
    trust of 0.7. *)
Lemma learning_moves_scores_one_way_witness :
  exists p',
    profile_at bucket_of (ai_security_learning_work 5 g_one) 100 p'
    /\ F32.leb f_0_7 (Profile.trust_score p') = true
    /\ Profile.last_activity p' = 5.
Proof.
  destruct (learning_moves_scores_one_way bucket_of name_hash 5 g_one 100
              (new_profile name_hash true (task_of 100) 0)
              g_one_reachable profile_at_g_one eq_refl)
    as (p' & Hat & Ht & _ & _ & _ & _ & _ & Hla).
  exists p'. split; [exact Hat|]. split; [exact Ht | exact Hla].
Defined.

(** The payload and prefix tests of the design document against the
    code, for pid 100 with its profile as first created.  The long file
    name, the payload of the file hook's event, contains the pattern, but
    beyond what the description holds: the event is scored 0 where the
    payload test gives 30.  The path below /usr/lib contains "/tmp/" and
    does not lie under a temporary directory: the event, newly created
    and with a description, is scored 40 where the prefix test gives
    0. *)
Lemma threat_score_reads_description_not_payload :
  profile_of bucket_of g_one 100 = Some p_new
  /\ option_map (fun e => (Event.event_data e, Event.threat_score e,
                           spec_threat_score e p_new))
       long_name_access
     = Some (Some padded_name, 0, 30)
  /\ fresh_event e_exec_system
  /\ Event.description e_exec_system <> None
  /\ Event.threat_score (assessed bucket_of e_exec_system g_one) = 40
  /\ spec_threat_score e_exec_system p_new = 0.
Proof.
  split; [vm_compute; reflexivity|].
  split; [vm_compute; reflexivity|].
  split; [reflexivity|].
  split; [discriminate|].
  split; vm_compute; reflexivity.
Qed.

